(** * Snapgram: the Appwrite API layer (src/lib/appwrite/api.ts)

    A shallow embedding of the workflows of [api.ts] over a model of the
    remote service they call (account, avatars, databases, storage), and the
    properties of these workflows: tag normalisation, the life cycle of image
    files across the create, update and delete workflows, the fields written
    to documents, error propagation and the queries of the listings. *)

From stdpp Require Import base option list gmap sets strings pretty.
From Stdlib Require Import ZArith Ascii String.

Open Scope string_scope.
Open Scope list_scope.

(** ** JavaScript strings

    A string is a sequence of code units. The two characters the code looks
    for, the space and the comma, are one unit each. *)

Module Js.

(** [s.replace(/ /g, "")]: every space character (U+0020, and no other
    white space) is removed. *)
Fixpoint replace_spaces (s : string) : string :=
  match s with
  | EmptyString => EmptyString
  | String c s' =>
      if Ascii.eqb c " " then replace_spaces s' else String c (replace_spaces s')
  end.

(** [s.split(sep)] for a separator of one character. The result is never
    empty: [split] of the empty string is the list of one empty string. *)
Fixpoint split (sep : ascii) (s : string) : list string :=
  match s with
  | EmptyString => [EmptyString]
  | String c s' =>
      if Ascii.eqb c sep then EmptyString :: split sep s'
      else match split sep s' with
           | [] => [String c EmptyString]
           | t :: ts => String c t :: ts
           end
  end.

(** [l.join(sep)]. *)
Fixpoint join (sep : string) (l : list string) : string :=
  match l with
  | [] => EmptyString
  | [x] => x
  | x :: xs => x ++ sep ++ join sep xs
  end.

(** Does the character occur in the string? *)
Fixpoint occurs (c : ascii) (s : string) : bool :=
  match s with
  | EmptyString => false
  | String d s' => Ascii.eqb d c || occurs c s'
  end.

(** Truthiness of a string that may be [undefined]: [undefined] and the
    empty string are falsy. *)
Definition truthy (s : option string) : bool :=
  match s with
  | None => false
  | Some EmptyString => false
  | Some (String _ _) => true
  end.

(** Truthiness of a number: zero is falsy. Only integral numbers are
    modelled. *)
Definition truthy_number (n : option Z) : bool :=
  match n with
  | None => false
  | Some z => negb (z =? 0)%Z
  end.

End Js.

(** ** Tag normalisation

    [post.tags?.replace(/ /g, "").split(",") || []], as in [createPost] and
    [updatePost]. With [tags] undefined the optional chain is [undefined] and
    the result is the empty array; an array, also [[""]], is truthy. *)
Definition normalizeTags (tags : option string) : list string :=
  match tags with
  | Some s => Js.split "," (Js.replace_spaces s)
  | None => []
  end.


(** ** Values exchanged with the remote service *)

(** The content of an image file. *)
Definition File := string.

(** The URLs the SDK derives, and any other one ([Href]). *)
Inductive URL : Type :=
| Preview (bucket fileId : string) (width height : Z) (gravity : string) (quality : Z)
| Initials (name : string)
| Href (s : string).

(** The value of a field of a document. *)
Inductive fval : Type :=
| FStr (s : string)
| FUrl (u : URL)
| FList (l : list string).

(** An object literal sent as the data of a document: a property whose
    value is [undefined] is not serialised. *)
Definition obj (props : list (string * option fval)) : gmap string fval :=
  list_to_map (omap (λ p, (λ v, (p.1, v)) <$> p.2) props).

(** [Models.Document]: the id the store gave it and its fields. *)
Record Document : Type := mkDocument {
  doc_id : string;
  doc_fields : gmap string fval
}.

(** [Models.File]. *)
Record UploadedFile : Type := mkUploadedFile { file_id : string }.

(** [Models.User], the account of the session service. *)
Record Account : Type := mkAccount {
  acc_id : string;
  acc_email : string;
  acc_password : string;
  acc_name : string
}.

(** [Models.Session]. *)
Record Session : Type := mkSession { session_userId : string }.

(** The object [{ status: ... }] some workflows return. *)
Record Status : Type := mkStatus { status : string }.

(** The queries of [listDocuments]. *)
Module Query.
Inductive t : Type :=
| equal (attribute value : string)
| search (attribute term : string)
| orderDesc (attribute : string)
| limit (n : Z)
| cursorAfter (documentId : string).
End Query.

(** The calls of the SDK, as they are issued to the service. *)
Inductive Call : Type :=
| account_create (userId email password name : string)
| account_createEmailPasswordSession (email password : string)
| account_get
| account_deleteSession (sessionId : string)
| avatars_getInitials (name : string)
| databases_createDocument (db coll id : string) (data : gmap string fval)
| databases_getDocument (db coll id : string)
| databases_listDocuments (db coll : string) (queries : list Query.t)
| databases_updateDocument (db coll id : string) (data : gmap string fval)
| databases_deleteDocument (db coll id : string)
| storage_createFile (bucket id : string) (file : option File)
| storage_getFilePreview (bucket fileId : string) (width height : Z)
    (gravity : string) (quality : Z)
| storage_deleteFile (bucket fileId : string).

(** What is thrown: the constructor [Error] itself ([throw Error]), or the
    exception with which a call to the service is rejected. *)
Inductive Err : Type :=
| ErrorCtor
| AppwriteException (c : Call).

(** How the service treats a call: it fulfils it, it answers with a falsy
    value, or it rejects it. *)
Inductive Fate : Type := Fulfil | Falsy | Reject.

(** [appwriteConfig], of [./config]: the identifiers of the database, the
    bucket and the collections. *)
Record Config : Type := mkConfig {
  databaseId : string;
  storageId : string;
  userCollectionId : string;
  postCollectionId : string;
  savesCollectionId : string
}.

(** ** The world: the state of the service and what the client did

    [documents] is keyed by database, collection and document id, [files] by
    bucket and file id. [fates] are the treatments the service gives to the
    coming calls, in order (once exhausted, every call is fulfilled).
    [calls] are the calls issued so far, oldest first, and [console] what
    [console.log] received. *)
Record World : Type := mkWorld {
  accounts : gmap string Account;
  session : option string;
  documents : gmap (string * string * string) (gmap string fval);
  files : gmap (string * string) File;
  fates : list Fate;
  calls : list Call;
  console : list Err
}.

Definition set_accounts (a : gmap string Account) (w : World) : World :=
  mkWorld a (session w) (documents w) (files w) (fates w) (calls w) (console w).
Definition set_session (s : option string) (w : World) : World :=
  mkWorld (accounts w) s (documents w) (files w) (fates w) (calls w) (console w).
Definition set_documents (d : gmap (string * string * string) (gmap string fval))
    (w : World) : World :=
  mkWorld (accounts w) (session w) d (files w) (fates w) (calls w) (console w).
Definition set_files (f : gmap (string * string) File) (w : World) : World :=
  mkWorld (accounts w) (session w) (documents w) f (fates w) (calls w) (console w).

(** The image file a document refers to. *)
Definition image_ids (d : gmap string fval) : gset string :=
  match d !! "imageId" with
  | Some (FStr s) => {[ s ]}
  | _ => ∅
  end.

(** The file ids some document refers to. *)
Definition referenced (w : World) : gset string :=
  ⋃ ((λ kd, image_ids kd.2) <$> map_to_list (documents w)).

(** Every id the service knows of. *)
Definition ids_in_use (w : World) : gset string :=
  dom (accounts w)
  ∪ set_map (λ k : string * string * string, k.2) (dom (documents w))
  ∪ set_map (λ k : string * string, k.2) (dom (files w))
  ∪ referenced w.

(** ** Promises

    An [async] function, run on a world, returns or throws, and leaves a
    world. *)
Inductive Outcome (A : Type) : Type :=
| Return (a : A)
| Throw (e : Err).
Arguments Return {A} a.
Arguments Throw {A} e.

Definition Async (A : Type) : Type := World → Outcome A * World.

#[global] Instance Async_ret : MRet Async := λ A a w, (Return a, w).

#[global] Instance Async_bind : MBind Async := λ A B k m w,
  match m w with
  | (Return a, w') => k a w'
  | (Throw e, w') => (Throw e, w')
  end.

Definition throw {A : Type} (e : Err) : Async A := λ w, (Throw e, w).

(** [try { body } catch (error) { handler }]. *)
Definition try_catch {A : Type} (body : Async A) (handler : Err → Async A) : Async A :=
  λ w, match body w with
       | (Return a, w') => (Return a, w')
       | (Throw e, w') => handler e w'
       end.

(** The fate of the [n]-th coming call. *)
Definition fate (n : nat) (w : World) : Fate :=
  default Fulfil (head (Nat.iter n tail (fates w))).

(** The fate of the next call. *)
Definition coming (w : World) : Fate := fate 0 w.

(** The world once the call [c] is issued: [c] joins the trace and the next
    fate is consumed. *)
Definition called (c : Call) (w : World) : World :=
  mkWorld (accounts w) (session w) (documents w) (files w) (tail (fates w))
    (calls w ++ [c]) (console w).

(** The world once [console.log(e)] has run. *)
Definition logged (e : Err) (w : World) : World :=
  mkWorld (accounts w) (session w) (documents w) (files w) (fates w) (calls w)
    (console w ++ [e]).

Definition console_log (e : Err) : Async unit := λ w, (Return tt, logged e w).

(** [ID.unique()]: an id nothing in the service bears. *)
Definition ID_unique : Async string := λ w, (Return (fresh (ids_in_use w)), w).

(** A call to the service. Fulfilled, it has the [effect] the service
    defines, which can itself reject the call ([None]: no such document, no
    such file); a call answered with a falsy value ([Return None]) or
    rejected leaves the service as it was. *)
Definition remote {A : Type} (c : Call) (effect : World → option (A * World))
    : Async (option A) := λ w,
  match coming w with
  | Fulfil =>
      match effect (called c w) with
      | Some (a, w2) => (Return (Some a), w2)
      | None => (Throw (AppwriteException c), called c w)
      end
  | Falsy => (Return None, called c w)
  | Reject => (Throw (AppwriteException c), called c w)
  end.

(** ** The SDK: what each call does to the service when it is fulfilled *)

(** The documents of a collection, as [Models.Document]s. *)
Definition collection (w : World) (db coll : string) : list Document :=
  omap (λ kd : string * string * string * gmap string fval,
          if decide (kd.1.1.1 = db ∧ kd.1.1.2 = coll)
          then Some (mkDocument kd.1.2 kd.2) else None)
       (map_to_list (documents w)).

Module account.

Definition create (userId email password name : string) : Async (option Account) :=
  remote (account_create userId email password name) (λ w,
    let a := mkAccount userId email password name in
    Some (a, set_accounts (<[userId := a]> (accounts w)) w)).

Definition createEmailPasswordSession (email password : string)
    : Async (option Session) :=
  remote (account_createEmailPasswordSession email password) (λ w,
    match list_find (λ ka : string * Account,
                       acc_email ka.2 = email ∧ acc_password ka.2 = password)
                    (map_to_list (accounts w)) with
    | Some (_, (id, _)) => Some (mkSession id, set_session (Some id) w)
    | None => None
    end).

Definition get : Async (option Account) :=
  remote account_get (λ w,
    match session w with
    | Some id => match accounts w !! id with Some a => Some (a, w) | None => None end
    | None => None
    end).

Definition deleteSession (sessionId : string) : Async (option unit) :=
  remote (account_deleteSession sessionId) (λ w,
    match session w with
    | Some _ => Some (tt, set_session None w)
    | None => None
    end).

End account.

Module avatars.

Definition getInitials (name : string) : Async (option URL) :=
  remote (avatars_getInitials name) (λ w, Some (Initials name, w)).

End avatars.

Module databases.

(** The service refuses an id that is taken. *)
Definition createDocument (db coll id : string) (data : gmap string fval)
    : Async (option Document) :=
  remote (databases_createDocument db coll id data) (λ w,
    match documents w !! (db, coll, id) with
    | Some _ => None
    | None =>
        Some (mkDocument id data,
              set_documents (<[(db, coll, id) := data]> (documents w)) w)
    end).

Definition getDocument (db coll id : string) : Async (option Document) :=
  remote (databases_getDocument db coll id) (λ w,
    match documents w !! (db, coll, id) with
    | Some d => Some (mkDocument id d, w)
    | None => None
    end).

(** Which documents a list of queries selects, and in which order, is the
    service's matter: [select] stands for it. *)
Definition listDocuments (select : list Query.t → list Document → list Document)
    (db coll : string) (queries : list Query.t) : Async (option (list Document)) :=
  remote (databases_listDocuments db coll queries) (λ w,
    Some (select queries (collection w db coll), w)).

(** The fields given replace those of the document, the others stay. *)
Definition updateDocument (db coll id : string) (data : gmap string fval)
    : Async (option Document) :=
  remote (databases_updateDocument db coll id data) (λ w,
    match documents w !! (db, coll, id) with
    | Some old =>
        Some (mkDocument id (data ∪ old),
              set_documents (<[(db, coll, id) := data ∪ old]> (documents w)) w)
    | None => None
    end).

Definition deleteDocument (db coll id : string) : Async (option unit) :=
  remote (databases_deleteDocument db coll id) (λ w,
    match documents w !! (db, coll, id) with
    | Some _ => Some (tt, set_documents (delete (db, coll, id) (documents w)) w)
    | None => None
    end).

End databases.

Module storage.

Definition createFile (bucket id : string) (file : option File)
    : Async (option UploadedFile) :=
  remote (storage_createFile bucket id file) (λ w,
    match file, files w !! (bucket, id) with
    | Some f, None =>
        Some (mkUploadedFile id, set_files (<[(bucket, id) := f]> (files w)) w)
    | _, _ => None
    end).

Definition getFilePreview (bucket fileId : string) (width height : Z)
    (gravity : string) (quality : Z) : Async (option URL) :=
  remote (storage_getFilePreview bucket fileId width height gravity quality) (λ w,
    Some (Preview bucket fileId width height gravity quality, w)).

Definition deleteFile (bucket fileId : string) : Async (option unit) :=
  remote (storage_deleteFile bucket fileId) (λ w,
    match files w !! (bucket, fileId) with
    | Some _ => Some (tt, set_files (delete (bucket, fileId) (files w)) w)
    | None => None
    end).

End storage.

(** ** The types of [@/types], as [api.ts] uses them *)

Module INewUser.
Record t : Type := mk { name : string; email : string; username : string; password : string }.
End INewUser.

Module INewPost.
Record t : Type := mk {
  userId : string;
  caption : string;
  file : list File;
  location : option string;
  tags : option string
}.
End INewPost.

Module IUpdatePost.
Record t : Type := mk {
  postId : string;
  caption : string;
  imageId : string;
  imageUrl : URL;
  file : list File;
  location : option string;
  tags : option string
}.
End IUpdatePost.

Module IUpdateUser.
Record t : Type := mk {
  userId : string;
  name : string;
  bio : string;
  imageId : string;
  imageUrl : URL;
  file : list File
}.
End IUpdateUser.

(** The argument of [saveUserToDB]. *)
Module IUserDoc.
Record t : Type := mk {
  accountId : string;
  email : string;
  name : string;
  imageUrl : option URL;
  username : option string
}.
End IUserDoc.

(** What [createUserAccount] returns: the new user (or [undefined]), or the
    error it caught. *)
Inductive SignUp : Type :=
| NewUser (newUser : option Document)
| Caught (error : Err).

(** ** The workflows of [api.ts] *)

Section Api.

Variable appwriteConfig : Config.
Variable select : list Query.t → list Document → list Document.

(** The handler of most workflows: [catch (error) { console.log(error) }],
    after which the function returns [undefined]. *)
Definition log_and_return_undefined {A : Type} (error : Err) : Async (option A) :=
  console_log error ≫= λ _, mret None.

Definition saveUserToDB (user : IUserDoc.t) : Async (option Document) :=
  try_catch
    (id ← ID_unique;
     newUser ← databases.createDocument
       (databaseId appwriteConfig) (userCollectionId appwriteConfig) id
       (obj [("accountId", Some (FStr (IUserDoc.accountId user)));
             ("email", Some (FStr (IUserDoc.email user)));
             ("name", Some (FStr (IUserDoc.name user)));
             ("imageUrl", FUrl <$> IUserDoc.imageUrl user);
             ("username", FStr <$> IUserDoc.username user)]);
     mret newUser)
    log_and_return_undefined.

Definition createUserAccount (user : INewUser.t) : Async SignUp :=
  try_catch
    (id ← ID_unique;
     newAccount ← account.create id (INewUser.email user) (INewUser.password user)
       (INewUser.name user);
     match newAccount with
     | None => throw ErrorCtor
     | Some newAccount =>
         avatarUrl ← avatars.getInitials (INewUser.name user);
         newUser ← saveUserToDB
           (IUserDoc.mk (acc_id newAccount) (acc_email newAccount)
              (acc_name newAccount) avatarUrl (Some (INewUser.username user)));
         mret (NewUser newUser)
     end)
    (λ error, console_log error ≫= λ _, mret (Caught error)).

Definition signInAccount (email password : string) : Async (option Session) :=
  try_catch
    (session ← account.createEmailPasswordSession email password;
     mret session)
    log_and_return_undefined.

Definition getCurrentUser : Async (option Document) :=
  try_catch
    (currentAccount ← account.get;
     match currentAccount with
     | None => throw ErrorCtor
     | Some currentAccount =>
         currentUser ← databases.listDocuments select
           (databaseId appwriteConfig) (userCollectionId appwriteConfig)
           [Query.equal "accountId" (acc_id currentAccount)];
         match currentUser with
         | None => throw ErrorCtor
         | Some currentUser => mret (currentUser !! 0%nat)
         end
     end)
    log_and_return_undefined.

Definition signOutAccount : Async (option unit) :=
  try_catch
    (session ← account.deleteSession "current";
     mret session)
    log_and_return_undefined.

Definition uploadFile (file : option File) : Async (option UploadedFile) :=
  try_catch
    (id ← ID_unique;
     uploadedFile ← storage.createFile (storageId appwriteConfig) id file;
     mret uploadedFile)
    log_and_return_undefined.

Definition getFilePreview (fileId : string) : Async (option URL) :=
  try_catch
    (fileUrl ← storage.getFilePreview (storageId appwriteConfig) fileId
       2000 2000 "top" 100;
     match fileUrl with
     | None => throw ErrorCtor
     | Some fileUrl => mret (Some fileUrl)
     end)
    log_and_return_undefined.

Definition deleteFile (fileId : string) : Async (option Status) :=
  try_catch
    (_ ← storage.deleteFile (storageId appwriteConfig) fileId;
     mret (Some (mkStatus "ok")))
    log_and_return_undefined.

Definition createPost (post : INewPost.t) : Async (option Document) :=
  try_catch
    (uploadedFile ← uploadFile (INewPost.file post !! 0%nat);
     match uploadedFile with
     | None => throw ErrorCtor
     | Some uploadedFile =>
         fileUrl ← getFilePreview (file_id uploadedFile);
         match fileUrl with
         | None => _ ← deleteFile (file_id uploadedFile); throw ErrorCtor
         | Some fileUrl =>
             let tags := normalizeTags (INewPost.tags post) in
             id ← ID_unique;
             newPost ← databases.createDocument
               (databaseId appwriteConfig) (postCollectionId appwriteConfig) id
               (obj [("creator", Some (FStr (INewPost.userId post)));
                     ("caption", Some (FStr (INewPost.caption post)));
                     ("imageUrl", Some (FUrl fileUrl));
                     ("imageId", Some (FStr (file_id uploadedFile)));
                     ("location", FStr <$> INewPost.location post);
                     ("tags", Some (FList tags))]);
             match newPost with
             | None => _ ← deleteFile (file_id uploadedFile); throw ErrorCtor
             | Some newPost => mret (Some newPost)
             end
         end
     end)
    log_and_return_undefined.

Definition likePost (postId : string) (likesArray : list string)
    : Async (option Document) :=
  try_catch
    (updatedPost ← databases.updateDocument
       (databaseId appwriteConfig) (postCollectionId appwriteConfig) postId
       (obj [("likes", Some (FList likesArray))]);
     match updatedPost with
     | None => throw ErrorCtor
     | Some updatedPost => mret (Some updatedPost)
     end)
    log_and_return_undefined.

Definition savePost (userId postId : string) : Async (option Document) :=
  try_catch
    (id ← ID_unique;
     updatedPost ← databases.createDocument
       (databaseId appwriteConfig) (savesCollectionId appwriteConfig) id
       (obj [("user", Some (FStr userId)); ("post", Some (FStr postId))]);
     match updatedPost with
     | None => throw ErrorCtor
     | Some updatedPost => mret (Some updatedPost)
     end)
    log_and_return_undefined.

Definition deleteSavedPost (savedRecordId : string) : Async (option Status) :=
  try_catch
    (statusCode ← databases.deleteDocument
       (databaseId appwriteConfig) (savesCollectionId appwriteConfig) savedRecordId;
     match statusCode with
     | None => throw ErrorCtor
     | Some _ => mret (Some (mkStatus "Ok"))
     end)
    log_and_return_undefined.

(** The guard on [postId] stands before the [try]. *)
Definition getPostById (postId : option string) : Async (option Document) :=
  if negb (Js.truthy postId) then throw ErrorCtor
  else
    try_catch
      (post ← databases.getDocument
         (databaseId appwriteConfig) (postCollectionId appwriteConfig)
         (default "" postId);
       match post with
       | None => throw ErrorCtor
       | Some post => mret (Some post)
       end)
      log_and_return_undefined.

Definition updatePost (post : IUpdatePost.t) : Async (option Document) :=
  let hasFileToUpdate := Nat.ltb 0 (List.length (IUpdatePost.file post)) in
  try_catch
    (let image := (IUpdatePost.imageUrl post, IUpdatePost.imageId post) in
     image ←
       (if hasFileToUpdate then
          uploadedFile ← uploadFile (IUpdatePost.file post !! 0%nat);
          match uploadedFile with
          | None => throw ErrorCtor
          | Some uploadedFile =>
              fileUrl ← getFilePreview (file_id uploadedFile);
              match fileUrl with
              | None => _ ← deleteFile (file_id uploadedFile); throw ErrorCtor
              | Some fileUrl => mret (fileUrl, file_id uploadedFile)
              end
          end
        else mret image);
     let tags := normalizeTags (IUpdatePost.tags post) in
     updatedPost ← databases.updateDocument
       (databaseId appwriteConfig) (postCollectionId appwriteConfig)
       (IUpdatePost.postId post)
       (obj [("caption", Some (FStr (IUpdatePost.caption post)));
             ("imageUrl", Some (FUrl image.1));
             ("imageId", Some (FStr image.2));
             ("location", FStr <$> IUpdatePost.location post);
             ("tags", Some (FList tags))]);
     match updatedPost with
     | None =>
         _ ← (if hasFileToUpdate then _ ← deleteFile image.2; mret tt else mret tt);
         throw ErrorCtor
     | Some updatedPost =>
         _ ← (if hasFileToUpdate
              then _ ← deleteFile (IUpdatePost.imageId post); mret tt
              else mret tt);
         mret (Some updatedPost)
     end)
    log_and_return_undefined.

Definition deletePost (postId imageId : option string) : Async (option Status) :=
  if negb (Js.truthy postId) || negb (Js.truthy imageId) then mret None
  else
    try_catch
      (statusCode ← databases.deleteDocument
         (databaseId appwriteConfig) (postCollectionId appwriteConfig)
         (default "" postId);
       match statusCode with
       | None => throw ErrorCtor
       | Some _ =>
           _ ← deleteFile (default "" imageId);
           mret (Some (mkStatus "Ok"))
       end)
      log_and_return_undefined.

Definition getInfinitePosts (pageParam : Z) : Async (option (list Document)) :=
  let queries := [Query.orderDesc "$updatedAt"; Query.limit 9] in
  let queries :=
    if Js.truthy_number (Some pageParam)
    then queries ++ [Query.cursorAfter (pretty pageParam)]
    else queries in
  try_catch
    (posts ← databases.listDocuments select
       (databaseId appwriteConfig) (postCollectionId appwriteConfig) queries;
     match posts with
     | None => throw ErrorCtor
     | Some posts => mret (Some posts)
     end)
    log_and_return_undefined.

Definition searchPosts (searchTerm : string) : Async (option (list Document)) :=
  try_catch
    (posts ← databases.listDocuments select
       (databaseId appwriteConfig) (postCollectionId appwriteConfig)
       [Query.search "caption" searchTerm];
     match posts with
     | None => throw ErrorCtor
     | Some posts => mret (Some posts)
     end)
    log_and_return_undefined.

Definition getUsers (limit : option Z) : Async (option (list Document)) :=
  let queries := [Query.orderDesc "$createdAt"] in
  let queries :=
    if Js.truthy_number limit
    then queries ++ [Query.limit (default 0%Z limit)]
    else queries in
  try_catch
    (users ← databases.listDocuments select
       (databaseId appwriteConfig) (userCollectionId appwriteConfig) queries;
     match users with
     | None => throw ErrorCtor
     | Some users => mret (Some users)
     end)
    log_and_return_undefined.

Definition updateUser (user : IUpdateUser.t) : Async (option Document) :=
  let hasFileToUpdate := Nat.ltb 0 (List.length (IUpdateUser.file user)) in
  try_catch
    (let image := (IUpdateUser.imageUrl user, IUpdateUser.imageId user) in
     image ←
       (if hasFileToUpdate then
          uploadedFile ← uploadFile (IUpdateUser.file user !! 0%nat);
          match uploadedFile with
          | None => throw ErrorCtor
          | Some uploadedFile =>
              fileUrl ← getFilePreview (file_id uploadedFile);
              match fileUrl with
              | None => _ ← deleteFile (file_id uploadedFile); throw ErrorCtor
              | Some fileUrl => mret (fileUrl, file_id uploadedFile)
              end
          end
        else mret image);
     updatedUser ← databases.updateDocument
       (databaseId appwriteConfig) (userCollectionId appwriteConfig)
       (IUpdateUser.userId user)
       (obj [("name", Some (FStr (IUpdateUser.name user)));
             ("bi0", Some (FStr (IUpdateUser.bio user)));
             ("imageUrl", Some (FUrl image.1));
             ("imageId", Some (FStr image.2))]);
     match updatedUser with
     | None =>
         _ ← (if hasFileToUpdate then _ ← deleteFile image.2; mret tt else mret tt);
         throw ErrorCtor
     | Some updatedUser =>
         _ ← (if Js.truthy (Some (IUpdateUser.imageId user)) && hasFileToUpdate
              then _ ← deleteFile (IUpdateUser.imageId user); mret tt
              else mret tt);
         mret (Some updatedUser)
     end)
    log_and_return_undefined.

Definition getUserById (userId : string) : Async (option Document) :=
  try_catch
    (user ← databases.getDocument
       (databaseId appwriteConfig) (userCollectionId appwriteConfig) userId;
     match user with
     | None => throw ErrorCtor
     | Some user => mret (Some user)
     end)
    log_and_return_undefined.

Definition getRecentPosts : Async (option (list Document)) :=
  try_catch
    (posts ← databases.listDocuments select
       (databaseId appwriteConfig) (postCollectionId appwriteConfig)
       [Query.orderDesc "$createdAt"; Query.limit 20];
     match posts with
     | None => throw ErrorCtor
     | Some posts => mret (Some posts)
     end)
    log_and_return_undefined.

Definition getUserPosts (userId : option string) : Async (option (list Document)) :=
  if negb (Js.truthy userId) then mret None
  else
    try_catch
      (post ← databases.listDocuments select
         (databaseId appwriteConfig) (postCollectionId appwriteConfig)
         [Query.equal "creator" (default "" userId); Query.orderDesc "$createdAt"];
       match post with
       | None => throw ErrorCtor
       | Some post => mret (Some post)
       end)
      log_and_return_undefined.

Definition getAccount : Async (option Account) :=
  try_catch
    (currentAccount ← account.get;
     mret currentAccount)
    log_and_return_undefined.

End Api.

(** ** Notions the properties are stated with *)

(** A workflow settles: on every world it returns, it never throws to its
    caller. *)
Definition settles {A : Type} (m : Async A) : Prop :=
  ∀ w, ∃ a w', m w = (Return a, w').

(** Has the sign-up given a user document? *)
Definition signed_up (r : SignUp) : bool :=
  match r with
  | NewUser (Some _) => true
  | _ => false
  end.

(** The image reference a document stores. *)
Definition image_ref (d : gmap string fval) : option fval * option fval :=
  (d !! "imageUrl", d !! "imageId").

(** The white space of JavaScript within ASCII: tab, line feed, vertical
    tab, form feed, carriage return and space. *)
Definition is_whitespace (c : ascii) : bool :=
  let n := nat_of_ascii c in
  (Nat.leb 9 n && Nat.leb n 13) || Nat.eqb n 32.

(** A tab between two letters. *)
Definition tabbed : string := String "a" (String (ascii_of_nat 9) (String "b" EmptyString)).

(** ** Sample data for the concrete runs *)

Module Sample.

Definition config : Config := mkConfig "db" "bucket" "users" "posts" "saves".

(** A listing that returns the collection as it is. *)
Definition select (queries : list Query.t) (l : list Document) : list Document := l.

(** One post and one user profile, each with its image in the bucket. *)
Definition docs : gmap (string * string * string) (gmap string fval) :=
  <[("db", "posts", "p1") :=
      obj [("creator", Some (FStr "u1")); ("caption", Some (FStr "Sunset"));
           ("imageUrl", Some (FUrl (Href "https://img/old")));
           ("imageId", Some (FStr "old")); ("tags", Some (FList ["sky"]))]]>
  (<[("db", "users", "u1") :=
      obj [("name", Some (FStr "Ada")); ("bio", Some (FStr "hello"));
           ("imageUrl", Some (FUrl (Href "https://img/face")));
           ("imageId", Some (FStr "face"))]]> ∅).

Definition bucket : gmap (string * string) File :=
  <[("bucket", "old") := "OLD-IMAGE"]> (<[("bucket", "face") := "FACE-IMAGE"]> ∅).

(** The world in which the coming calls are treated as [fs] says. *)
Definition world (fs : list Fate) : World := mkWorld ∅ None docs bucket fs [] [].

Definition newPost : INewPost.t :=
  INewPost.mk "u1" "Hello" ["NEW-IMAGE"] (Some "Paris") None.

(** The post of a form whose tag field was left empty. *)
Definition newPostEmptyTags : INewPost.t :=
  INewPost.mk "u1" "Hello" ["NEW-IMAGE"] (Some "Paris") (Some "").

Definition postWithImage : IUpdatePost.t :=
  IUpdatePost.mk "p1" "Sunset" "old" (Href "https://img/old") ["NEW-IMAGE"] None (Some "sky").

Definition postWithoutImage : IUpdatePost.t :=
  IUpdatePost.mk "p1" "Sunrise" "old" (Href "https://img/old") [] None (Some "sky, sea").

Definition userWithImage : IUpdateUser.t :=
  IUpdateUser.mk "u1" "Ada" "hi there" "face" (Href "https://img/face") ["NEW-FACE"].

Definition userWithoutImage : IUpdateUser.t :=
  IUpdateUser.mk "u1" "Ada L." "hi there" "face" (Href "https://img/face") [].

Definition newUser : INewUser.t := INewUser.mk "Ada" "ada@example.org" "ada" "secret-password".

End Sample.

(** ** What a workflow leaves as it was *)

(** The service is as before: accounts, session, documents and files. *)
Definition same_service (w w' : World) : Prop :=
  accounts w' = accounts w ∧ session w' = session w
  ∧ documents w' = documents w ∧ files w' = files w.

(** The bucket is as before. *)
Definition same_bucket (w w' : World) : Prop := files w' = files w.

(** Every document but the one at [key] is as before. *)
Definition same_documents_but (key : string * string * string) (w w' : World) : Prop :=
  ∀ k, k ≠ key → documents w' !! k = documents w !! k.

(** Every file but those at [keys] is as before. *)
Definition same_files_but (keys : list (string * string)) (w w' : World) : Prop :=
  ∀ k, k ∉ keys → files w' !! k = files w !! k.

(** No document was changed or deleted: the documents before are among the
    documents after. *)
Definition documents_grow (w w' : World) : Prop := documents w ⊆ documents w'.

(** The workflow [m] leaves the world related by [R] to the one it found. *)
Definition keeps {A : Type} (R : World → World → Prop) (m : Async A) : Prop :=
  ∀ w, R w (m w).2.

(** A relation that composes along a run: a preorder that neither the
    trace nor the console can break. *)
Class Frame (R : World → World → Prop) : Prop := {
  frame_preorder :: PreOrder R;
  frame_called : ∀ c w, R w (called c w);
  frame_logged : ∀ e w, R w (logged e w)
}.

(** The number of commas of a string. *)
Fixpoint commas (s : string) : nat :=
  match s with
  | EmptyString => 0
  | String c s' => (if Ascii.eqb c "," then 1 else 0) + commas s'
  end.

(** The workflow [m] keeps [R], and what it returns satisfies [φ]. *)
Definition keeps_returning {A : Type} (R : World → World → Prop) (φ : A → Prop)
    (m : Async A) : Prop :=
  ∀ w, R w (m w).2 ∧ ∀ a, (m w).1 = Return a → φ a.

(** The document at [key], if there was one, is still there with its
    [field] as before. *)
Definition field_kept (key : string * string * string) (field : string)
    (w w' : World) : Prop :=
  ∀ d, documents w !! key = Some d →
       ∃ d', documents w' !! key = Some d' ∧ d' !! field = d !! field.

(** The default value of the tag field of the post form
    ([tags: post ? post.tags.join(",") : ""], PostForm): the tags of the
    post being edited joined with commas, the empty string without a post. *)
Definition defaultTags (post : option (list string)) : string :=
  match post with
  | Some tags => Js.join "," tags
  | None => ""
  end.

(** The workflow [m] issues at most [n] calls to the service. *)
Definition issues_at_most {A : Type} (n : nat) (m : Async A) : Prop :=
  ∀ w, ∃ l, calls (m w).2 = calls w ++ l ∧ (List.length l ≤ n)%nat.

(** The workflow [m] issues at most [nr] calls when it returns and at most
    [nt] when it throws. *)
Definition issues_split {A : Type} (nr nt : nat) (m : Async A) : Prop :=
  ∀ w, ∃ l, calls (m w).2 = calls w ++ l
            ∧ match (m w).1 with
              | Return _ => (List.length l ≤ nr)%nat
              | Throw _ => (List.length l ≤ nt)%nat
              end.

(** ** More sample data *)

Module Demo.

(** A post submitted without a file. *)
Definition postWithoutFile : INewPost.t :=
  INewPost.mk "u1" "Hello" [] (Some "Paris") (Some "sky").

(** A profile without an image yet, updated with its first image. *)
Definition userFirstImage : IUpdateUser.t :=
  IUpdateUser.mk "u1" "Ada" "hi there" "" (Href "https://img/initials") ["FIRST-FACE"].

Definition ada : Account := mkAccount "a1" "ada@example.org" "secret-password" "Ada".

(** The sample store with the account of Ada signed in. *)
Definition signedIn (fs : list Fate) : World :=
  mkWorld (<["a1" := ada]> ∅) (Some "a1") Sample.docs Sample.bucket fs [] [].

Definition samplePost : gmap string fval :=
  obj [("creator", Some (FStr "u1")); ("caption", Some (FStr "Sunset"));
       ("imageUrl", Some (FUrl (Href "https://img/old")));
       ("imageId", Some (FStr "old")); ("tags", Some (FList ["sky"]))].

Definition sampleUser : gmap string fval :=
  obj [("name", Some (FStr "Ada")); ("bio", Some (FStr "hello"));
       ("imageUrl", Some (FUrl (Href "https://img/face")));
       ("imageId", Some (FStr "face"))].

End Demo.

(** * Properties *)

(** ** Strings *)

Lemma occurs_replace_spaces (s : string) : Js.occurs " " (Js.replace_spaces s) = false.
Proof.
  induction s as [|c s IH]; simpl; [reflexivity|].
  destruct (Ascii.eqb c " ") eqn:E; simpl; [exact IH|].
  rewrite E. exact IH.
Qed.

Lemma replace_spaces_id (s : string) :
  Js.occurs " " s = false → Js.replace_spaces s = s.
Proof.
  induction s as [|c s IH]; simpl; [reflexivity|].
  intros H. apply orb_false_iff in H as [Hc Hs].
  rewrite Hc. f_equal. exact (IH Hs).
Qed.

Lemma replace_spaces_idempotent (s : string) :
  Js.replace_spaces (Js.replace_spaces s) = Js.replace_spaces s.
Proof. apply replace_spaces_id, occurs_replace_spaces. Qed.

Lemma split_not_nil (sep : ascii) (s : string) : Js.split sep s ≠ [].
Proof.
  destruct s as [|c s]; simpl; [discriminate|].
  destruct (Ascii.eqb c sep); [discriminate|].
  destruct (Js.split sep s); discriminate.
Qed.

(** Joining the pieces with the separator gives the string back. *)
Lemma join_split (sep : ascii) (s : string) :
  Js.join (String sep EmptyString) (Js.split sep s) = s.
Proof.
  induction s as [|c s IH]; simpl; [reflexivity|].
  destruct (Ascii.eqb c sep) eqn:E.
  - apply Ascii.eqb_eq in E. subst c.
    pose proof (split_not_nil sep s) as Hne.
    destruct (Js.split sep s) as [|t ts]; [contradiction|].
    simpl in *. rewrite IH. reflexivity.
  - pose proof (split_not_nil sep s) as Hne.
    destruct (Js.split sep s) as [|t ts]; [contradiction|].
    destruct ts as [|t' ts]; simpl in *; rewrite <- IH; reflexivity.
Qed.

(** No piece contains the separator. *)
Lemma occurs_split (sep : ascii) (s t : string) :
  t ∈ Js.split sep s → Js.occurs sep t = false.
Proof.
  revert t. induction s as [|c s IH]; simpl; intros t Ht.
  - apply list_elem_of_singleton in Ht. subst t. reflexivity.
  - destruct (Ascii.eqb c sep) eqn:E.
    + apply elem_of_cons in Ht as [->|Ht]; [reflexivity|]. apply IH, Ht.
    + pose proof (split_not_nil sep s) as Hne.
      destruct (Js.split sep s) as [|u us]; [contradiction|].
      apply elem_of_cons in Ht as [->|Ht].
      * simpl. rewrite E. apply IH. left.
      * apply IH. right. exact Ht.
Qed.

(** A character that is not in the string is in none of its pieces. *)
Lemma occurs_split_other (sep c : ascii) (s t : string) :
  Js.occurs c s = false → t ∈ Js.split sep s → Js.occurs c t = false.
Proof.
  revert t. induction s as [|d s IH]; simpl; intros t Hs Ht.
  - apply list_elem_of_singleton in Ht. subst t. reflexivity.
  - apply orb_false_iff in Hs as [Hd Hs].
    destruct (Ascii.eqb d sep) eqn:E.
    + apply elem_of_cons in Ht as [->|Ht]; [reflexivity|]. apply IH; assumption.
    + pose proof (split_not_nil sep s) as Hne.
      destruct (Js.split sep s) as [|u us]; [contradiction|].
      apply elem_of_cons in Ht as [->|Ht].
      * simpl. rewrite Hd. apply IH; [assumption|left].
      * apply IH; [assumption|right; exact Ht].
Qed.

Example normalizeTags_placeholder :
  normalizeTags (Some "Art, Expression, Learn") = ["Art"; "Expression"; "Learn"].
Proof. reflexivity. Qed.

Example normalizeTags_rejoined :
  normalizeTags (Some "Art,Expression,Learn") = ["Art"; "Expression"; "Learn"].
Proof. reflexivity. Qed.

Example normalizeTags_empty_string : normalizeTags (Some "") = [""].
Proof. reflexivity. Qed.

Example normalizeTags_undefined : normalizeTags None = [].
Proof. reflexivity. Qed.

(** C9. Tag normalisation is idempotent: for every input string,
    normalising it, joining the tags with commas and normalising the joined
    string again gives the tags of the first normalisation. *)
Theorem normalizeTags_idempotent (s : string) :
  normalizeTags (Some (Js.join "," (normalizeTags (Some s))))
  = normalizeTags (Some s).
Proof.
  unfold normalizeTags.
  rewrite join_split, replace_spaces_idempotent. reflexivity.
Qed.

(** ** Ids *)

Lemma elem_of_referenced (w : World) (i : string) :
  i ∈ referenced w ↔
  ∃ k d, documents w !! k = Some d ∧ d !! "imageId" = Some (FStr i).
Proof.
  unfold referenced. rewrite elem_of_union_list. split.
  - intros (X & HX & Hi).
    apply list_elem_of_fmap in HX as ([k d] & -> & Hkd).
    apply elem_of_map_to_list in Hkd. exists k, d. split; [exact Hkd|].
    unfold image_ids in Hi. simpl in Hi.
    destruct (d !! "imageId") as [[s| |]|]; set_solver.
  - intros (k & d & Hk & Hd). exists {[ i ]}. split; [|set_solver].
    apply list_elem_of_fmap. exists (k, d). split.
    + unfold image_ids. simpl. by rewrite Hd.
    + by apply elem_of_map_to_list.
Qed.

Lemma unique_not_in_use (w : World) : fresh (ids_in_use w) ∉ ids_in_use w.
Proof. apply is_fresh. Qed.

Lemma file_in_use (w : World) (b i : string) :
  is_Some (files w !! (b, i)) → i ∈ ids_in_use w.
Proof.
  intros H. unfold ids_in_use.
  apply elem_of_union_l, elem_of_union_r, elem_of_map.
  exists (b, i). split; [reflexivity|]. by apply elem_of_dom.
Qed.

Lemma document_in_use (w : World) (db coll i : string) :
  is_Some (documents w !! (db, coll, i)) → i ∈ ids_in_use w.
Proof.
  intros H. unfold ids_in_use.
  apply elem_of_union_l, elem_of_union_l, elem_of_union_r, elem_of_map.
  exists (db, coll, i). split; [reflexivity|]. by apply elem_of_dom.
Qed.

Lemma referenced_in_use (w : World) (i : string) :
  i ∈ referenced w → i ∈ ids_in_use w.
Proof. intros H. unfold ids_in_use. by apply elem_of_union_r. Qed.

Lemma unique_no_file (w : World) (b : string) :
  files w !! (b, fresh (ids_in_use w)) = None.
Proof.
  destruct (files w !! (b, fresh (ids_in_use w))) eqn:E; [|reflexivity].
  exfalso. apply (unique_not_in_use w), (file_in_use w b). by rewrite E.
Qed.

Lemma unique_no_document (w : World) (db coll : string) :
  documents w !! (db, coll, fresh (ids_in_use w)) = None.
Proof.
  destruct (documents w !! (db, coll, fresh (ids_in_use w))) eqn:E; [|reflexivity].
  exfalso. apply (unique_not_in_use w), (document_in_use w db coll). by rewrite E.
Qed.

(** The id of a stored file is not the one [ID.unique()] gives. *)
Lemma stored_not_unique (w : World) (b i : string) :
  is_Some (files w !! (b, i)) → i ≠ fresh (ids_in_use w).
Proof. intros H ->. by apply (unique_not_in_use w), (file_in_use w b). Qed.

(** ** Calls to the service *)

Section Remote.

Context {A : Type} (c : Call) (effect : World → option (A * World)) (w : World).

Lemma remote_fulfilled (a : A) (w2 : World) :
  coming w = Fulfil → effect (called c w) = Some (a, w2) →
  remote c effect w = (Return (Some a), w2).
Proof. intros Hf He. unfold remote. by rewrite Hf, He. Qed.

Lemma remote_refused :
  coming w = Fulfil → effect (called c w) = None →
  remote c effect w = (Throw (AppwriteException c), called c w).
Proof. intros Hf He. unfold remote. by rewrite Hf, He. Qed.

Lemma remote_falsy :
  coming w = Falsy → remote c effect w = (Return None, called c w).
Proof. intros Hf. unfold remote. by rewrite Hf. Qed.

Lemma remote_rejected :
  coming w = Reject →
  remote c effect w = (Throw (AppwriteException c), called c w).
Proof. intros Hf. unfold remote. by rewrite Hf. Qed.

End Remote.

Lemma bind_run {A B : Type} (m : Async A) (k : A → Async B) (w : World) :
  (m ≫= k) w =
  match m w with
  | (Return a, w') => k a w'
  | (Throw e, w') => (Throw e, w')
  end.
Proof. reflexivity. Qed.

Lemma try_catch_settles {A : Type} (body : Async A) (handler : Err → Async A) :
  (∀ e, settles (handler e)) → settles (try_catch body handler).
Proof.
  intros Hh w. unfold try_catch.
  destruct (body w) as [[a|e] w']; [by eexists _, _|]. apply Hh.
Qed.

Lemma log_and_return_undefined_settles {A : Type} (e : Err) :
  settles (@log_and_return_undefined A e).
Proof. intros w. by eexists _, _. Qed.

Create HintDb settle.
#[local] Hint Resolve try_catch_settles log_and_return_undefined_settles : settle.

(** Unfolds the plumbing of promises (bind, return, throw, try and catch)
    and reduces; the calls of the service and the helpers stay folded. *)
Ltac async :=
  cbv beta iota zeta delta
    [mbind Async_bind mret Async_ret try_catch throw log_and_return_undefined
     console_log fst snd file_id List.length Nat.ltb Nat.leb andb orb negb
     from_option id].

(** ** The file helpers, case by case *)

Section Helpers.

Variable appwriteConfig : Config.

Abbreviation bucket := (storageId appwriteConfig).

Lemma uploadFile_fulfilled (f : File) (w : World) :
  coming w = Fulfil →
  uploadFile appwriteConfig (Some f) w =
  (Return (Some (mkUploadedFile (fresh (ids_in_use w)))),
   set_files (<[(bucket, fresh (ids_in_use w)) := f]> (files w))
     (called (storage_createFile bucket (fresh (ids_in_use w)) (Some f)) w)).
Proof.
  intros Hf. unfold uploadFile, try_catch, ID_unique, storage.createFile.
  rewrite !bind_run.
  erewrite remote_fulfilled; [reflexivity|exact Hf|].
  cbn [files called]. by rewrite unique_no_file.
Qed.

Lemma uploadFile_falsy (file : option File) (w : World) :
  coming w = Falsy →
  uploadFile appwriteConfig file w =
  (Return None, called (storage_createFile bucket (fresh (ids_in_use w)) file) w).
Proof.
  intros Hf. unfold uploadFile, try_catch, ID_unique, storage.createFile.
  rewrite !bind_run. by rewrite remote_falsy.
Qed.

Lemma uploadFile_rejected (file : option File) (w : World) :
  coming w = Reject →
  uploadFile appwriteConfig file w =
  (Return None,
   logged (AppwriteException (storage_createFile bucket (fresh (ids_in_use w)) file))
     (called (storage_createFile bucket (fresh (ids_in_use w)) file) w)).
Proof.
  intros Hf. unfold uploadFile, try_catch, ID_unique, storage.createFile.
  rewrite !bind_run. by rewrite remote_rejected.
Qed.

Lemma getFilePreview_fulfilled (fileId : string) (w : World) :
  coming w = Fulfil →
  getFilePreview appwriteConfig fileId w =
  (Return (Some (Preview bucket fileId 2000 2000 "top" 100)),
   called (storage_getFilePreview bucket fileId 2000 2000 "top" 100) w).
Proof.
  intros Hf. unfold getFilePreview, try_catch, storage.getFilePreview.
  rewrite bind_run. by erewrite remote_fulfilled.
Qed.

Lemma getFilePreview_falsy (fileId : string) (w : World) :
  coming w = Falsy →
  getFilePreview appwriteConfig fileId w =
  (Return None,
   logged ErrorCtor (called (storage_getFilePreview bucket fileId 2000 2000 "top" 100) w)).
Proof.
  intros Hf. unfold getFilePreview, try_catch, storage.getFilePreview.
  rewrite bind_run. by rewrite remote_falsy.
Qed.

Lemma getFilePreview_rejected (fileId : string) (w : World) :
  coming w = Reject →
  getFilePreview appwriteConfig fileId w =
  (Return None,
   logged (AppwriteException (storage_getFilePreview bucket fileId 2000 2000 "top" 100))
     (called (storage_getFilePreview bucket fileId 2000 2000 "top" 100) w)).
Proof.
  intros Hf. unfold getFilePreview, try_catch, storage.getFilePreview.
  rewrite bind_run. by rewrite remote_rejected.
Qed.

(** The preview fails: the helper returns [undefined], and only the trace,
    the fates and the console have changed. *)
Lemma getFilePreview_failed (fileId : string) (w : World) :
  coming w ≠ Fulfil →
  ∃ e, getFilePreview appwriteConfig fileId w =
       (Return None,
        logged e (called (storage_getFilePreview bucket fileId 2000 2000 "top" 100) w)).
Proof.
  intros Hf. destruct (coming w) eqn:E; [done| |].
  - eexists. by apply getFilePreview_falsy.
  - eexists. by apply getFilePreview_rejected.
Qed.

Lemma deleteFile_fulfilled (fileId : string) (w : World) :
  coming w = Fulfil → is_Some (files w !! (bucket, fileId)) →
  deleteFile appwriteConfig fileId w =
  (Return (Some (mkStatus "ok")),
   set_files (delete (bucket, fileId) (files w))
     (called (storage_deleteFile bucket fileId) w)).
Proof.
  intros Hf [f Hs]. unfold deleteFile, try_catch, storage.deleteFile.
  rewrite bind_run.
  erewrite remote_fulfilled; [reflexivity|exact Hf|].
  cbn [files called]. by rewrite Hs.
Qed.

(** Whatever becomes of the deletion, [deleteFile] returns, the call is
    issued, and nothing but the file named can have left the bucket. *)
Lemma deleteFile_frame (fileId : string) (w : World) :
  ∃ r w', deleteFile appwriteConfig fileId w = (Return r, w')
    ∧ accounts w' = accounts w ∧ session w' = session w
    ∧ documents w' = documents w
    ∧ calls w' = calls w ++ [storage_deleteFile bucket fileId]
    ∧ fates w' = tail (fates w)
    ∧ (files w' = files w ∨ files w' = delete (bucket, fileId) (files w)).
Proof.
  unfold deleteFile, try_catch, storage.deleteFile. rewrite bind_run.
  unfold remote. destruct (coming w).
  - cbn [files called]. destruct (files w !! (bucket, fileId)).
    + eexists _, _. split; [reflexivity|]. simpl. tauto.
    + eexists _, _. split; [reflexivity|]. simpl. tauto.
  - eexists _, _. split; [reflexivity|]. simpl. tauto.
  - eexists _, _. split; [reflexivity|]. simpl. tauto.
Qed.

End Helpers.

(** ** Calls to the document store, case by case *)

Section Documents.

Context (db coll id : string) (data : gmap string fval) (w : World).

Lemma updateDocument_fulfilled (old : gmap string fval) :
  coming w = Fulfil → documents w !! (db, coll, id) = Some old →
  databases.updateDocument db coll id data w =
  (Return (Some (mkDocument id (data ∪ old))),
   set_documents (<[(db, coll, id) := data ∪ old]> (documents w))
     (called (databases_updateDocument db coll id data) w)).
Proof.
  intros Hf Hd. unfold databases.updateDocument.
  erewrite remote_fulfilled; [reflexivity|exact Hf|].
  cbn [documents called]. by rewrite Hd.
Qed.

Lemma updateDocument_missing :
  coming w = Fulfil → documents w !! (db, coll, id) = None →
  databases.updateDocument db coll id data w =
  (Throw (AppwriteException (databases_updateDocument db coll id data)),
   called (databases_updateDocument db coll id data) w).
Proof.
  intros Hf Hd. unfold databases.updateDocument.
  rewrite remote_refused; [reflexivity|exact Hf|].
  cbn [documents called]. by rewrite Hd.
Qed.

Lemma updateDocument_falsy :
  coming w = Falsy →
  databases.updateDocument db coll id data w =
  (Return None, called (databases_updateDocument db coll id data) w).
Proof. apply remote_falsy. Qed.

Lemma updateDocument_rejected :
  coming w = Reject →
  databases.updateDocument db coll id data w =
  (Throw (AppwriteException (databases_updateDocument db coll id data)),
   called (databases_updateDocument db coll id data) w).
Proof. apply remote_rejected. Qed.

Lemma createDocument_fulfilled :
  coming w = Fulfil → documents w !! (db, coll, id) = None →
  databases.createDocument db coll id data w =
  (Return (Some (mkDocument id data)),
   set_documents (<[(db, coll, id) := data]> (documents w))
     (called (databases_createDocument db coll id data) w)).
Proof.
  intros Hf Hd. unfold databases.createDocument.
  erewrite remote_fulfilled; [reflexivity|exact Hf|].
  cbn [documents called]. by rewrite Hd.
Qed.

Lemma createDocument_falsy :
  coming w = Falsy →
  databases.createDocument db coll id data w =
  (Return None, called (databases_createDocument db coll id data) w).
Proof. apply remote_falsy. Qed.

Lemma createDocument_rejected :
  coming w = Reject →
  databases.createDocument db coll id data w =
  (Throw (AppwriteException (databases_createDocument db coll id data)),
   called (databases_createDocument db coll id data) w).
Proof. apply remote_rejected. Qed.

End Documents.

(** ** Listings: which queries are issued *)

Section Listings.

Variable appwriteConfig : Config.
Variable select : list Query.t → list Document → list Document.

Lemma listDocuments_calls (db coll : string) (queries : list Query.t) (w : World) :
  ∀ r w', databases.listDocuments select db coll queries w = (r, w') →
  calls w' = calls w ++ [databases_listDocuments db coll queries].
Proof.
  intros r w'. unfold databases.listDocuments, remote.
  destruct (coming w); intros [= <- <-]; reflexivity.
Qed.

Lemma getUsers_calls (limit : option Z) (w : World) :
  calls (getUsers appwriteConfig select limit w).2 =
  calls w ++
  [databases_listDocuments (databaseId appwriteConfig) (userCollectionId appwriteConfig)
     (if Js.truthy_number limit
      then [Query.orderDesc "$createdAt"; Query.limit (default 0%Z limit)]
      else [Query.orderDesc "$createdAt"])].
Proof.
  unfold getUsers, try_catch. rewrite bind_run.
  destruct (Js.truthy_number limit); cbn [app];
    match goal with
    | |- context [databases.listDocuments ?s ?d ?c ?q w] =>
        pose proof (listDocuments_calls d c q w) as H;
        destruct (databases.listDocuments s d c q w) as [[[r|]|e] w']
    end; exact (H _ _ eq_refl).
Qed.

Lemma getInfinitePosts_calls (pageParam : Z) (w : World) :
  calls (getInfinitePosts appwriteConfig select pageParam w).2 =
  calls w ++
  [databases_listDocuments (databaseId appwriteConfig) (postCollectionId appwriteConfig)
     (if Js.truthy_number (Some pageParam)
      then [Query.orderDesc "$updatedAt"; Query.limit 9;
            Query.cursorAfter (pretty pageParam)]
      else [Query.orderDesc "$updatedAt"; Query.limit 9])].
Proof.
  unfold getInfinitePosts, try_catch. rewrite bind_run.
  destruct (Js.truthy_number (Some pageParam)); cbn [app];
    match goal with
    | |- context [databases.listDocuments ?s ?d ?c ?q w] =>
        pose proof (listDocuments_calls d c q w) as H;
        destruct (databases.listDocuments s d c q w) as [[[r|]|e] w']
    end; exact (H _ _ eq_refl).
Qed.

(** A limit other than zero is sent. *)
Lemma getUsers_limit_sent (n : Z) (w : World) :
  n ≠ 0%Z →
  calls (getUsers appwriteConfig select (Some n) w).2 =
  calls w ++
  [databases_listDocuments (databaseId appwriteConfig) (userCollectionId appwriteConfig)
     [Query.orderDesc "$createdAt"; Query.limit n]].
Proof.
  intros Hn. rewrite getUsers_calls. cbn [Js.truthy_number default].
  by apply Z.eqb_neq in Hn as ->.
Qed.

(** C10. Zero counts as absent: [getUsers] called with the limit 0 issues
    the query of a call without limit (the order alone, no page size), and
    [getInfinitePosts] called with the page parameter 0 issues its query
    without cursor (the first page). *)
Theorem zero_is_treated_as_absent (w : World) :
  getUsers appwriteConfig select (Some 0%Z) w = getUsers appwriteConfig select None w
  ∧ calls (getUsers appwriteConfig select (Some 0%Z) w).2 =
    calls w ++
    [databases_listDocuments (databaseId appwriteConfig)
       (userCollectionId appwriteConfig) [Query.orderDesc "$createdAt"]]
  ∧ calls (getInfinitePosts appwriteConfig select 0%Z w).2 =
    calls w ++
    [databases_listDocuments (databaseId appwriteConfig)
       (postCollectionId appwriteConfig)
       [Query.orderDesc "$updatedAt"; Query.limit 9]].
Proof.
  split; [reflexivity|]. split.
  - apply getUsers_calls.
  - apply getInfinitePosts_calls.
Qed.

End Listings.

Example getInfinitePosts_second_page :
  calls (getInfinitePosts Sample.config Sample.select 7%Z (Sample.world [])).2 =
  [databases_listDocuments "db" "posts"
     [Query.orderDesc "$updatedAt"; Query.limit 9; Query.cursorAfter "7"]].
Proof. vm_compute. reflexivity. Qed.

(** ** The fields [updateUser] writes *)

(** C4. At the update of the profile of [u1] with the bio "hi there", the
    object sent to the store has the keys [name], [bi0], [imageUrl] and
    [imageId]: the bio is written under [bi0], no field [bio] is sent, and
    the stored [bio] keeps its former value. *)
Theorem updateUser_writes_bi0 :
  let w' := (updateUser Sample.config Sample.userWithoutImage (Sample.world [])).2 in
  let data := obj [("name", Some (FStr "Ada L.")); ("bi0", Some (FStr "hi there"));
                   ("imageUrl", Some (FUrl (Href "https://img/face")));
                   ("imageId", Some (FStr "face"))] in
  calls w' = [databases_updateDocument "db" "users" "u1" data]
  ∧ dom data = {[ "name"; "bi0"; "imageUrl"; "imageId" ]}
  ∧ data !! "bio" = None
  ∧ (documents w' !! ("db", "users", "u1")) ≫= (.!! "bio") = Some (FStr "hello")
  ∧ (documents w' !! ("db", "users", "u1")) ≫= (.!! "bi0") = Some (FStr "hi there").
Proof. cbv zeta. repeat split; vm_compute; reflexivity. Qed.

(** Whatever the user and the world, when no image is supplied the object
    sent has no key [bio]. *)
Lemma updateUser_never_sends_bio (appwriteConfig : Config) (user : IUpdateUser.t)
    (w : World) :
  IUpdateUser.file user = [] →
  ∃ data,
    calls (updateUser appwriteConfig user w).2 =
      calls w ++ [databases_updateDocument (databaseId appwriteConfig)
                    (userCollectionId appwriteConfig) (IUpdateUser.userId user) data]
    ∧ data !! "bio" = None
    ∧ data !! "bi0" = Some (FStr (IUpdateUser.bio user)).
Proof.
  intros Hfile. eexists. split.
  { unfold updateUser. rewrite Hfile.
    async. unfold databases.updateDocument, remote.
    destruct (coming w); [|reflexivity|reflexivity].
    cbn [documents called].
    destruct (documents w !! _); [|reflexivity].
    destruct (Js.truthy _); reflexivity. }
  split; vm_compute; reflexivity.
Qed.

(** ** Deleting a post *)

Section DeletePost.

Variable appwriteConfig : Config.

(** C6. [deletePost] with the post id or the image id absent (undefined, or
    the empty string, which is as falsy) returns at once: no call is issued
    and the world is as before. Otherwise the first call deletes the
    document; the deletion of the file is issued after it, and only when the
    document has been deleted. When the deletion of the document fails no
    other call is issued, and documents and files are as before. *)
Theorem deletePost_no_op_or_document_first (postId imageId : option string)
    (w : World) :
  (postId = None ∨ imageId = None ∨ postId = Some "" ∨ imageId = Some "" →
     deletePost appwriteConfig postId imageId w = (Return None, w))
  ∧ (∀ p i, postId = Some p → imageId = Some i → p ≠ "" → i ≠ "" →
       let key := (databaseId appwriteConfig, postCollectionId appwriteConfig, p) in
       let del := databases_deleteDocument (databaseId appwriteConfig)
                    (postCollectionId appwriteConfig) p in
       let r := deletePost appwriteConfig postId imageId w in
       (coming w = Fulfil ∧ is_Some (documents w !! key)
          ∧ r.1 = Return (Some (mkStatus "Ok"))
          ∧ documents r.2 = delete key (documents w)
          ∧ calls r.2 =
              calls w ++ [del; storage_deleteFile (storageId appwriteConfig) i])
       ∨ ((coming w ≠ Fulfil ∨ documents w !! key = None)
          ∧ r.1 = Return None
          ∧ documents r.2 = documents w ∧ files r.2 = files w
          ∧ calls r.2 = calls w ++ [del])).
Proof.
  split.
  - intros H. unfold deletePost.
    destruct postId as [[|c p]|], imageId as [[|c' i]|]; try reflexivity;
      exfalso; destruct H as [H|[H|[H|H]]]; discriminate.
  - intros p i -> -> Hp Hi key del r. subst r.
    destruct p as [|c p]; [done|]. destruct i as [|c' i]; [done|].
    unfold deletePost. cbn [Js.truthy]. async.
    unfold databases.deleteDocument, remote. subst key del.
    destruct (coming w) eqn:Hf.
    + cbn [documents called].
      destruct (documents w !! _) eqn:Hd.
      * left. cbv beta iota.
        match goal with
        | |- context [deleteFile ?c ?f ?w0] =>
            destruct (deleteFile_frame c f w0)
              as (s & w' & -> & _ & _ & Hdocs & Hcalls & _ & _)
        end.
        cbn [fst snd]. rewrite Hdocs, Hcalls.
        cbn [documents calls set_documents called].
        rewrite <- app_assoc. by eauto.
      * right. cbn [fst snd documents files calls logged called].
        split; [by right|]. done.
    + right. cbn [fst snd documents files calls logged called].
      split; [by left|]. done.
    + right. cbn [fst snd documents files calls logged called].
      split; [by left|]. done.
Qed.

End DeletePost.

(** ** Error propagation *)

Lemma mret_settles {A : Type} (a : A) : settles (mret a : Async A).
Proof. intros w. by eexists _, _. Qed.

Lemma caught_settles (error : Err) :
  settles (console_log error ≫= λ _, mret (Caught error)).
Proof. intros w. by eexists _, _. Qed.

#[local] Hint Resolve mret_settles caught_settles : settle.

Section Propagation.

Variable appwriteConfig : Config.
Variable select : list Query.t → list Document → list Document.

Lemma getPostById_outcome (p : string) (w : World) :
  p ≠ "" →
  ∃ r w', getPostById appwriteConfig (Some p) w = (Return r, w')
    ∧ (is_Some r ↔
       coming w = Fulfil
       ∧ is_Some (documents w !! (databaseId appwriteConfig,
                                   postCollectionId appwriteConfig, p))).
Proof.
  intros Hp. destruct p as [|c p]; [done|].
  unfold getPostById. cbn [Js.truthy]. async.
  unfold databases.getDocument, remote.
  destruct (coming w) eqn:Hf.
  - cbn [documents called].
    destruct (documents w !! _) eqn:Hd; eexists _, _; (split; [reflexivity|]).
    + split; eauto.
    + split; [by intros [? [=]]|]. by intros [_ [? [=]]].
  - eexists _, _. split; [reflexivity|].
    split; [by intros [? [=]]|]. by intros [[=] _].
  - eexists _, _. split; [reflexivity|].
    split; [by intros [? [=]]|]. by intros [[=] _].
Qed.

Lemma saveUserToDB_outcome (user : IUserDoc.t) (w : World) :
  ∃ r w', saveUserToDB appwriteConfig user w = (Return r, w')
    ∧ (is_Some r ↔ coming w = Fulfil).
Proof.
  unfold saveUserToDB, ID_unique. async.
  unfold databases.createDocument, remote.
  destruct (coming w) eqn:Hf.
  - cbn [documents called]. rewrite unique_no_document.
    eexists _, _. split; [reflexivity|]. split; eauto.
  - eexists _, _. split; [reflexivity|].
    split; [by intros [? [=]]|]. by intros [=].
  - eexists _, _. split; [reflexivity|].
    split; [by intros [? [=]]|]. by intros [=].
Qed.

Lemma createUserAccount_outcome (user : INewUser.t) (w : World) :
  ∃ r w', createUserAccount appwriteConfig user w = (Return r, w')
    ∧ (signed_up r = true ↔
       fate 0 w = Fulfil ∧ fate 1 w ≠ Reject ∧ fate 2 w = Fulfil).
Proof.
  unfold createUserAccount, ID_unique. async.
  unfold account.create, avatars.getInitials, remote.
  change (coming w) with (fate 0 w).
  destruct (fate 0 w) eqn:H0.
  - match goal with
    | |- context [coming ?w1] => change (coming w1) with (fate 1 w)
    end.
    destruct (fate 1 w) eqn:H1.
    + match goal with
      | |- context [saveUserToDB _ ?u ?w2] =>
          destruct (saveUserToDB_outcome u w2) as (r & w' & -> & Hr);
          change (coming w2) with (fate 2 w) in Hr
      end.
      eexists _, _. split; [reflexivity|]. cbn [signed_up].
      destruct r as [d|].
      * split; [intros _|done]. split; [done|]. split; [done|].
        apply Hr. eauto.
      * split; [done|]. intros (_ & _ & H2). apply Hr in H2 as [? [=]].
    + match goal with
      | |- context [saveUserToDB _ ?u ?w2] =>
          destruct (saveUserToDB_outcome u w2) as (r & w' & -> & Hr);
          change (coming w2) with (fate 2 w) in Hr
      end.
      eexists _, _. split; [reflexivity|]. cbn [signed_up].
      destruct r as [d|].
      * split; [intros _|done]. split; [done|]. split; [done|].
        apply Hr. eauto.
      * split; [done|]. intros (_ & _ & H2). apply Hr in H2 as [? [=]].
    + eexists _, _. split; [reflexivity|]. cbn [signed_up].
      split; [done|]. by intros (_ & ? & _).
  - eexists _, _. split; [reflexivity|]. cbn [signed_up].
    split; [done|]. by intros ([=] & _).
  - eexists _, _. split; [reflexivity|]. cbn [signed_up].
    split; [done|]. by intros ([=] & _).
Qed.

End Propagation.

(** Every workflow whose body stands in a [try] settles. *)
Ltac settle_workflow :=
  intros; repeat (apply try_catch_settles; intros);
  auto using mret_settles, caught_settles, log_and_return_undefined_settles.

Section Settle.

Variable appwriteConfig : Config.
Variable select : list Query.t → list Document → list Document.

Lemma createUserAccount_settles user : settles (createUserAccount appwriteConfig user).
Proof. unfold createUserAccount. settle_workflow. Qed.

Lemma saveUserToDB_settles user : settles (saveUserToDB appwriteConfig user).
Proof. unfold saveUserToDB. settle_workflow. Qed.

Lemma signInAccount_settles email password : settles (signInAccount email password).
Proof. unfold signInAccount. settle_workflow. Qed.

Lemma getCurrentUser_settles : settles (getCurrentUser appwriteConfig select).
Proof. unfold getCurrentUser. settle_workflow. Qed.

Lemma signOutAccount_settles : settles signOutAccount.
Proof. unfold signOutAccount. settle_workflow. Qed.

Lemma createPost_settles post : settles (createPost appwriteConfig post).
Proof. unfold createPost. settle_workflow. Qed.

Lemma uploadFile_settles file : settles (uploadFile appwriteConfig file).
Proof. unfold uploadFile. settle_workflow. Qed.

Lemma getFilePreview_settles fileId : settles (getFilePreview appwriteConfig fileId).
Proof. unfold getFilePreview. settle_workflow. Qed.

Lemma deleteFile_settles fileId : settles (deleteFile appwriteConfig fileId).
Proof. unfold deleteFile. settle_workflow. Qed.

Lemma likePost_settles postId likesArray :
  settles (likePost appwriteConfig postId likesArray).
Proof. unfold likePost. settle_workflow. Qed.

Lemma savePost_settles userId postId : settles (savePost appwriteConfig userId postId).
Proof. unfold savePost. settle_workflow. Qed.

Lemma deleteSavedPost_settles savedRecordId :
  settles (deleteSavedPost appwriteConfig savedRecordId).
Proof. unfold deleteSavedPost. settle_workflow. Qed.

Lemma getPostById_settles postId :
  Js.truthy postId = true → settles (getPostById appwriteConfig postId).
Proof. intros H. unfold getPostById. rewrite H. settle_workflow. Qed.

Lemma updatePost_settles post : settles (updatePost appwriteConfig post).
Proof. unfold updatePost. settle_workflow. Qed.

Lemma deletePost_settles postId imageId :
  settles (deletePost appwriteConfig postId imageId).
Proof. unfold deletePost. destruct (_ || _); settle_workflow. Qed.

Lemma getInfinitePosts_settles pageParam :
  settles (getInfinitePosts appwriteConfig select pageParam).
Proof. unfold getInfinitePosts. settle_workflow. Qed.

Lemma searchPosts_settles searchTerm :
  settles (searchPosts appwriteConfig select searchTerm).
Proof. unfold searchPosts. settle_workflow. Qed.

Lemma getUsers_settles limit : settles (getUsers appwriteConfig select limit).
Proof. unfold getUsers. settle_workflow. Qed.

Lemma updateUser_settles user : settles (updateUser appwriteConfig user).
Proof. unfold updateUser. settle_workflow. Qed.

Lemma getUserById_settles userId : settles (getUserById appwriteConfig userId).
Proof. unfold getUserById. settle_workflow. Qed.

Lemma getRecentPosts_settles : settles (getRecentPosts appwriteConfig select).
Proof. unfold getRecentPosts. settle_workflow. Qed.

Lemma getUserPosts_settles userId : settles (getUserPosts appwriteConfig select userId).
Proof. unfold getUserPosts. destruct (negb _); settle_workflow. Qed.

Lemma getAccount_settles : settles getAccount.
Proof. unfold getAccount. settle_workflow. Qed.

(** C8, as the code has it. Every workflow other than [getPostById] returns
    to its caller on every input, whatever the service does to its calls:
    what a step throws is caught inside the workflow. [getPostById] does so
    when its post id is present and not empty; it then returns a document
    exactly when the fetch is fulfilled and the document exists, and
    [undefined] otherwise. [createUserAccount] returns a user document
    exactly when the creation of the account and that of the profile
    document are fulfilled and the avatar call is not rejected; otherwise it
    returns [undefined] or the error it caught, never a document. *)
Theorem failures_are_caught_inside_the_workflow :
  ((∀ user, settles (createUserAccount appwriteConfig user))
   ∧ (∀ user, settles (saveUserToDB appwriteConfig user))
   ∧ (∀ email password, settles (signInAccount email password))
   ∧ settles (getCurrentUser appwriteConfig select)
   ∧ settles signOutAccount
   ∧ (∀ post, settles (createPost appwriteConfig post))
   ∧ (∀ file, settles (uploadFile appwriteConfig file))
   ∧ (∀ fileId, settles (getFilePreview appwriteConfig fileId))
   ∧ (∀ fileId, settles (deleteFile appwriteConfig fileId))
   ∧ (∀ postId likesArray, settles (likePost appwriteConfig postId likesArray))
   ∧ (∀ userId postId, settles (savePost appwriteConfig userId postId))
   ∧ (∀ savedRecordId, settles (deleteSavedPost appwriteConfig savedRecordId))
   ∧ (∀ post, settles (updatePost appwriteConfig post))
   ∧ (∀ postId imageId, settles (deletePost appwriteConfig postId imageId))
   ∧ (∀ pageParam, settles (getInfinitePosts appwriteConfig select pageParam))
   ∧ (∀ searchTerm, settles (searchPosts appwriteConfig select searchTerm))
   ∧ (∀ limit, settles (getUsers appwriteConfig select limit))
   ∧ (∀ user, settles (updateUser appwriteConfig user))
   ∧ (∀ userId, settles (getUserById appwriteConfig userId))
   ∧ settles (getRecentPosts appwriteConfig select)
   ∧ (∀ userId, settles (getUserPosts appwriteConfig select userId))
   ∧ settles getAccount)
  ∧ (∀ postId, Js.truthy postId = true → settles (getPostById appwriteConfig postId))
  ∧ (∀ p w, p ≠ "" →
       ∃ r w', getPostById appwriteConfig (Some p) w = (Return r, w')
         ∧ (is_Some r ↔
            coming w = Fulfil
            ∧ is_Some (documents w !! (databaseId appwriteConfig,
                                        postCollectionId appwriteConfig, p))))
  ∧ (∀ user w,
       ∃ r w', createUserAccount appwriteConfig user w = (Return r, w')
         ∧ (signed_up r = true ↔
            fate 0 w = Fulfil ∧ fate 1 w ≠ Reject ∧ fate 2 w = Fulfil)).
Proof.
  split; [|split; [|split]].
  - repeat split;
      auto using createUserAccount_settles, saveUserToDB_settles,
        signInAccount_settles, getCurrentUser_settles, signOutAccount_settles,
        createPost_settles, uploadFile_settles, getFilePreview_settles,
        deleteFile_settles, likePost_settles, savePost_settles,
        deleteSavedPost_settles, updatePost_settles, deletePost_settles,
        getInfinitePosts_settles, searchPosts_settles, getUsers_settles,
        updateUser_settles, getUserById_settles, getRecentPosts_settles,
        getUserPosts_settles, getAccount_settles.
  - apply getPostById_settles.
  - apply getPostById_outcome.
  - apply createUserAccount_outcome.
Qed.

End Settle.

(** With the post id absent the guard of [getPostById], which stands before
    the [try], throws to the caller, and no call is issued. *)
Lemma getPostById_absent_throws (appwriteConfig : Config) (w : World) :
  getPostById appwriteConfig None w = (Throw ErrorCtor, w)
  ∧ getPostById appwriteConfig (Some "") w = (Throw ErrorCtor, w).
Proof. split; reflexivity. Qed.

(** ** The image reference of the data sent *)

Lemma image_ref_post_data (caption : string) (url : URL) (imageId : string)
    (location : option string) (tags : list string) :
  image_ref (obj [("caption", Some (FStr caption)); ("imageUrl", Some (FUrl url));
                  ("imageId", Some (FStr imageId)); ("location", FStr <$> location);
                  ("tags", Some (FList tags))])
  = (Some (FUrl url), Some (FStr imageId)).
Proof. destruct location; reflexivity. Qed.

Lemma image_ref_user_data (name bio : string) (url : URL) (imageId : string) :
  image_ref (obj [("name", Some (FStr name)); ("bi0", Some (FStr bio));
                  ("imageUrl", Some (FUrl url)); ("imageId", Some (FStr imageId))])
  = (Some (FUrl url), Some (FStr imageId)).
Proof. reflexivity. Qed.

(** The fields sent replace the stored ones. *)
Lemma image_ref_union (data old : gmap string fval) (url imageId : fval) :
  image_ref data = (Some url, Some imageId) →
  image_ref (data ∪ old) = (Some url, Some imageId).
Proof.
  unfold image_ref. intros [= Hu Hi].
  by rewrite (lookup_union_Some_l _ _ _ _ Hu), (lookup_union_Some_l _ _ _ _ Hi).
Qed.

Lemma image_ref_imageId (d : gmap string fval) (url imageId : fval) :
  image_ref d = (Some url, Some imageId) → d !! "imageId" = Some imageId.
Proof. unfold image_ref. by intros [= _ ->]. Qed.

(** ** Updates without a new image *)

Section UpdateWithoutImage.

Variable appwriteConfig : Config.

Lemma updatePost_without_image (post : IUpdatePost.t) (w : World) :
  IUpdatePost.file post = [] →
  let key := (databaseId appwriteConfig, postCollectionId appwriteConfig,
              IUpdatePost.postId post) in
  let supplied := (Some (FUrl (IUpdatePost.imageUrl post)),
                   Some (FStr (IUpdatePost.imageId post))) in
  let w' := (updatePost appwriteConfig post w).2 in
  files w' = files w
  ∧ (∃ data, image_ref data = supplied
       ∧ calls w' = calls w ++
           [databases_updateDocument (databaseId appwriteConfig)
              (postCollectionId appwriteConfig) (IUpdatePost.postId post) data])
  ∧ (∀ k, k ≠ key → documents w' !! k = documents w !! k)
  ∧ (∀ d, documents w !! key = Some d → image_ref d = supplied →
       ∃ d', documents w' !! key = Some d' ∧ image_ref d' = image_ref d).
Proof.
  intros Hfile key supplied w'. subst w'.
  unfold updatePost. rewrite Hfile. async.
  pose proof (image_ref_post_data (IUpdatePost.caption post)
    (IUpdatePost.imageUrl post) (IUpdatePost.imageId post)
    (IUpdatePost.location post) (normalizeTags (IUpdatePost.tags post))) as Hdata.
  destruct (coming w) eqn:Hf.
  - destruct (documents w !! key) as [old|] eqn:Hd.
    + erewrite updateDocument_fulfilled by eassumption. cbv beta iota.
      cbn [files documents calls set_documents called].
      split; [done|]. split; [eauto|]. split.
      * intros k Hk. by rewrite lookup_insert_ne.
      * intros d [= <-] Hold. eexists. rewrite lookup_insert_eq. split; [done|].
        rewrite Hold. by apply image_ref_union.
    + rewrite updateDocument_missing by assumption. cbv beta iota.
      cbn [files documents calls logged called].
      split; [done|]. split; [eauto|]. split; [done|].
      intros d Hd'. fold key in Hd. congruence.
  - rewrite updateDocument_falsy by assumption. cbv beta iota.
    cbn [files documents calls logged called].
    split; [done|]. split; [eauto|]. split; [done|]. eauto.
  - rewrite updateDocument_rejected by assumption. cbv beta iota.
    cbn [files documents calls logged called].
    split; [done|]. split; [eauto|]. split; [done|]. eauto.
Qed.

Lemma updateUser_without_image (user : IUpdateUser.t) (w : World) :
  IUpdateUser.file user = [] →
  let key := (databaseId appwriteConfig, userCollectionId appwriteConfig,
              IUpdateUser.userId user) in
  let supplied := (Some (FUrl (IUpdateUser.imageUrl user)),
                   Some (FStr (IUpdateUser.imageId user))) in
  let w' := (updateUser appwriteConfig user w).2 in
  files w' = files w
  ∧ (∃ data, image_ref data = supplied
       ∧ calls w' = calls w ++
           [databases_updateDocument (databaseId appwriteConfig)
              (userCollectionId appwriteConfig) (IUpdateUser.userId user) data])
  ∧ (∀ k, k ≠ key → documents w' !! k = documents w !! k)
  ∧ (∀ d, documents w !! key = Some d → image_ref d = supplied →
       ∃ d', documents w' !! key = Some d' ∧ image_ref d' = image_ref d).
Proof.
  intros Hfile key supplied w'. subst w'.
  unfold updateUser. rewrite Hfile. async.
  pose proof (image_ref_user_data (IUpdateUser.name user) (IUpdateUser.bio user)
    (IUpdateUser.imageUrl user) (IUpdateUser.imageId user)) as Hdata.
  destruct (coming w) eqn:Hf.
  - destruct (documents w !! key) as [old|] eqn:Hd.
    + erewrite updateDocument_fulfilled by eassumption. cbv beta iota.
      destruct (Js.truthy _); cbv beta iota;
        cbn [files documents calls set_documents called].
      all: split; [done|]; split; [eauto|]; split;
        [ intros k Hk; by rewrite lookup_insert_ne
        | intros d [= <-] Hold; eexists; rewrite lookup_insert_eq;
          split; [done|]; rewrite Hold; by apply image_ref_union ].
    + rewrite updateDocument_missing by assumption. cbv beta iota.
      cbn [files documents calls logged called].
      split; [done|]. split; [eauto|]. split; [done|].
      intros d Hd'. fold key in Hd. congruence.
  - rewrite updateDocument_falsy by assumption. cbv beta iota.
    cbn [files documents calls logged called].
    split; [done|]. split; [eauto|]. split; [done|]. eauto.
  - rewrite updateDocument_rejected by assumption. cbv beta iota.
    cbn [files documents calls logged called].
    split; [done|]. split; [eauto|]. split; [done|]. eauto.
Qed.

(** C7, as the code has it. An update without a new image (the list of
    files is empty) uploads and deletes no file: the only call issued is
    the update of the document, the bucket is as before, and the image
    reference sent is the one the caller passed as the existing one. When
    the document stored, before the call, the reference the caller passed,
    the image reference it stores after the call is the one it stored
    before; no other document changes. *)
Theorem update_without_image_keeps_reference :
  (∀ post w,
     IUpdatePost.file post = [] →
     let key := (databaseId appwriteConfig, postCollectionId appwriteConfig,
                 IUpdatePost.postId post) in
     let supplied := (Some (FUrl (IUpdatePost.imageUrl post)),
                      Some (FStr (IUpdatePost.imageId post))) in
     let w' := (updatePost appwriteConfig post w).2 in
     files w' = files w
     ∧ (∃ data, image_ref data = supplied
          ∧ calls w' = calls w ++
              [databases_updateDocument (databaseId appwriteConfig)
                 (postCollectionId appwriteConfig) (IUpdatePost.postId post) data])
     ∧ (∀ k, k ≠ key → documents w' !! k = documents w !! k)
     ∧ (∀ d, documents w !! key = Some d → image_ref d = supplied →
          ∃ d', documents w' !! key = Some d' ∧ image_ref d' = image_ref d))
  ∧ (∀ user w,
       IUpdateUser.file user = [] →
       let key := (databaseId appwriteConfig, userCollectionId appwriteConfig,
                   IUpdateUser.userId user) in
       let supplied := (Some (FUrl (IUpdateUser.imageUrl user)),
                        Some (FStr (IUpdateUser.imageId user))) in
       let w' := (updateUser appwriteConfig user w).2 in
       files w' = files w
       ∧ (∃ data, image_ref data = supplied
            ∧ calls w' = calls w ++
                [databases_updateDocument (databaseId appwriteConfig)
                   (userCollectionId appwriteConfig) (IUpdateUser.userId user) data])
       ∧ (∀ k, k ≠ key → documents w' !! k = documents w !! k)
       ∧ (∀ d, documents w !! key = Some d → image_ref d = supplied →
            ∃ d', documents w' !! key = Some d' ∧ image_ref d' = image_ref d)).
Proof.
  split.
  - intros post w. apply updatePost_without_image.
  - intros user w. apply updateUser_without_image.
Qed.

End UpdateWithoutImage.

(** ** Updates with a new image *)

Section UpdateWithImage.

Variable appwriteConfig : Config.

(** The update of the document fails after the upload: the document is as
    before and no file but the new one can have left or joined the bucket.
    When the store answers the update with no document, the deletion of the
    new file is issued, and once it is fulfilled the bucket is as before. *)
Lemma updatePost_update_fails (post : IUpdatePost.t) (w : World) (f : File)
    (fs : list File) :
  IUpdatePost.file post = f :: fs →
  fate 0 w = Fulfil → fate 1 w = Fulfil →
  fate 2 w ≠ Fulfil
  ∨ documents w !! (databaseId appwriteConfig, postCollectionId appwriteConfig,
                    IUpdatePost.postId post) = None →
  let new := fresh (ids_in_use w) in
  let r := updatePost appwriteConfig post w in
  r.1 = Return None
  ∧ documents r.2 = documents w
  ∧ (∀ k, k ≠ (storageId appwriteConfig, new) → files r.2 !! k = files w !! k)
  ∧ (fate 2 w = Falsy →
       (∃ data,
          calls r.2 = calls w ++
            [storage_createFile (storageId appwriteConfig) new (Some f);
             storage_getFilePreview (storageId appwriteConfig) new 2000 2000 "top" 100;
             databases_updateDocument (databaseId appwriteConfig)
               (postCollectionId appwriteConfig) (IUpdatePost.postId post) data;
             storage_deleteFile (storageId appwriteConfig) new])
       ∧ (fate 3 w = Fulfil → files r.2 = files w)).
Proof.
  intros Hfile H0 H1 Hfail new r. subst r.
  unfold updatePost. rewrite Hfile. change ((f :: fs) !! 0%nat) with (Some f). async.
  rewrite uploadFile_fulfilled by exact H0. async.
  rewrite getFilePreview_fulfilled by exact H1. async.
  fold new.
  destruct (fate 2 w) eqn:H2.
  - destruct Hfail as [|Hmiss]; [done|].
    rewrite updateDocument_missing by (exact H2 || exact Hmiss). async.
    cbn [documents files calls logged called set_files].
    split; [done|]. split; [done|]. split; [|done].
    intros k Hk. by rewrite lookup_insert_ne.
  - rewrite updateDocument_falsy by exact H2. async.
    match goal with
    | |- context [deleteFile ?c ?i ?w3] =>
        pose proof (deleteFile_frame c i w3) as (s & w' & Hrun & _ & _ & Hdocs & Hcalls & _ & Hfiles);
        pose proof (deleteFile_fulfilled c i w3) as Hdel;
        destruct (deleteFile c i w3) as [o w'']
    end.
    injection Hrun as -> ->. cbn [fst snd logged documents files calls].
    cbn [documents files calls called set_files] in Hdocs, Hcalls, Hfiles, Hdel.
    split; [done|]. split; [done|]. split; [|intros _; split].
    + intros k Hk. destruct Hfiles as [-> | ->].
      * by rewrite lookup_insert_ne.
      * rewrite lookup_delete_ne by done. by rewrite lookup_insert_ne.
    + eexists. rewrite Hcalls. rewrite <- !app_assoc. reflexivity.
    + intros H3. specialize (Hdel H3). rewrite lookup_insert_eq in Hdel.
      specialize (Hdel (ltac:(eauto))). injection Hdel as _ ->.
      cbn [files set_files]. apply delete_insert_id, unique_no_file.
  - rewrite updateDocument_rejected by exact H2. async.
    cbn [documents files calls logged called set_files].
    split; [done|]. split; [done|]. split; [|done].
    intros k Hk. by rewrite lookup_insert_ne.
Qed.

Lemma updateUser_update_fails (user : IUpdateUser.t) (w : World) (f : File)
    (fs : list File) :
  IUpdateUser.file user = f :: fs →
  fate 0 w = Fulfil → fate 1 w = Fulfil →
  fate 2 w ≠ Fulfil
  ∨ documents w !! (databaseId appwriteConfig, userCollectionId appwriteConfig,
                    IUpdateUser.userId user) = None →
  let new := fresh (ids_in_use w) in
  let r := updateUser appwriteConfig user w in
  r.1 = Return None
  ∧ documents r.2 = documents w
  ∧ (∀ k, k ≠ (storageId appwriteConfig, new) → files r.2 !! k = files w !! k)
  ∧ (fate 2 w = Falsy →
       (∃ data,
          calls r.2 = calls w ++
            [storage_createFile (storageId appwriteConfig) new (Some f);
             storage_getFilePreview (storageId appwriteConfig) new 2000 2000 "top" 100;
             databases_updateDocument (databaseId appwriteConfig)
               (userCollectionId appwriteConfig) (IUpdateUser.userId user) data;
             storage_deleteFile (storageId appwriteConfig) new])
       ∧ (fate 3 w = Fulfil → files r.2 = files w)).
Proof.
  intros Hfile H0 H1 Hfail new r. subst r.
  unfold updateUser. rewrite Hfile. change ((f :: fs) !! 0%nat) with (Some f). async.
  rewrite uploadFile_fulfilled by exact H0. async.
  rewrite getFilePreview_fulfilled by exact H1. async.
  fold new.
  destruct (fate 2 w) eqn:H2.
  - destruct Hfail as [|Hmiss]; [done|].
    rewrite updateDocument_missing by (exact H2 || exact Hmiss). async.
    cbn [documents files calls logged called set_files].
    split; [done|]. split; [done|]. split; [|done].
    intros k Hk. by rewrite lookup_insert_ne.
  - rewrite updateDocument_falsy by exact H2. async.
    match goal with
    | |- context [deleteFile ?c ?i ?w3] =>
        pose proof (deleteFile_frame c i w3) as (s & w' & Hrun & _ & _ & Hdocs & Hcalls & _ & Hfiles);
        pose proof (deleteFile_fulfilled c i w3) as Hdel;
        destruct (deleteFile c i w3) as [o w'']
    end.
    injection Hrun as -> ->. cbn [fst snd logged documents files calls].
    cbn [documents files calls called set_files] in Hdocs, Hcalls, Hfiles, Hdel.
    split; [done|]. split; [done|]. split; [|intros _; split].
    + intros k Hk. destruct Hfiles as [-> | ->].
      * by rewrite lookup_insert_ne.
      * rewrite lookup_delete_ne by done. by rewrite lookup_insert_ne.
    + eexists. rewrite Hcalls. rewrite <- !app_assoc. reflexivity.
    + intros H3. specialize (Hdel H3). rewrite lookup_insert_eq in Hdel.
      specialize (Hdel (ltac:(eauto))). injection Hdel as _ ->.
      cbn [files set_files]. apply delete_insert_id, unique_no_file.
  - rewrite updateDocument_rejected by exact H2. async.
    cbn [documents files calls logged called set_files].
    split; [done|]. split; [done|]. split; [|done].
    intros k Hk. by rewrite lookup_insert_ne.
Qed.

(** What a failed update keeps. An update with a new image whose document
    update fails (the store answers with no document, rejects the call, or
    has no such document) returns [undefined], leaves every document as it
    was, so that the [imageId] stored is the original one, and takes no file
    other than the new one from the bucket: the old file is untouched. When
    the store answers the update with no document, the deletion of the
    newly uploaded file is issued, and once that deletion is fulfilled the
    bucket is as before the attempt. *)
Theorem failed_update_keeps_document_and_old_file :
  (∀ post w f fs,
     IUpdatePost.file post = f :: fs →
     fate 0 w = Fulfil → fate 1 w = Fulfil →
     fate 2 w ≠ Fulfil
     ∨ documents w !! (databaseId appwriteConfig, postCollectionId appwriteConfig,
                       IUpdatePost.postId post) = None →
     let new := fresh (ids_in_use w) in
     let r := updatePost appwriteConfig post w in
     r.1 = Return None
     ∧ documents r.2 = documents w
     ∧ (∀ k, k ≠ (storageId appwriteConfig, new) → files r.2 !! k = files w !! k)
     ∧ (fate 2 w = Falsy →
          (∃ data,
             calls r.2 = calls w ++
               [storage_createFile (storageId appwriteConfig) new (Some f);
                storage_getFilePreview (storageId appwriteConfig) new
                  2000 2000 "top" 100;
                databases_updateDocument (databaseId appwriteConfig)
                  (postCollectionId appwriteConfig) (IUpdatePost.postId post) data;
                storage_deleteFile (storageId appwriteConfig) new])
          ∧ (fate 3 w = Fulfil → files r.2 = files w)))
  ∧ (∀ user w f fs,
       IUpdateUser.file user = f :: fs →
       fate 0 w = Fulfil → fate 1 w = Fulfil →
       fate 2 w ≠ Fulfil
       ∨ documents w !! (databaseId appwriteConfig, userCollectionId appwriteConfig,
                         IUpdateUser.userId user) = None →
       let new := fresh (ids_in_use w) in
       let r := updateUser appwriteConfig user w in
       r.1 = Return None
       ∧ documents r.2 = documents w
       ∧ (∀ k, k ≠ (storageId appwriteConfig, new) → files r.2 !! k = files w !! k)
       ∧ (fate 2 w = Falsy →
            (∃ data,
               calls r.2 = calls w ++
                 [storage_createFile (storageId appwriteConfig) new (Some f);
                  storage_getFilePreview (storageId appwriteConfig) new
                    2000 2000 "top" 100;
                  databases_updateDocument (databaseId appwriteConfig)
                    (userCollectionId appwriteConfig) (IUpdateUser.userId user) data;
                  storage_deleteFile (storageId appwriteConfig) new])
            ∧ (fate 3 w = Fulfil → files r.2 = files w))).
Proof.
  split.
  - intros post w f fs. apply updatePost_update_fails.
  - intros user w f fs. apply updateUser_update_fails.
Qed.

(** The store rejects the update of the document, or has no such document:
    control passes to the handler of the workflow, which only logs. No
    deletion is issued and the new file stays. *)
Lemma updatePost_update_rejected (post : IUpdatePost.t) (w : World) (f : File)
    (fs : list File) :
  IUpdatePost.file post = f :: fs →
  fate 0 w = Fulfil → fate 1 w = Fulfil →
  fate 2 w = Reject
  ∨ (fate 2 w = Fulfil
     ∧ documents w !! (databaseId appwriteConfig, postCollectionId appwriteConfig,
                       IUpdatePost.postId post) = None) →
  let new := fresh (ids_in_use w) in
  let r := updatePost appwriteConfig post w in
  r.1 = Return None
  ∧ documents r.2 = documents w
  ∧ files w !! (storageId appwriteConfig, new) = None
  ∧ files r.2 = <[(storageId appwriteConfig, new) := f]> (files w)
  ∧ (∃ data,
       calls r.2 = calls w ++
         [storage_createFile (storageId appwriteConfig) new (Some f);
          storage_getFilePreview (storageId appwriteConfig) new 2000 2000 "top" 100;
          databases_updateDocument (databaseId appwriteConfig)
            (postCollectionId appwriteConfig) (IUpdatePost.postId post) data]).
Proof.
  intros Hfile H0 H1 Hfail new r. subst r.
  unfold updatePost. rewrite Hfile. change ((f :: fs) !! 0%nat) with (Some f). async.
  rewrite uploadFile_fulfilled by exact H0. async.
  rewrite getFilePreview_fulfilled by exact H1. async.
  fold new.
  destruct Hfail as [H2|[H2 Hmiss]].
  - rewrite updateDocument_rejected by exact H2. async.
    cbn [documents files calls logged called set_files].
    split; [done|]. split; [done|]. split; [apply unique_no_file|]. split; [done|].
    eexists. rewrite <- !app_assoc. reflexivity.
  - rewrite updateDocument_missing by (exact H2 || exact Hmiss). async.
    cbn [documents files calls logged called set_files].
    split; [done|]. split; [done|]. split; [apply unique_no_file|]. split; [done|].
    eexists. rewrite <- !app_assoc. reflexivity.
Qed.

Lemma updateUser_update_rejected (user : IUpdateUser.t) (w : World) (f : File)
    (fs : list File) :
  IUpdateUser.file user = f :: fs →
  fate 0 w = Fulfil → fate 1 w = Fulfil →
  fate 2 w = Reject
  ∨ (fate 2 w = Fulfil
     ∧ documents w !! (databaseId appwriteConfig, userCollectionId appwriteConfig,
                       IUpdateUser.userId user) = None) →
  let new := fresh (ids_in_use w) in
  let r := updateUser appwriteConfig user w in
  r.1 = Return None
  ∧ documents r.2 = documents w
  ∧ files w !! (storageId appwriteConfig, new) = None
  ∧ files r.2 = <[(storageId appwriteConfig, new) := f]> (files w)
  ∧ (∃ data,
       calls r.2 = calls w ++
         [storage_createFile (storageId appwriteConfig) new (Some f);
          storage_getFilePreview (storageId appwriteConfig) new 2000 2000 "top" 100;
          databases_updateDocument (databaseId appwriteConfig)
            (userCollectionId appwriteConfig) (IUpdateUser.userId user) data]).
Proof.
  intros Hfile H0 H1 Hfail new r. subst r.
  unfold updateUser. rewrite Hfile. change ((f :: fs) !! 0%nat) with (Some f). async.
  rewrite uploadFile_fulfilled by exact H0. async.
  rewrite getFilePreview_fulfilled by exact H1. async.
  fold new.
  destruct Hfail as [H2|[H2 Hmiss]].
  - rewrite updateDocument_rejected by exact H2. async.
    cbn [documents files calls logged called set_files].
    split; [done|]. split; [done|]. split; [apply unique_no_file|]. split; [done|].
    eexists. rewrite <- !app_assoc. reflexivity.
  - rewrite updateDocument_missing by (exact H2 || exact Hmiss). async.
    cbn [documents files calls logged called set_files].
    split; [done|]. split; [done|]. split; [apply unique_no_file|]. split; [done|].
    eexists. rewrite <- !app_assoc. reflexivity.
Qed.

(** C1. The cleanup of the newly uploaded file is missed when the document
    store rejects the update. The workflows issue the deletion of the new
    file in the branch that tests the answer of the store, which is reached
    only when the store answers with no document. When the store rejects
    the update of the document, or has no such document, the workflow
    returns [undefined], the documents are as before and no stored file has
    left, but the calls are the upload, the preview and the update alone:
    no deletion is issued, and the newly uploaded file stays in the bucket. *)
Theorem rejected_update_leaves_new_file :
  (∀ post w f fs,
     IUpdatePost.file post = f :: fs →
     fate 0 w = Fulfil → fate 1 w = Fulfil →
     fate 2 w = Reject
     ∨ (fate 2 w = Fulfil
        ∧ documents w !! (databaseId appwriteConfig, postCollectionId appwriteConfig,
                          IUpdatePost.postId post) = None) →
     let new := fresh (ids_in_use w) in
     let r := updatePost appwriteConfig post w in
     r.1 = Return None
     ∧ documents r.2 = documents w
     ∧ files w !! (storageId appwriteConfig, new) = None
     ∧ files r.2 = <[(storageId appwriteConfig, new) := f]> (files w)
     ∧ (∃ data,
          calls r.2 = calls w ++
            [storage_createFile (storageId appwriteConfig) new (Some f);
             storage_getFilePreview (storageId appwriteConfig) new 2000 2000 "top" 100;
             databases_updateDocument (databaseId appwriteConfig)
               (postCollectionId appwriteConfig) (IUpdatePost.postId post) data]))
  ∧ (∀ user w f fs,
       IUpdateUser.file user = f :: fs →
       fate 0 w = Fulfil → fate 1 w = Fulfil →
       fate 2 w = Reject
       ∨ (fate 2 w = Fulfil
          ∧ documents w !! (databaseId appwriteConfig, userCollectionId appwriteConfig,
                            IUpdateUser.userId user) = None) →
       let new := fresh (ids_in_use w) in
       let r := updateUser appwriteConfig user w in
       r.1 = Return None
       ∧ documents r.2 = documents w
       ∧ files w !! (storageId appwriteConfig, new) = None
       ∧ files r.2 = <[(storageId appwriteConfig, new) := f]> (files w)
       ∧ (∃ data,
            calls r.2 = calls w ++
              [storage_createFile (storageId appwriteConfig) new (Some f);
               storage_getFilePreview (storageId appwriteConfig) new 2000 2000 "top" 100;
               databases_updateDocument (databaseId appwriteConfig)
                 (userCollectionId appwriteConfig) (IUpdateUser.userId user) data])).
Proof.
  split.
  - intros post w f fs. apply updatePost_update_rejected.
  - intros user w f fs. apply updateUser_update_rejected.
Qed.

(** The update of the document succeeds after the upload: the document now
    refers to the new file, which is in the bucket, and the last call issued
    is the deletion of the old file. *)
Lemma updatePost_update_succeeds (post : IUpdatePost.t) (w : World) (f : File)
    (fs : list File) (d : gmap string fval) :
  IUpdatePost.file post = f :: fs →
  fate 0 w = Fulfil → fate 1 w = Fulfil → fate 2 w = Fulfil →
  documents w !! (databaseId appwriteConfig, postCollectionId appwriteConfig,
                  IUpdatePost.postId post) = Some d →
  is_Some (files w !! (storageId appwriteConfig, IUpdatePost.imageId post)) →
  let key := (databaseId appwriteConfig, postCollectionId appwriteConfig,
              IUpdatePost.postId post) in
  let old := IUpdatePost.imageId post in
  let new := fresh (ids_in_use w) in
  let r := updatePost appwriteConfig post w in
  new ≠ old
  ∧ files r.2 !! (storageId appwriteConfig, new) = Some f
  ∧ (∃ d', r.1 = Return (Some (mkDocument (IUpdatePost.postId post) d'))
       ∧ documents r.2 = <[key := d']> (documents w)
       ∧ d' !! "imageId" = Some (FStr new))
  ∧ (∃ data,
       calls r.2 = calls w ++
         [storage_createFile (storageId appwriteConfig) new (Some f);
          storage_getFilePreview (storageId appwriteConfig) new 2000 2000 "top" 100;
          databases_updateDocument (databaseId appwriteConfig)
            (postCollectionId appwriteConfig) (IUpdatePost.postId post) data;
          storage_deleteFile (storageId appwriteConfig) old])
  ∧ (fate 3 w = Fulfil →
       files r.2 = delete (storageId appwriteConfig, old)
                     (<[(storageId appwriteConfig, new) := f]> (files w))).
Proof.
  intros Hfile H0 H1 H2 Hd Hold key old new r. subst r.
  assert (Hne : new ≠ old).
  { intros E. exact (stored_not_unique w _ _ Hold (eq_sym E)). }
  unfold updatePost. rewrite Hfile. change ((f :: fs) !! 0%nat) with (Some f). async.
  rewrite uploadFile_fulfilled by exact H0. async.
  rewrite getFilePreview_fulfilled by exact H1. async.
  fold new. fold old.
  erewrite updateDocument_fulfilled by (exact H2 || exact Hd). async.
  match goal with
  | |- context [deleteFile ?c ?i ?w3] =>
      pose proof (deleteFile_frame c i w3) as (s & w' & Hrun & _ & _ & Hdocs & Hcalls & _ & Hfiles);
      pose proof (deleteFile_fulfilled c i w3) as Hdel;
      destruct (deleteFile c i w3) as [o w'']
  end.
  injection Hrun as -> ->. cbn [fst snd].
  cbn [documents files calls called set_files set_documents] in Hdocs, Hcalls, Hfiles, Hdel.
  split; [exact Hne|]. split; [|split; [|split]].
  - destruct Hfiles as [-> | ->].
    + by rewrite lookup_insert_eq.
    + rewrite lookup_delete_ne by congruence. by rewrite lookup_insert_eq.
  - eexists. split; [reflexivity|]. split; [exact Hdocs|].
    apply lookup_union_Some_l.
    eapply image_ref_imageId, image_ref_post_data.
  - eexists. rewrite Hcalls. rewrite <- !app_assoc. reflexivity.
  - intros H3. specialize (Hdel H3).
    rewrite lookup_insert_ne in Hdel by congruence.
    specialize (Hdel Hold). by injection Hdel as _ ->.
Qed.

Lemma updateUser_update_succeeds (user : IUpdateUser.t) (w : World) (f : File)
    (fs : list File) (d : gmap string fval) :
  IUpdateUser.file user = f :: fs →
  fate 0 w = Fulfil → fate 1 w = Fulfil → fate 2 w = Fulfil →
  documents w !! (databaseId appwriteConfig, userCollectionId appwriteConfig,
                  IUpdateUser.userId user) = Some d →
  IUpdateUser.imageId user ≠ "" →
  is_Some (files w !! (storageId appwriteConfig, IUpdateUser.imageId user)) →
  let key := (databaseId appwriteConfig, userCollectionId appwriteConfig,
              IUpdateUser.userId user) in
  let old := IUpdateUser.imageId user in
  let new := fresh (ids_in_use w) in
  let r := updateUser appwriteConfig user w in
  new ≠ old
  ∧ files r.2 !! (storageId appwriteConfig, new) = Some f
  ∧ (∃ d', r.1 = Return (Some (mkDocument (IUpdateUser.userId user) d'))
       ∧ documents r.2 = <[key := d']> (documents w)
       ∧ d' !! "imageId" = Some (FStr new))
  ∧ (∃ data,
       calls r.2 = calls w ++
         [storage_createFile (storageId appwriteConfig) new (Some f);
          storage_getFilePreview (storageId appwriteConfig) new 2000 2000 "top" 100;
          databases_updateDocument (databaseId appwriteConfig)
            (userCollectionId appwriteConfig) (IUpdateUser.userId user) data;
          storage_deleteFile (storageId appwriteConfig) old])
  ∧ (fate 3 w = Fulfil →
       files r.2 = delete (storageId appwriteConfig, old)
                     (<[(storageId appwriteConfig, new) := f]> (files w))).
Proof.
  intros Hfile H0 H1 H2 Hd Hid Hold key old new r. subst r.
  assert (Hne : new ≠ old).
  { intros E. exact (stored_not_unique w _ _ Hold (eq_sym E)). }
  assert (Ht : Js.truthy (Some (IUpdateUser.imageId user)) = true).
  { destruct (IUpdateUser.imageId user); [done|reflexivity]. }
  unfold updateUser. rewrite Hfile, Ht.
  change ((f :: fs) !! 0%nat) with (Some f). async.
  rewrite uploadFile_fulfilled by exact H0. async.
  rewrite getFilePreview_fulfilled by exact H1. async.
  fold new. fold old.
  erewrite updateDocument_fulfilled by (exact H2 || exact Hd). async.
  match goal with
  | |- context [deleteFile ?c ?i ?w3] =>
      pose proof (deleteFile_frame c i w3) as (s & w' & Hrun & _ & _ & Hdocs & Hcalls & _ & Hfiles);
      pose proof (deleteFile_fulfilled c i w3) as Hdel;
      destruct (deleteFile c i w3) as [o w'']
  end.
  injection Hrun as -> ->. cbn [fst snd].
  cbn [documents files calls called set_files set_documents] in Hdocs, Hcalls, Hfiles, Hdel.
  split; [exact Hne|]. split; [|split; [|split]].
  - destruct Hfiles as [-> | ->].
    + by rewrite lookup_insert_eq.
    + rewrite lookup_delete_ne by congruence. by rewrite lookup_insert_eq.
  - eexists. split; [reflexivity|]. split; [exact Hdocs|].
    apply lookup_union_Some_l.
    eapply image_ref_imageId, image_ref_user_data.
  - eexists. rewrite Hcalls. rewrite <- !app_assoc. reflexivity.
  - intros H3. specialize (Hdel H3).
    rewrite lookup_insert_ne in Hdel by congruence.
    specialize (Hdel Hold). by injection Hdel as _ ->.
Qed.

(** Once the document refers to the new file, the old file is referred to
    by no document, unless another document referred to it. *)
Lemma old_file_unreferenced (w w' : World) (key : string * string * string)
    (d' : gmap string fval) (old new : string) :
  documents w' = <[key := d']> (documents w) →
  d' !! "imageId" = Some (FStr new) → new ≠ old →
  (∀ k d0, k ≠ key → documents w !! k = Some d0 →
           d0 !! "imageId" ≠ Some (FStr old)) →
  old ∉ referenced w'.
Proof.
  intros Hdocs Hnew Hne Hothers. rewrite elem_of_referenced.
  intros (k & d0 & Hk & Hi). rewrite Hdocs in Hk.
  destruct (decide (k = key)) as [->|Hk'].
  - rewrite lookup_insert_eq in Hk. injection Hk as <-. congruence.
  - rewrite lookup_insert_ne in Hk by done. by apply (Hothers k d0).
Qed.

(** C2, as the code has it. An update with a new image whose document
    update succeeds, the old file being in the bucket, leaves the document
    referring to the new file, which is in the bucket, and issues last the
    deletion of the old file ([updateUser]: when the old image id is not
    empty). No document refers to the old file any more, unless another
    document referred to it; and once the deletion is fulfilled the old file
    is no longer in the bucket. *)
Theorem successful_update_issues_deletion_of_old_file :
  (∀ post w f fs d,
     IUpdatePost.file post = f :: fs →
     fate 0 w = Fulfil → fate 1 w = Fulfil → fate 2 w = Fulfil →
     documents w !! (databaseId appwriteConfig, postCollectionId appwriteConfig,
                     IUpdatePost.postId post) = Some d →
     is_Some (files w !! (storageId appwriteConfig, IUpdatePost.imageId post)) →
     let key := (databaseId appwriteConfig, postCollectionId appwriteConfig,
                 IUpdatePost.postId post) in
     let old := IUpdatePost.imageId post in
     let new := fresh (ids_in_use w) in
     let r := updatePost appwriteConfig post w in
     files r.2 !! (storageId appwriteConfig, new) = Some f
     ∧ (∃ d', r.1 = Return (Some (mkDocument (IUpdatePost.postId post) d'))
          ∧ documents r.2 !! key = Some d'
          ∧ d' !! "imageId" = Some (FStr new) ∧ new ≠ old)
     ∧ (∃ data,
          calls r.2 = calls w ++
            [storage_createFile (storageId appwriteConfig) new (Some f);
             storage_getFilePreview (storageId appwriteConfig) new 2000 2000 "top" 100;
             databases_updateDocument (databaseId appwriteConfig)
               (postCollectionId appwriteConfig) (IUpdatePost.postId post) data;
             storage_deleteFile (storageId appwriteConfig) old])
     ∧ ((∀ k d0, k ≠ key → documents w !! k = Some d0 →
                 d0 !! "imageId" ≠ Some (FStr old)) →
        old ∉ referenced (r.2))
     ∧ (fate 3 w = Fulfil → files r.2 !! (storageId appwriteConfig, old) = None))
  ∧ (∀ user w f fs d,
       IUpdateUser.file user = f :: fs →
       fate 0 w = Fulfil → fate 1 w = Fulfil → fate 2 w = Fulfil →
       documents w !! (databaseId appwriteConfig, userCollectionId appwriteConfig,
                       IUpdateUser.userId user) = Some d →
       IUpdateUser.imageId user ≠ "" →
       is_Some (files w !! (storageId appwriteConfig, IUpdateUser.imageId user)) →
       let key := (databaseId appwriteConfig, userCollectionId appwriteConfig,
                   IUpdateUser.userId user) in
       let old := IUpdateUser.imageId user in
       let new := fresh (ids_in_use w) in
       let r := updateUser appwriteConfig user w in
       files r.2 !! (storageId appwriteConfig, new) = Some f
       ∧ (∃ d', r.1 = Return (Some (mkDocument (IUpdateUser.userId user) d'))
            ∧ documents r.2 !! key = Some d'
            ∧ d' !! "imageId" = Some (FStr new) ∧ new ≠ old)
       ∧ (∃ data,
            calls r.2 = calls w ++
              [storage_createFile (storageId appwriteConfig) new (Some f);
               storage_getFilePreview (storageId appwriteConfig) new
                 2000 2000 "top" 100;
               databases_updateDocument (databaseId appwriteConfig)
                 (userCollectionId appwriteConfig) (IUpdateUser.userId user) data;
               storage_deleteFile (storageId appwriteConfig) old])
       ∧ ((∀ k d0, k ≠ key → documents w !! k = Some d0 →
                   d0 !! "imageId" ≠ Some (FStr old)) →
          old ∉ referenced (r.2))
       ∧ (fate 3 w = Fulfil → files r.2 !! (storageId appwriteConfig, old) = None)).
Proof.
  split.
  - intros post w f fs d Hfile H0 H1 H2 Hd Hold key old new r.
    destruct (updatePost_update_succeeds post w f fs d Hfile H0 H1 H2 Hd Hold)
      as (Hne & Hnew & (d' & Hr & Hdocs & Hid) & Hcalls & Hdel).
    fold key old new r in Hne, Hnew, Hr, Hdocs, Hid, Hcalls, Hdel.
    split; [exact Hnew|]. split; [|split; [exact Hcalls|split]].
    + exists d'. rewrite Hdocs, lookup_insert_eq. done.
    + intros Hothers. by eapply old_file_unreferenced.
    + intros H3. rewrite (Hdel H3). apply lookup_delete_eq.
  - intros user w f fs d Hfile H0 H1 H2 Hd Hid0 Hold key old new r.
    destruct (updateUser_update_succeeds user w f fs d Hfile H0 H1 H2 Hd Hid0 Hold)
      as (Hne & Hnew & (d' & Hr & Hdocs & Hid) & Hcalls & Hdel).
    fold key old new r in Hne, Hnew, Hr, Hdocs, Hid, Hcalls, Hdel.
    split; [exact Hnew|]. split; [|split; [exact Hcalls|split]].
    + exists d'. rewrite Hdocs, lookup_insert_eq. done.
    + intros Hothers. by eapply old_file_unreferenced.
    + intros H3. rewrite (Hdel H3). apply lookup_delete_eq.
Qed.

End UpdateWithImage.

(** ** Creating a post *)

Section CreatePost.

Variable appwriteConfig : Config.

(** Nothing was uploaded: there is nothing to clean up. *)
Lemma createPost_upload_fails (post : INewPost.t) (w : World) :
  fate 0 w ≠ Fulfil →
  let r := createPost appwriteConfig post w in
  r.1 = Return None ∧ files r.2 = files w ∧ documents r.2 = documents w.
Proof.
  intros H0 r. subst r. unfold createPost. async.
  destruct (fate 0 w) eqn:E; [done| |].
  - rewrite uploadFile_falsy by exact E. async. done.
  - rewrite uploadFile_rejected by exact E. async. done.
Qed.

(** The preview fails: the deletion of the file just uploaded is issued. *)
Lemma createPost_preview_fails (post : INewPost.t) (w : World) (f : File)
    (fs : list File) :
  INewPost.file post = f :: fs →
  fate 0 w = Fulfil → fate 1 w ≠ Fulfil →
  let new := fresh (ids_in_use w) in
  let r := createPost appwriteConfig post w in
  r.1 = Return None
  ∧ documents r.2 = documents w
  ∧ calls r.2 = calls w ++
      [storage_createFile (storageId appwriteConfig) new (Some f);
       storage_getFilePreview (storageId appwriteConfig) new 2000 2000 "top" 100;
       storage_deleteFile (storageId appwriteConfig) new]
  ∧ (∀ k, k ≠ (storageId appwriteConfig, new) → files r.2 !! k = files w !! k)
  ∧ (fate 2 w = Fulfil → files r.2 = files w).
Proof.
  intros Hfile H0 H1 new r. subst r.
  unfold createPost. rewrite Hfile. change ((f :: fs) !! 0%nat) with (Some f). async.
  rewrite uploadFile_fulfilled by exact H0. async. fold new.
  match goal with
  | |- context [getFilePreview ?c ?i ?w1] =>
      destruct (getFilePreview_failed c i w1 H1) as [e ->]
  end.
  async.
  match goal with
  | |- context [deleteFile ?c ?i ?w3] =>
      pose proof (deleteFile_frame c i w3) as (s & w' & Hrun & _ & _ & Hdocs & Hcalls & _ & Hfiles);
      pose proof (deleteFile_fulfilled c i w3) as Hdel;
      destruct (deleteFile c i w3) as [o w'']
  end.
  injection Hrun as -> ->. cbn [fst snd logged documents files calls].
  cbn [documents files calls called logged set_files] in Hdocs, Hcalls, Hfiles, Hdel.
  split; [done|]. split; [done|]. split; [|split].
  - rewrite Hcalls. by rewrite <- !app_assoc.
  - intros k Hk. destruct Hfiles as [-> | ->].
    + by rewrite lookup_insert_ne.
    + rewrite lookup_delete_ne by done. by rewrite lookup_insert_ne.
  - intros H2. specialize (Hdel H2). rewrite lookup_insert_eq in Hdel.
    specialize (Hdel (ltac:(eauto))). injection Hdel as _ ->.
    cbn [files set_files]. apply delete_insert_id, unique_no_file.
Qed.

(** The store answers the creation with no document: the deletion of the
    file just uploaded is issued. *)
Lemma createPost_document_refused (post : INewPost.t) (w : World) (f : File)
    (fs : list File) :
  INewPost.file post = f :: fs →
  fate 0 w = Fulfil → fate 1 w = Fulfil → fate 2 w = Falsy →
  let new := fresh (ids_in_use w) in
  let r := createPost appwriteConfig post w in
  r.1 = Return None
  ∧ documents r.2 = documents w
  ∧ (∃ id data,
       calls r.2 = calls w ++
         [storage_createFile (storageId appwriteConfig) new (Some f);
          storage_getFilePreview (storageId appwriteConfig) new 2000 2000 "top" 100;
          databases_createDocument (databaseId appwriteConfig)
            (postCollectionId appwriteConfig) id data;
          storage_deleteFile (storageId appwriteConfig) new])
  ∧ (∀ k, k ≠ (storageId appwriteConfig, new) → files r.2 !! k = files w !! k)
  ∧ (fate 3 w = Fulfil → files r.2 = files w).
Proof.
  intros Hfile H0 H1 H2 new r. subst r.
  unfold createPost, ID_unique. rewrite Hfile.
  change ((f :: fs) !! 0%nat) with (Some f). async.
  rewrite uploadFile_fulfilled by exact H0. async. fold new.
  rewrite getFilePreview_fulfilled by exact H1. async.
  rewrite createDocument_falsy by exact H2. async.
  match goal with
  | |- context [deleteFile ?c ?i ?w3] =>
      pose proof (deleteFile_frame c i w3) as (s & w' & Hrun & _ & _ & Hdocs & Hcalls & _ & Hfiles);
      pose proof (deleteFile_fulfilled c i w3) as Hdel;
      destruct (deleteFile c i w3) as [o w'']
  end.
  injection Hrun as -> ->. cbn [fst snd logged documents files calls].
  cbn [documents files calls called logged set_files] in Hdocs, Hcalls, Hfiles, Hdel.
  split; [done|]. split; [done|]. split; [|split].
  - eexists _, _. rewrite Hcalls. by rewrite <- !app_assoc.
  - intros k Hk. destruct Hfiles as [-> | ->].
    + by rewrite lookup_insert_ne.
    + rewrite lookup_delete_ne by done. by rewrite lookup_insert_ne.
  - intros H3. specialize (Hdel H3). rewrite lookup_insert_eq in Hdel.
    specialize (Hdel (ltac:(eauto))). injection Hdel as _ ->.
    cbn [files set_files]. apply delete_insert_id, unique_no_file.
Qed.

(** Every call is fulfilled: the post is created with the fields of the
    code, and its image is in the bucket. *)
Lemma createPost_succeeds (post : INewPost.t) (w : World) (f : File) (fs : list File) :
  INewPost.file post = f :: fs →
  fate 0 w = Fulfil → fate 1 w = Fulfil → fate 2 w = Fulfil →
  let new := fresh (ids_in_use w) in
  let r := createPost appwriteConfig post w in
  ∃ id,
    r.1 = Return (Some (mkDocument id
      (obj [("creator", Some (FStr (INewPost.userId post)));
            ("caption", Some (FStr (INewPost.caption post)));
            ("imageUrl",
             Some (FUrl (Preview (storageId appwriteConfig) new 2000 2000 "top" 100)));
            ("imageId", Some (FStr new));
            ("location", FStr <$> INewPost.location post);
            ("tags", Some (FList (normalizeTags (INewPost.tags post))))])))
    ∧ (∃ d, r.1 = Return (Some (mkDocument id d))
         ∧ documents r.2 !! (databaseId appwriteConfig,
                             postCollectionId appwriteConfig, id) = Some d)
    ∧ files r.2 !! (storageId appwriteConfig, new) = Some f.
Proof.
  intros Hfile H0 H1 H2 new r. subst r.
  unfold createPost, ID_unique. rewrite Hfile.
  change ((f :: fs) !! 0%nat) with (Some f). async.
  rewrite uploadFile_fulfilled by exact H0. async. fold new.
  rewrite getFilePreview_fulfilled by exact H1. async.
  match goal with
  | |- context [databases.createDocument ?db ?coll (fresh (ids_in_use ?w2)) ?data ?w2'] =>
      rewrite (createDocument_fulfilled db coll (fresh (ids_in_use w2)) data w2' H2
                 (unique_no_document w2 db coll))
  end.
  async. eexists. split; [reflexivity|]. split.
  - eexists. split; [reflexivity|].
    cbn [documents set_documents]. by rewrite lookup_insert_eq.
  - cbn [files set_documents called set_files]. by rewrite lookup_insert_eq.
Qed.

(** The failures [createPost] cleans up after. When the derivation of the
    preview fails, and when the store answers the creation of the document
    with no document, the workflow returns [undefined], no document is
    created, the deletion of the file just uploaded is issued as the last
    call, and no other file leaves or joins the bucket; once that deletion
    is fulfilled the bucket is as before the attempt. When the upload itself
    fails the bucket is as before. *)
Theorem createPost_cleans_up_on_checked_failures :
  (∀ post w,
     fate 0 w ≠ Fulfil →
     let r := createPost appwriteConfig post w in
     r.1 = Return None ∧ files r.2 = files w ∧ documents r.2 = documents w)
  ∧ (∀ post w f fs,
       INewPost.file post = f :: fs →
       fate 0 w = Fulfil → fate 1 w ≠ Fulfil →
       let new := fresh (ids_in_use w) in
       let r := createPost appwriteConfig post w in
       r.1 = Return None
       ∧ documents r.2 = documents w
       ∧ calls r.2 = calls w ++
           [storage_createFile (storageId appwriteConfig) new (Some f);
            storage_getFilePreview (storageId appwriteConfig) new 2000 2000 "top" 100;
            storage_deleteFile (storageId appwriteConfig) new]
       ∧ (∀ k, k ≠ (storageId appwriteConfig, new) → files r.2 !! k = files w !! k)
       ∧ (fate 2 w = Fulfil → files r.2 = files w))
  ∧ (∀ post w f fs,
       INewPost.file post = f :: fs →
       fate 0 w = Fulfil → fate 1 w = Fulfil → fate 2 w = Falsy →
       let new := fresh (ids_in_use w) in
       let r := createPost appwriteConfig post w in
       r.1 = Return None
       ∧ documents r.2 = documents w
       ∧ (∃ id data,
            calls r.2 = calls w ++
              [storage_createFile (storageId appwriteConfig) new (Some f);
               storage_getFilePreview (storageId appwriteConfig) new
                 2000 2000 "top" 100;
               databases_createDocument (databaseId appwriteConfig)
                 (postCollectionId appwriteConfig) id data;
               storage_deleteFile (storageId appwriteConfig) new])
       ∧ (∀ k, k ≠ (storageId appwriteConfig, new) → files r.2 !! k = files w !! k)
       ∧ (fate 3 w = Fulfil → files r.2 = files w)).
Proof.
  split; [|split].
  - intros post w. apply createPost_upload_fails.
  - intros post w f fs. apply createPost_preview_fails.
  - intros post w f fs. apply createPost_document_refused.
Qed.

(** C5. The cleanup of the uploaded file is missed when the document store
    rejects the creation of the post. [createPost] issues the deletion of
    the file just uploaded in the branch that tests the answer of the
    store, which is reached only when the store answers with no document.
    When the store rejects the creation, the workflow returns [undefined],
    no document is created, the calls are the upload, the preview and the
    creation alone, and the uploaded file stays in the bucket although no
    document refers to it: it is orphaned. *)
Theorem rejected_creation_leaves_orphan (post : INewPost.t) (w : World) (f : File)
    (fs : list File) :
  INewPost.file post = f :: fs →
  fate 0 w = Fulfil → fate 1 w = Fulfil → fate 2 w = Reject →
  let new := fresh (ids_in_use w) in
  let r := createPost appwriteConfig post w in
  r.1 = Return None
  ∧ documents r.2 = documents w
  ∧ files w !! (storageId appwriteConfig, new) = None
  ∧ files r.2 = <[(storageId appwriteConfig, new) := f]> (files w)
  ∧ (new ∉ referenced (r.2))
  ∧ (∃ id data,
       calls r.2 = calls w ++
         [storage_createFile (storageId appwriteConfig) new (Some f);
          storage_getFilePreview (storageId appwriteConfig) new 2000 2000 "top" 100;
          databases_createDocument (databaseId appwriteConfig)
            (postCollectionId appwriteConfig) id data]).
Proof.
  intros Hfile H0 H1 H2 new r. subst r.
  unfold createPost, ID_unique. rewrite Hfile.
  change ((f :: fs) !! 0%nat) with (Some f). async.
  rewrite uploadFile_fulfilled by exact H0. async. fold new.
  rewrite getFilePreview_fulfilled by exact H1. async.
  rewrite createDocument_rejected by exact H2. async.
  cbn [documents files calls logged called set_files].
  split; [done|]. split; [done|]. split; [apply unique_no_file|]. split; [done|].
  split.
  - intros Hin. apply (unique_not_in_use w), referenced_in_use.
    apply elem_of_referenced in Hin as (k & d & Hk & Hd).
    apply elem_of_referenced. exists k, d. split; [exact Hk|exact Hd].
  - eexists _, _. rewrite <- !app_assoc. reflexivity.
Qed.

End CreatePost.

(** ** Tags *)

Lemma replace_spaces_filter (s : string) :
  list_ascii_of_string (Js.replace_spaces s)
  = filter (λ c, c ≠ " "%char) (list_ascii_of_string s).
Proof.
  induction s as [|c s IH]; [reflexivity|].
  cbn [Js.replace_spaces list_ascii_of_string].
  destruct (Ascii.eqb_spec c " ") as [->|Hc].
  - rewrite filter_cons_False by (intros H; by apply H). exact IH.
  - rewrite filter_cons_True by exact Hc. cbn [list_ascii_of_string]. by rewrite IH.
Qed.

Section Tags.

Variable appwriteConfig : Config.

(** C3, as the code has it. The tags of [createPost] and [updatePost] are
    the pieces between the commas of the input with every space character
    (U+0020) removed: joined with commas they give that string back, and no
    tag contains a space or a comma. With the tags absent (undefined) the
    tag list is empty; in particular a post created without tags is stored
    with the empty tag list, its image reference and its creator. *)
Theorem normalizeTags_strips_spaces_and_splits_on_commas :
  (∀ s, list_ascii_of_string (Js.join "," (normalizeTags (Some s)))
        = filter (λ c, c ≠ " "%char) (list_ascii_of_string s))
  ∧ (∀ s t, t ∈ normalizeTags (Some s) →
            Js.occurs " " t = false ∧ Js.occurs "," t = false)
  ∧ normalizeTags None = []
  ∧ (∀ post w f fs,
       INewPost.file post = f :: fs → INewPost.tags post = None →
       fate 0 w = Fulfil → fate 1 w = Fulfil → fate 2 w = Fulfil →
       let new := fresh (ids_in_use w) in
       let r := createPost appwriteConfig post w in
       ∃ id d,
         r.1 = Return (Some (mkDocument id d))
         ∧ documents r.2 !! (databaseId appwriteConfig,
                             postCollectionId appwriteConfig, id) = Some d
         ∧ d !! "tags" = Some (FList [])
         ∧ d !! "imageUrl"
           = Some (FUrl (Preview (storageId appwriteConfig) new 2000 2000 "top" 100))
         ∧ d !! "imageId" = Some (FStr new)
         ∧ d !! "creator" = Some (FStr (INewPost.userId post))).
Proof.
  split; [|split; [|split]].
  - intros s. unfold normalizeTags. rewrite join_split. apply replace_spaces_filter.
  - intros s t Ht. unfold normalizeTags in Ht. split.
    + eapply occurs_split_other; [apply occurs_replace_spaces|exact Ht].
    + eapply occurs_split, Ht.
  - reflexivity.
  - intros post w f fs Hfile Htags H0 H1 H2 new r.
    destruct (createPost_succeeds appwriteConfig post w f fs Hfile H0 H1 H2)
      as (id & Hr & (d & Hr' & Hd) & _).
    fold new r in Hr, Hr', Hd. rewrite Hr in Hr'. injection Hr' as <-.
    exists id. eexists. split; [exact Hr|]. split; [exact Hd|].
    rewrite Htags. destruct (INewPost.location post); repeat split; reflexivity.
Qed.

End Tags.

(** * Concrete runs *)

(** ** Runs in which the stated property fails *)

(** C2. The update succeeds and the store rejects the deletion of the old
    file (fourth call): the workflow returns the updated document, and the
    old file is still in the bucket. *)
Lemma successful_update_can_leave_old_file :
  (let r := updatePost Sample.config Sample.postWithImage
              (Sample.world [Fulfil; Fulfil; Fulfil; Reject]) in
   (∃ d, r.1 = Return (Some (mkDocument "p1" d)) ∧ d !! "imageId" = Some (FStr "0"))
   ∧ files r.2 !! ("bucket", "old") = Some "OLD-IMAGE")
  ∧ (let r := updateUser Sample.config Sample.userWithImage
                (Sample.world [Fulfil; Fulfil; Fulfil; Reject]) in
     (∃ d, r.1 = Return (Some (mkDocument "u1" d)) ∧ d !! "imageId" = Some (FStr "0"))
     ∧ files r.2 !! ("bucket", "face") = Some "FACE-IMAGE").
Proof.
  cbv zeta. split; (split; [eexists; split|]); vm_compute; reflexivity.
Qed.

(** C3. The empty string gives the list of one empty tag, not the empty
    list, and so does the post of a form whose tag field was left empty; a
    tab is white space and stays in the tag. *)
Lemma normalizeTags_keeps_empty_tag_and_tabs :
  normalizeTags (Some "") = [""]
  ∧ normalizeTags (Some "") ≠ []
  ∧ (∃ d, (createPost Sample.config Sample.newPostEmptyTags (Sample.world [])).1
          = Return (Some (mkDocument "1" d))
          ∧ d !! "tags" = Some (FList [""]))
  ∧ normalizeTags (Some tabbed) = [tabbed]
  ∧ Js.occurs (ascii_of_nat 9) tabbed = true
  ∧ is_whitespace (ascii_of_nat 9) = true.
Proof.
  split; [reflexivity|]. split; [discriminate|]. split.
  - eexists. split; vm_compute; reflexivity.
  - repeat split; reflexivity.
Qed.

(** C7. The caller passes another image reference than the one stored: the
    update of the post [p1], which stores the image [old], with an empty
    list of files and the image [face] stores the reference to [face]; and
    the update of the profile [u1], which stores [face], with the image
    [old] stores the reference to [old]. The stored image reference after
    the call is not the one before it. *)
Lemma update_without_image_can_change_reference :
  (let post := IUpdatePost.mk "p1" "Sunset" "face" (Href "https://img/face") [] None
                 (Some "sky") in
   let w := Sample.world [] in
   let w' := (updatePost Sample.config post w).2 in
   IUpdatePost.file post = []
   ∧ (image_ref <$> documents w !! ("db", "posts", "p1"))
     = Some (Some (FUrl (Href "https://img/old")), Some (FStr "old"))
   ∧ (image_ref <$> documents w' !! ("db", "posts", "p1"))
     = Some (Some (FUrl (Href "https://img/face")), Some (FStr "face"))
   ∧ (image_ref <$> documents w' !! ("db", "posts", "p1"))
     ≠ (image_ref <$> documents w !! ("db", "posts", "p1")))
  ∧ (let user := IUpdateUser.mk "u1" "Ada" "hello" "old" (Href "https://img/old") [] in
     let w := Sample.world [] in
     let w' := (updateUser Sample.config user w).2 in
     IUpdateUser.file user = []
     ∧ (image_ref <$> documents w !! ("db", "users", "u1"))
       = Some (Some (FUrl (Href "https://img/face")), Some (FStr "face"))
     ∧ (image_ref <$> documents w' !! ("db", "users", "u1"))
       = Some (Some (FUrl (Href "https://img/old")), Some (FStr "old"))
     ∧ (image_ref <$> documents w' !! ("db", "users", "u1"))
       ≠ (image_ref <$> documents w !! ("db", "users", "u1"))).
Proof.
  cbv zeta. split.
  - split; [reflexivity|]. split; [vm_compute; reflexivity|].
    split; [vm_compute; reflexivity|]. vm_compute. discriminate.
  - split; [reflexivity|]. split; [vm_compute; reflexivity|].
    split; [vm_compute; reflexivity|]. vm_compute. discriminate.
Qed.

(** C8. [getPostById] without a post id throws to its caller: it does not
    settle. And [deletePost] returns its success status although the
    deletion of the file was rejected and the file is still in the bucket. *)
Lemma getPostById_rethrows_and_deletePost_hides_failure :
  getPostById Sample.config None (Sample.world []) = (Throw ErrorCtor, Sample.world [])
  ∧ ¬ settles (getPostById Sample.config None)
  ∧ (let r := deletePost Sample.config (Some "p1") (Some "old")
                (Sample.world [Fulfil; Reject]) in
     r.1 = Return (Some (mkStatus "Ok"))
     ∧ files r.2 !! ("bucket", "old") = Some "OLD-IMAGE"
     ∧ documents r.2 !! ("db", "posts", "p1") = None).
Proof.
  split; [reflexivity|]. split.
  - intros H. destruct (H (Sample.world [])) as (a & w' & E). discriminate E.
  - cbv zeta. repeat split; vm_compute; reflexivity.
Qed.

(** ** Runs at which the properties apply *)

(** A failed update at the sample post and the sample user: the store
    answers the update with no document and fulfils the deletion. *)
Lemma failed_update_sample :
  (let r := updatePost Sample.config Sample.postWithImage
              (Sample.world [Fulfil; Fulfil; Falsy]) in
   r.1 = Return None ∧ documents r.2 = Sample.docs ∧ files r.2 = Sample.bucket)
  ∧ (let r := updateUser Sample.config Sample.userWithImage
                (Sample.world [Fulfil; Fulfil; Falsy]) in
     r.1 = Return None ∧ documents r.2 = Sample.docs ∧ files r.2 = Sample.bucket).
Proof.
  split.
  - pose proof (proj1 (failed_update_keeps_document_and_old_file Sample.config)
                  Sample.postWithImage (Sample.world [Fulfil; Fulfil; Falsy])
                  "NEW-IMAGE" []) as H.
    cbv zeta in H.
    destruct H as (H1 & H2 & _ & H4);
      [reflexivity|reflexivity|reflexivity|left; discriminate|].
    destruct (H4 eq_refl) as [_ H5].
    exact (conj H1 (conj H2 (H5 eq_refl))).
  - pose proof (proj2 (failed_update_keeps_document_and_old_file Sample.config)
                  Sample.userWithImage (Sample.world [Fulfil; Fulfil; Falsy])
                  "NEW-FACE" []) as H.
    cbv zeta in H.
    destruct H as (H1 & H2 & _ & H4);
      [reflexivity|reflexivity|reflexivity|left; discriminate|].
    destruct (H4 eq_refl) as [_ H5].
    exact (conj H1 (conj H2 (H5 eq_refl))).
Defined.

(** C1 at the sample post and the sample user: the upload and the preview
    succeed and the store rejects the update of the document. The new file
    [0] stays in the bucket beside [old] and [face], and no deletion is
    among the calls. *)
Lemma rejected_update_sample :
  (let r := updatePost Sample.config Sample.postWithImage
              (Sample.world [Fulfil; Fulfil; Reject]) in
   r.1 = Return None
   ∧ documents r.2 = Sample.docs
   ∧ files r.2 = <[("bucket", "0") := "NEW-IMAGE"]> Sample.bucket
   ∧ calls r.2 =
       [storage_createFile "bucket" "0" (Some "NEW-IMAGE");
        storage_getFilePreview "bucket" "0" 2000 2000 "top" 100;
        databases_updateDocument "db" "posts" "p1"
          (obj [("caption", Some (FStr "Sunset"));
                ("imageUrl", Some (FUrl (Preview "bucket" "0" 2000 2000 "top" 100)));
                ("imageId", Some (FStr "0")); ("tags", Some (FList ["sky"]))])])
  ∧ (let r := updateUser Sample.config Sample.userWithImage
                (Sample.world [Fulfil; Fulfil; Reject]) in
     r.1 = Return None
     ∧ documents r.2 = Sample.docs
     ∧ files r.2 = <[("bucket", "0") := "NEW-FACE"]> Sample.bucket
     ∧ calls r.2 =
         [storage_createFile "bucket" "0" (Some "NEW-FACE");
          storage_getFilePreview "bucket" "0" 2000 2000 "top" 100;
          databases_updateDocument "db" "users" "u1"
            (obj [("name", Some (FStr "Ada")); ("bi0", Some (FStr "hi there"));
                  ("imageUrl", Some (FUrl (Preview "bucket" "0" 2000 2000 "top" 100)));
                  ("imageId", Some (FStr "0"))])]).
Proof.
  split.
  - pose proof (proj1 (rejected_update_leaves_new_file Sample.config)
                  Sample.postWithImage (Sample.world [Fulfil; Fulfil; Reject])
                  "NEW-IMAGE" []) as H.
    cbv zeta in H.
    destruct H as (H1 & H2 & _ & H4 & _);
      [reflexivity|reflexivity|reflexivity|left; reflexivity|].
    split; [exact H1|]. split; [exact H2|]. split; [exact H4|].
    vm_compute. reflexivity.
  - pose proof (proj2 (rejected_update_leaves_new_file Sample.config)
                  Sample.userWithImage (Sample.world [Fulfil; Fulfil; Reject])
                  "NEW-FACE" []) as H.
    cbv zeta in H.
    destruct H as (H1 & H2 & _ & H4 & _);
      [reflexivity|reflexivity|reflexivity|left; reflexivity|].
    split; [exact H1|]. split; [exact H2|]. split; [exact H4|].
    vm_compute. reflexivity.
Defined.

(** In the sample store no document but the post [p1] refers to the file
    [old]. *)
Lemma sample_old_exclusive (k : string * string * string) (d0 : gmap string fval) :
  k ≠ ("db", "posts", "p1") → Sample.docs !! k = Some d0 →
  d0 !! "imageId" ≠ Some (FStr "old").
Proof.
  intros Hk Hd. unfold Sample.docs in Hd.
  rewrite lookup_insert_ne in Hd by congruence.
  destruct (decide (k = ("db", "users", "u1"))) as [->|Hk'].
  - rewrite lookup_insert_eq in Hd. injection Hd as <-. vm_compute. discriminate.
  - rewrite lookup_insert_ne in Hd by congruence. by rewrite lookup_empty in Hd.
Defined.

(** C2 at the sample post: every call is fulfilled. *)
Lemma successful_update_sample :
  let r := updatePost Sample.config Sample.postWithImage (Sample.world []) in
  files r.2 !! ("bucket", "0") = Some "NEW-IMAGE"
  ∧ files r.2 !! ("bucket", "old") = None
  ∧ "old" ∉ referenced (r.2).
Proof.
  pose proof (proj1 (successful_update_issues_deletion_of_old_file Sample.config)
                Sample.postWithImage (Sample.world []) "NEW-IMAGE" []
                (obj [("creator", Some (FStr "u1")); ("caption", Some (FStr "Sunset"));
                      ("imageUrl", Some (FUrl (Href "https://img/old")));
                      ("imageId", Some (FStr "old")); ("tags", Some (FList ["sky"]))]))
    as H.
  cbv zeta in H.
  destruct H as (H1 & _ & _ & H4 & H5);
    [reflexivity|reflexivity|reflexivity|reflexivity|reflexivity
    |eexists; reflexivity|].
  exact (conj H1 (conj (H5 eq_refl) (H4 sample_old_exclusive))).
Defined.

(** C3 at the sample post, which has no tags. *)
Lemma createPost_without_tags_sample :
  ∃ id d,
    (createPost Sample.config Sample.newPost (Sample.world [])).1
    = Return (Some (mkDocument id d))
    ∧ d !! "tags" = Some (FList [])
    ∧ d !! "creator" = Some (FStr "u1").
Proof.
  pose proof (proj2 (proj2 (proj2
                (normalizeTags_strips_spaces_and_splits_on_commas Sample.config)))
                Sample.newPost (Sample.world []) "NEW-IMAGE" []) as H.
  cbv zeta in H.
  destruct H as (id & d & Hr & _ & Ht & _ & _ & Hc);
    [reflexivity|reflexivity|reflexivity|reflexivity|reflexivity|].
  exact (ex_intro _ id (ex_intro _ d (conj Hr (conj Ht Hc)))).
Defined.

(** The clean-up of [createPost] at the sample post: the upload is rejected;
    the preview is rejected; the store answers the creation with no
    document. *)
Lemma createPost_cleans_up_sample :
  files (createPost Sample.config Sample.newPost (Sample.world [Reject])).2
  = Sample.bucket
  ∧ files (createPost Sample.config Sample.newPost (Sample.world [Fulfil; Reject])).2
    = Sample.bucket
  ∧ files (createPost Sample.config Sample.newPost
             (Sample.world [Fulfil; Fulfil; Falsy])).2
    = Sample.bucket.
Proof.
  destruct (createPost_cleans_up_on_checked_failures Sample.config) as (Ha & Hb & Hc).
  split; [|split].
  - pose proof (Ha Sample.newPost (Sample.world [Reject])) as H. cbv zeta in H.
    destruct H as (_ & H & _); [discriminate|]. exact H.
  - pose proof (Hb Sample.newPost (Sample.world [Fulfil; Reject]) "NEW-IMAGE" []) as H.
    cbv zeta in H.
    destruct H as (_ & _ & _ & _ & H); [reflexivity|reflexivity|discriminate|].
    exact (H eq_refl).
  - pose proof (Hc Sample.newPost (Sample.world [Fulfil; Fulfil; Falsy])
                  "NEW-IMAGE" []) as H.
    cbv zeta in H.
    destruct H as (_ & _ & _ & _ & H);
      [reflexivity|reflexivity|reflexivity|reflexivity|].
    exact (H eq_refl).
Defined.

(** C5 at the sample post: the upload and the preview succeed and the store
    rejects the creation of the document. The file [0] stays in the bucket,
    no document refers to it, and no deletion is among the calls. *)
Lemma rejected_creation_sample :
  let r := createPost Sample.config Sample.newPost
             (Sample.world [Fulfil; Fulfil; Reject]) in
  r.1 = Return None
  ∧ documents r.2 = Sample.docs
  ∧ files r.2 = <[("bucket", "0") := "NEW-IMAGE"]> Sample.bucket
  ∧ ("0" ∉ referenced (r.2))
  ∧ calls r.2 =
      [storage_createFile "bucket" "0" (Some "NEW-IMAGE");
       storage_getFilePreview "bucket" "0" 2000 2000 "top" 100;
       databases_createDocument "db" "posts" "1"
         (obj [("creator", Some (FStr "u1")); ("caption", Some (FStr "Hello"));
               ("imageUrl", Some (FUrl (Preview "bucket" "0" 2000 2000 "top" 100)));
               ("imageId", Some (FStr "0")); ("location", Some (FStr "Paris"));
               ("tags", Some (FList []))])].
Proof.
  pose proof (rejected_creation_leaves_orphan Sample.config Sample.newPost
                (Sample.world [Fulfil; Fulfil; Reject]) "NEW-IMAGE" []) as H.
  cbv zeta in H.
  destruct H as (H1 & H2 & _ & H4 & H5 & _);
    [reflexivity|reflexivity|reflexivity|reflexivity|].
  split; [exact H1|]. split; [exact H2|]. split; [exact H4|]. split; [exact H5|].
  vm_compute. reflexivity.
Defined.

(** C6 at the sample post: without post id, and with both ids. *)
Lemma deletePost_sample :
  deletePost Sample.config None (Some "old") (Sample.world [])
  = (Return None, Sample.world [])
  ∧ calls (deletePost Sample.config (Some "p1") (Some "old") (Sample.world [])).2
    = [databases_deleteDocument "db" "posts" "p1"; storage_deleteFile "bucket" "old"].
Proof.
  split.
  - apply (proj1 (deletePost_no_op_or_document_first Sample.config None (Some "old")
                    (Sample.world []))).
    left. reflexivity.
  - pose proof (proj2 (deletePost_no_op_or_document_first Sample.config (Some "p1")
                         (Some "old") (Sample.world [])) "p1" "old") as H.
    cbv zeta in H.
    destruct H as [(_ & _ & _ & _ & H)|([H|H] & _)];
      [reflexivity|reflexivity|discriminate|discriminate| | |].
    + exact H.
    + exfalso. apply H. reflexivity.
    + exfalso. vm_compute in H. discriminate H.
Defined.

(** C7 at the sample post and the sample user. *)
Lemma update_without_image_sample :
  (let w' := (updatePost Sample.config Sample.postWithoutImage (Sample.world [])).2 in
   files w' = Sample.bucket
   ∧ ∃ d', documents w' !! ("db", "posts", "p1") = Some d'
           ∧ image_ref d' = (Some (FUrl (Href "https://img/old")), Some (FStr "old")))
  ∧ (let w' := (updateUser Sample.config Sample.userWithoutImage (Sample.world [])).2 in
     files w' = Sample.bucket
     ∧ ∃ d', documents w' !! ("db", "users", "u1") = Some d'
             ∧ image_ref d' = (Some (FUrl (Href "https://img/face")), Some (FStr "face"))).
Proof.
  destruct (update_without_image_keeps_reference Sample.config) as [Hp Hu].
  split.
  - pose proof (Hp Sample.postWithoutImage (Sample.world [])) as H. cbv zeta in H.
    destruct H as (H1 & _ & _ & H4); [reflexivity|].
    split; [exact H1|].
    exact (H4 _ eq_refl eq_refl).
  - pose proof (Hu Sample.userWithoutImage (Sample.world [])) as H. cbv zeta in H.
    destruct H as (H1 & _ & _ & H4); [reflexivity|].
    split; [exact H1|].
    exact (H4 _ eq_refl eq_refl).
Defined.

(** C8 at the sample post: [getPostById] with the id [p1] settles and
    returns the post. *)
Lemma getPostById_sample :
  settles (getPostById Sample.config (Some "p1"))
  ∧ ∃ r w', getPostById Sample.config (Some "p1") (Sample.world []) = (Return r, w')
            ∧ is_Some r.
Proof.
  destruct (failures_are_caught_inside_the_workflow Sample.config Sample.select)
    as (_ & Hs & Ho & _).
  split.
  - apply Hs. reflexivity.
  - destruct (Ho "p1" (Sample.world [])) as (r & w' & Hr & Hiff); [discriminate|].
    exists r, w'. split; [exact Hr|].
    apply Hiff. split; [reflexivity|]. eexists. reflexivity.
Defined.

(** * Further properties of the workflows *)

(** ** Frames: composing what the steps leave as it was *)

Section Keeps.

Context (R : World → World → Prop) `{!Frame R}.

Lemma keeps_mret {A : Type} (a : A) : keeps R (mret a : Async A).
Proof. intros w. reflexivity. Qed.

Lemma keeps_throw {A : Type} (e : Err) : keeps R (@throw A e).
Proof. intros w. reflexivity. Qed.

Lemma keeps_console_log (e : Err) : keeps R (console_log e).
Proof. intros w. apply frame_logged. Qed.

Lemma keeps_ID_unique : keeps R ID_unique.
Proof. intros w. reflexivity. Qed.

Lemma keeps_bind {A B : Type} (m : Async A) (k : A → Async B) :
  keeps R m → (∀ a, keeps R (k a)) → keeps R (m ≫= k).
Proof.
  intros Hm Hk w. rewrite bind_run. specialize (Hm w).
  destruct (m w) as [[a|e] w1]; cbn [snd] in *; [|exact Hm].
  etrans; [exact Hm|apply Hk].
Qed.

Lemma keeps_try_catch {A : Type} (body : Async A) (handler : Err → Async A) :
  keeps R body → (∀ e, keeps R (handler e)) → keeps R (try_catch body handler).
Proof.
  intros Hb Hh w. unfold try_catch. specialize (Hb w).
  destruct (body w) as [[a|e] w1]; cbn [snd] in *; [exact Hb|].
  etrans; [exact Hb|apply Hh].
Qed.

Lemma keeps_log_and_return_undefined {A : Type} (e : Err) :
  keeps R (@log_and_return_undefined A e).
Proof. intros w. apply frame_logged. Qed.

(** A call keeps [R] when its effect on the service does. *)
Lemma keeps_remote {A : Type} (c : Call) (effect : World → option (A * World)) :
  (∀ w a w2, effect w = Some (a, w2) → R w w2) → keeps R (remote c effect).
Proof.
  intros He w. unfold remote. destruct (coming w); cbn [snd]; try apply frame_called.
  destruct (effect (called c w)) as [[a w2]|] eqn:E; cbn [snd]; [|apply frame_called].
  etrans; [apply frame_called|exact (He _ _ _ E)].
Qed.

End Keeps.

(** Splits a workflow into its steps; what is left are the calls of the
    service and the helper workflows. *)
Ltac keeps_steps :=
  repeat first
    [ match goal with |- Frame _ => apply _ end
    | match goal with |- ∀ _, _ => intro end
    | progress cbv beta iota zeta
    | match goal with
      | |- keeps _ (try_catch _ _) => apply keeps_try_catch
      | |- keeps _ (mbind _ _) => apply keeps_bind
      | |- keeps _ (mret _) => apply keeps_mret
      | |- keeps _ (throw _) => apply keeps_throw
      | |- keeps _ (console_log _) => apply keeps_console_log
      | |- keeps _ (log_and_return_undefined _) => apply keeps_log_and_return_undefined
      | |- keeps _ log_and_return_undefined => apply keeps_log_and_return_undefined
      | |- keeps _ ID_unique => apply keeps_ID_unique
      | |- keeps _ (match ?x with _ => _ end) => destruct x
      end ].

#[global] Instance same_service_frame : Frame same_service.
Proof.
  split.
  - split.
    + intros w. by repeat split.
    + intros w1 w2 w3 (?&?&?&?) (?&?&?&?). repeat split; congruence.
  - intros c w. by repeat split.
  - intros e w. by repeat split.
Qed.

#[global] Instance same_bucket_frame : Frame same_bucket.
Proof.
  split.
  - split; [by intros w|]. intros w1 w2 w3 H1 H2. unfold same_bucket in *. congruence.
  - by intros c w.
  - by intros e w.
Qed.

#[global] Instance same_documents_but_frame key : Frame (same_documents_but key).
Proof.
  split.
  - split; [by intros w k|]. intros w1 w2 w3 H1 H2 k Hk.
    by rewrite (H2 k Hk), (H1 k Hk).
  - by intros c w k.
  - by intros e w k.
Qed.

#[global] Instance same_files_but_frame keys : Frame (same_files_but keys).
Proof.
  split.
  - split; [by intros w k|]. intros w1 w2 w3 H1 H2 k Hk.
    by rewrite (H2 k Hk), (H1 k Hk).
  - by intros c w k.
  - by intros e w k.
Qed.

#[global] Instance documents_grow_frame : Frame documents_grow.
Proof.
  split.
  - split; [intros w; unfold documents_grow; reflexivity|].
    intros w1 w2 w3 H1 H2. unfold documents_grow in *. by etrans.
  - intros c w. unfold documents_grow. reflexivity.
  - intros e w. unfold documents_grow. reflexivity.
Qed.

(** ** Reading workflows change nothing *)

Section ReadOnly.

Variable appwriteConfig : Config.
Variable select : list Query.t → list Document → list Document.

Lemma listDocuments_reads (db coll : string) (queries : list Query.t) :
  keeps same_service (databases.listDocuments select db coll queries).
Proof. apply keeps_remote; [apply _|]. intros w a w2 [= _ <-]. reflexivity. Qed.

Lemma getDocument_reads (db coll id : string) :
  keeps same_service (databases.getDocument db coll id).
Proof.
  apply keeps_remote; [apply _|]. intros w a w2.
  destruct (documents w !! _); intros [= _ <-]. reflexivity.
Qed.

Lemma account_get_reads : keeps same_service account.get.
Proof.
  apply keeps_remote; [apply _|]. intros w a w2.
  destruct (session w); [|done]. destruct (accounts w !! _); intros [= _ <-].
  reflexivity.
Qed.

Lemma storage_getFilePreview_reads (b i : string) (wd h : Z) (g : string) (q : Z) :
  keeps same_service (storage.getFilePreview b i wd h g q).
Proof. apply keeps_remote; [apply _|]. intros w a w2 [= _ <-]. reflexivity. Qed.

Lemma getCurrentUser_reads : keeps same_service (getCurrentUser appwriteConfig select).
Proof.
  unfold getCurrentUser. keeps_steps; auto using account_get_reads, listDocuments_reads.
Qed.

Lemma getPostById_reads postId : keeps same_service (getPostById appwriteConfig postId).
Proof. unfold getPostById. destruct (negb _); keeps_steps; apply getDocument_reads. Qed.

Lemma getInfinitePosts_reads pageParam :
  keeps same_service (getInfinitePosts appwriteConfig select pageParam).
Proof. unfold getInfinitePosts. keeps_steps; apply listDocuments_reads. Qed.

Lemma searchPosts_reads searchTerm :
  keeps same_service (searchPosts appwriteConfig select searchTerm).
Proof. unfold searchPosts. keeps_steps; apply listDocuments_reads. Qed.

Lemma getUsers_reads limit : keeps same_service (getUsers appwriteConfig select limit).
Proof. unfold getUsers. keeps_steps; apply listDocuments_reads. Qed.

Lemma getUserById_reads userId : keeps same_service (getUserById appwriteConfig userId).
Proof. unfold getUserById. keeps_steps; apply getDocument_reads. Qed.

Lemma getRecentPosts_reads : keeps same_service (getRecentPosts appwriteConfig select).
Proof. unfold getRecentPosts. keeps_steps; apply listDocuments_reads. Qed.

Lemma getUserPosts_reads userId :
  keeps same_service (getUserPosts appwriteConfig select userId).
Proof. unfold getUserPosts. destruct (negb _); keeps_steps; apply listDocuments_reads. Qed.

Lemma getAccount_reads : keeps same_service getAccount.
Proof. unfold getAccount. keeps_steps; apply account_get_reads. Qed.

Lemma getFilePreview_reads fileId :
  keeps same_service (getFilePreview appwriteConfig fileId).
Proof. unfold getFilePreview. keeps_steps; apply storage_getFilePreview_reads. Qed.

(** X1. The workflows that read (the current user, a post, a user, the
    listings, the account, the preview of a file) leave accounts, session,
    documents and files as they were, on every input and whatever the
    service answers. *)
Theorem reading_workflows_change_nothing (w : World) :
  same_service w (getCurrentUser appwriteConfig select w).2
  ∧ (∀ postId, same_service w (getPostById appwriteConfig postId w).2)
  ∧ (∀ pageParam, same_service w (getInfinitePosts appwriteConfig select pageParam w).2)
  ∧ (∀ searchTerm, same_service w (searchPosts appwriteConfig select searchTerm w).2)
  ∧ (∀ limit, same_service w (getUsers appwriteConfig select limit w).2)
  ∧ (∀ userId, same_service w (getUserById appwriteConfig userId w).2)
  ∧ same_service w (getRecentPosts appwriteConfig select w).2
  ∧ (∀ userId, same_service w (getUserPosts appwriteConfig select userId w).2)
  ∧ same_service w (getAccount w).2
  ∧ (∀ fileId, same_service w (getFilePreview appwriteConfig fileId w).2).
Proof.
  exact (conj (getCurrentUser_reads w)
        (conj (λ x, getPostById_reads x w)
        (conj (λ x, getInfinitePosts_reads x w)
        (conj (λ x, searchPosts_reads x w)
        (conj (λ x, getUsers_reads x w)
        (conj (λ x, getUserById_reads x w)
        (conj (getRecentPosts_reads w)
        (conj (λ x, getUserPosts_reads x w)
        (conj (getAccount_reads w)
              (λ x, getFilePreview_reads x w)))))))))).
Qed.

End ReadOnly.

(** ** What the calls of the service leave as it was *)

(** Solves [keeps R call] for a call of the SDK, given how to show [R]
    between the world before the effect and the one after. *)
Ltac keeps_call tac :=
  apply keeps_remote; [apply _|];
  let w := fresh "w" in let a := fresh "a" in let w2 := fresh "w2" in
  intros w a w2;
  repeat match goal with
         | |- context [match ?x with _ => _ end] => destruct x eqn:?
         end;
  intros [= <- <-] || intros [=]; tac.

Lemma account_create_keeps_bucket i e p n : keeps same_bucket (account.create i e p n).
Proof. unfold account.create. keeps_call ltac:(reflexivity). Qed.

Lemma createEmailPasswordSession_keeps_bucket e p :
  keeps same_bucket (account.createEmailPasswordSession e p).
Proof. unfold account.createEmailPasswordSession. keeps_call ltac:(reflexivity). Qed.

Lemma deleteSession_keeps_bucket s : keeps same_bucket (account.deleteSession s).
Proof. unfold account.deleteSession. keeps_call ltac:(reflexivity). Qed.

Lemma getInitials_keeps_bucket n : keeps same_bucket (avatars.getInitials n).
Proof. unfold avatars.getInitials. keeps_call ltac:(reflexivity). Qed.

Lemma createDocument_keeps_bucket db coll id data :
  keeps same_bucket (databases.createDocument db coll id data).
Proof. unfold databases.createDocument. keeps_call ltac:(reflexivity). Qed.

Lemma updateDocument_keeps_bucket db coll id data :
  keeps same_bucket (databases.updateDocument db coll id data).
Proof. unfold databases.updateDocument. keeps_call ltac:(reflexivity). Qed.

Lemma deleteDocument_keeps_bucket db coll id :
  keeps same_bucket (databases.deleteDocument db coll id).
Proof. unfold databases.deleteDocument. keeps_call ltac:(reflexivity). Qed.

Lemma updateDocument_keeps_other_documents db coll id data :
  keeps (same_documents_but (db, coll, id)) (databases.updateDocument db coll id data).
Proof.
  unfold databases.updateDocument.
  keeps_call ltac:(intros k Hk; cbn [documents set_documents called];
                   by rewrite lookup_insert_ne).
Qed.

Lemma deleteDocument_keeps_other_documents db coll id :
  keeps (same_documents_but (db, coll, id)) (databases.deleteDocument db coll id).
Proof.
  unfold databases.deleteDocument.
  keeps_call ltac:(intros k Hk; cbn [documents set_documents called];
                   by rewrite lookup_delete_ne).
Qed.

Lemma createFile_keeps_documents key b i file :
  keeps (same_documents_but key) (storage.createFile b i file).
Proof. unfold storage.createFile. keeps_call ltac:(by intros k Hk). Qed.

Lemma storage_getFilePreview_keeps_documents key b i wd h g q :
  keeps (same_documents_but key) (storage.getFilePreview b i wd h g q).
Proof. unfold storage.getFilePreview. keeps_call ltac:(by intros k Hk). Qed.

Lemma storage_deleteFile_keeps_documents key b i :
  keeps (same_documents_but key) (storage.deleteFile b i).
Proof. unfold storage.deleteFile. keeps_call ltac:(by intros k Hk). Qed.

Lemma updateDocument_keeps_files key db coll id data :
  keeps (same_files_but key) (databases.updateDocument db coll id data).
Proof. unfold databases.updateDocument. keeps_call ltac:(by intros k Hk). Qed.

Lemma createDocument_keeps_files key db coll id data :
  keeps (same_files_but key) (databases.createDocument db coll id data).
Proof. unfold databases.createDocument. keeps_call ltac:(by intros k Hk). Qed.

Lemma deleteDocument_keeps_files key db coll id :
  keeps (same_files_but key) (databases.deleteDocument db coll id).
Proof. unfold databases.deleteDocument. keeps_call ltac:(by intros k Hk). Qed.

Lemma storage_deleteFile_keeps_other_files keys b i :
  (b, i) ∈ keys → keeps (same_files_but keys) (storage.deleteFile b i).
Proof.
  intros Hin. unfold storage.deleteFile.
  keeps_call ltac:(intros k Hk; cbn [files set_files called];
                   rewrite lookup_delete_ne; [done|by intros <-]).
Qed.

Lemma createDocument_grows db coll id data :
  keeps documents_grow (databases.createDocument db coll id data).
Proof.
  unfold databases.createDocument.
  keeps_call ltac:(unfold documents_grow; cbn [documents set_documents called];
                   by apply insert_subseteq).
Qed.

Lemma account_create_grows i e p n : keeps documents_grow (account.create i e p n).
Proof. unfold account.create. keeps_call ltac:(unfold documents_grow; reflexivity). Qed.

Lemma getInitials_grows n : keeps documents_grow (avatars.getInitials n).
Proof. unfold avatars.getInitials. keeps_call ltac:(unfold documents_grow; reflexivity). Qed.

Lemma createFile_grows b i file : keeps documents_grow (storage.createFile b i file).
Proof. unfold storage.createFile. keeps_call ltac:(unfold documents_grow; reflexivity). Qed.

Lemma storage_getFilePreview_grows b i wd h g q :
  keeps documents_grow (storage.getFilePreview b i wd h g q).
Proof. unfold storage.getFilePreview. keeps_call ltac:(unfold documents_grow; reflexivity). Qed.

Lemma storage_deleteFile_grows b i : keeps documents_grow (storage.deleteFile b i).
Proof. unfold storage.deleteFile. keeps_call ltac:(unfold documents_grow; reflexivity). Qed.

Section FileHelpers.

Variable appwriteConfig : Config.

Lemma uploadFile_keeps_documents key file :
  keeps (same_documents_but key) (uploadFile appwriteConfig file).
Proof. unfold uploadFile. keeps_steps. apply createFile_keeps_documents. Qed.

Lemma getFilePreview_keeps_documents key fileId :
  keeps (same_documents_but key) (getFilePreview appwriteConfig fileId).
Proof.
  unfold getFilePreview. keeps_steps. apply storage_getFilePreview_keeps_documents.
Qed.

Lemma deleteFile_keeps_documents key fileId :
  keeps (same_documents_but key) (deleteFile appwriteConfig fileId).
Proof. unfold deleteFile. keeps_steps. apply storage_deleteFile_keeps_documents. Qed.

Lemma deleteFile_keeps_other_files keys fileId :
  (storageId appwriteConfig, fileId) ∈ keys →
  keeps (same_files_but keys) (deleteFile appwriteConfig fileId).
Proof.
  intros Hin. unfold deleteFile. keeps_steps.
  by apply storage_deleteFile_keeps_other_files.
Qed.

Lemma uploadFile_grows file : keeps documents_grow (uploadFile appwriteConfig file).
Proof. unfold uploadFile. keeps_steps. apply createFile_grows. Qed.

Lemma getFilePreview_grows fileId :
  keeps documents_grow (getFilePreview appwriteConfig fileId).
Proof. unfold getFilePreview. keeps_steps. apply storage_getFilePreview_grows. Qed.

Lemma deleteFile_grows fileId : keeps documents_grow (deleteFile appwriteConfig fileId).
Proof. unfold deleteFile. keeps_steps. apply storage_deleteFile_grows. Qed.

Lemma getFilePreview_keeps_files key fileId :
  keeps (same_files_but key) (getFilePreview appwriteConfig fileId).
Proof.
  intros w k Hk.
  by destruct (getFilePreview_reads appwriteConfig fileId w) as (_ & _ & _ & ->).
Qed.

End FileHelpers.

(** ** Frames of the writing workflows *)

Section Frames.

Variable appwriteConfig : Config.

Lemma saveUserToDB_keeps_bucket user : keeps same_bucket (saveUserToDB appwriteConfig user).
Proof. unfold saveUserToDB. keeps_steps. apply createDocument_keeps_bucket. Qed.

Lemma createUserAccount_keeps_bucket user :
  keeps same_bucket (createUserAccount appwriteConfig user).
Proof.
  unfold createUserAccount. keeps_steps;
    auto using account_create_keeps_bucket, getInitials_keeps_bucket,
      saveUserToDB_keeps_bucket.
Qed.

Lemma signInAccount_keeps_bucket email password :
  keeps same_bucket (signInAccount email password).
Proof. unfold signInAccount. keeps_steps. apply createEmailPasswordSession_keeps_bucket. Qed.

Lemma signOutAccount_keeps_bucket : keeps same_bucket signOutAccount.
Proof. unfold signOutAccount. keeps_steps. apply deleteSession_keeps_bucket. Qed.

Lemma likePost_keeps_bucket postId likesArray :
  keeps same_bucket (likePost appwriteConfig postId likesArray).
Proof. unfold likePost. keeps_steps. apply updateDocument_keeps_bucket. Qed.

Lemma savePost_keeps_bucket userId postId :
  keeps same_bucket (savePost appwriteConfig userId postId).
Proof. unfold savePost. keeps_steps. apply createDocument_keeps_bucket. Qed.

Lemma deleteSavedPost_keeps_bucket savedRecordId :
  keeps same_bucket (deleteSavedPost appwriteConfig savedRecordId).
Proof. unfold deleteSavedPost. keeps_steps. apply deleteDocument_keeps_bucket. Qed.

(** X2. The workflows that write documents or sessions only (sign-up,
    sign-in, sign-out, like, save, unsave) never upload or delete a file:
    the bucket is as before, on every input and whatever the service
    answers. *)
Theorem document_workflows_keep_the_bucket (w : World) :
  (∀ user, files (createUserAccount appwriteConfig user w).2 = files w)
  ∧ (∀ user, files (saveUserToDB appwriteConfig user w).2 = files w)
  ∧ (∀ email password, files (signInAccount email password w).2 = files w)
  ∧ files (signOutAccount w).2 = files w
  ∧ (∀ postId likesArray, files (likePost appwriteConfig postId likesArray w).2 = files w)
  ∧ (∀ userId postId, files (savePost appwriteConfig userId postId w).2 = files w)
  ∧ (∀ savedRecordId,
       files (deleteSavedPost appwriteConfig savedRecordId w).2 = files w).
Proof.
  exact (conj (λ x, createUserAccount_keeps_bucket x w)
        (conj (λ x, saveUserToDB_keeps_bucket x w)
        (conj (λ x y, signInAccount_keeps_bucket x y w)
        (conj (signOutAccount_keeps_bucket w)
        (conj (λ x y, likePost_keeps_bucket x y w)
        (conj (λ x y, savePost_keeps_bucket x y w)
              (λ x, deleteSavedPost_keeps_bucket x w))))))).
Qed.

Lemma updatePost_keeps_other_documents post :
  keeps (same_documents_but (databaseId appwriteConfig, postCollectionId appwriteConfig,
                             IUpdatePost.postId post))
        (updatePost appwriteConfig post).
Proof.
  unfold updatePost. keeps_steps;
    auto using uploadFile_keeps_documents, getFilePreview_keeps_documents,
      deleteFile_keeps_documents, updateDocument_keeps_other_documents.
Qed.

Lemma updateUser_keeps_other_documents user :
  keeps (same_documents_but (databaseId appwriteConfig, userCollectionId appwriteConfig,
                             IUpdateUser.userId user))
        (updateUser appwriteConfig user).
Proof.
  unfold updateUser. keeps_steps;
    auto using uploadFile_keeps_documents, getFilePreview_keeps_documents,
      deleteFile_keeps_documents, updateDocument_keeps_other_documents.
Qed.

Lemma likePost_keeps_other_documents postId likesArray :
  keeps (same_documents_but (databaseId appwriteConfig, postCollectionId appwriteConfig,
                             postId))
        (likePost appwriteConfig postId likesArray).
Proof. unfold likePost. keeps_steps. apply updateDocument_keeps_other_documents. Qed.

Lemma deletePost_keeps_other_documents postId imageId :
  keeps (same_documents_but (databaseId appwriteConfig, postCollectionId appwriteConfig,
                             default "" postId))
        (deletePost appwriteConfig postId imageId).
Proof.
  unfold deletePost. keeps_steps;
    auto using deleteFile_keeps_documents, deleteDocument_keeps_other_documents.
Qed.

Lemma deleteSavedPost_keeps_other_documents savedRecordId :
  keeps (same_documents_but (databaseId appwriteConfig, savesCollectionId appwriteConfig,
                             savedRecordId))
        (deleteSavedPost appwriteConfig savedRecordId).
Proof. unfold deleteSavedPost. keeps_steps. apply deleteDocument_keeps_other_documents. Qed.

(** X3. An update, a like and a deletion touch no document but the one
    they address: every other document, of any collection, is as before, on
    every input and whatever the service answers. *)
Theorem writes_touch_one_document (w : World) (k : string * string * string) :
  (∀ post,
     k ≠ (databaseId appwriteConfig, postCollectionId appwriteConfig,
          IUpdatePost.postId post) →
     documents (updatePost appwriteConfig post w).2 !! k = documents w !! k)
  ∧ (∀ user,
       k ≠ (databaseId appwriteConfig, userCollectionId appwriteConfig,
            IUpdateUser.userId user) →
       documents (updateUser appwriteConfig user w).2 !! k = documents w !! k)
  ∧ (∀ postId likesArray,
       k ≠ (databaseId appwriteConfig, postCollectionId appwriteConfig, postId) →
       documents (likePost appwriteConfig postId likesArray w).2 !! k
       = documents w !! k)
  ∧ (∀ postId imageId,
       k ≠ (databaseId appwriteConfig, postCollectionId appwriteConfig,
            default "" postId) →
       documents (deletePost appwriteConfig postId imageId w).2 !! k
       = documents w !! k)
  ∧ (∀ savedRecordId,
       k ≠ (databaseId appwriteConfig, savesCollectionId appwriteConfig,
            savedRecordId) →
       documents (deleteSavedPost appwriteConfig savedRecordId w).2 !! k
       = documents w !! k).
Proof.
  exact (conj (λ x, updatePost_keeps_other_documents x w k)
        (conj (λ x, updateUser_keeps_other_documents x w k)
        (conj (λ x y, likePost_keeps_other_documents x y w k)
        (conj (λ x y, deletePost_keeps_other_documents x y w k)
              (λ x, deleteSavedPost_keeps_other_documents x w k))))).
Qed.

Lemma saveUserToDB_grows user : keeps documents_grow (saveUserToDB appwriteConfig user).
Proof. unfold saveUserToDB. keeps_steps. apply createDocument_grows. Qed.

Lemma createUserAccount_grows user :
  keeps documents_grow (createUserAccount appwriteConfig user).
Proof.
  unfold createUserAccount. keeps_steps;
    auto using account_create_grows, getInitials_grows, saveUserToDB_grows.
Qed.

Lemma savePost_grows userId postId :
  keeps documents_grow (savePost appwriteConfig userId postId).
Proof. unfold savePost. keeps_steps. apply createDocument_grows. Qed.

Lemma createPost_grows post : keeps documents_grow (createPost appwriteConfig post).
Proof.
  unfold createPost. keeps_steps;
    auto using uploadFile_grows, getFilePreview_grows, deleteFile_grows,
      createDocument_grows.
Qed.

(** X4. The creating workflows (a post, a saved-post record, a user
    profile, a sign-up) never change or delete a document that exists:
    every document stored before is stored unchanged after, on every input
    and whatever the service answers. *)
Theorem creating_keeps_existing_documents (w : World)
    (k : string * string * string) (d : gmap string fval) :
  documents w !! k = Some d →
  (∀ post, documents (createPost appwriteConfig post w).2 !! k = Some d)
  ∧ (∀ userId postId,
       documents (savePost appwriteConfig userId postId w).2 !! k = Some d)
  ∧ (∀ user, documents (saveUserToDB appwriteConfig user w).2 !! k = Some d)
  ∧ (∀ user, documents (createUserAccount appwriteConfig user w).2 !! k = Some d).
Proof.
  intros Hd. repeat apply conj; intros.
  - exact (lookup_weaken _ _ _ _ Hd (createPost_grows _ w)).
  - exact (lookup_weaken _ _ _ _ Hd (savePost_grows _ _ w)).
  - exact (lookup_weaken _ _ _ _ Hd (saveUserToDB_grows _ w)).
  - exact (lookup_weaken _ _ _ _ Hd (createUserAccount_grows _ w)).
Qed.

End Frames.

(** ** Which files a workflow can remove *)

Section KeepsReturning.

Context (R : World → World → Prop) `{!Frame R}.

Lemma keeps_returning_mret {A : Type} (φ : A → Prop) (a : A) :
  φ a → keeps_returning R φ (mret a : Async A).
Proof. intros Ha w. split; [reflexivity|]. by intros a' [= <-]. Qed.

Lemma keeps_returning_throw {A : Type} (φ : A → Prop) (e : Err) :
  keeps_returning R φ (@throw A e).
Proof. intros w. split; [reflexivity|]. by intros a' [=]. Qed.

Lemma keeps_returning_bind {A B : Type} (φ : B → Prop) (m : Async A) (k : A → Async B) :
  keeps R m → (∀ a, keeps_returning R φ (k a)) → keeps_returning R φ (m ≫= k).
Proof.
  intros Hm Hk w. rewrite bind_run. specialize (Hm w).
  destruct (m w) as [[a|e] w1]; cbn [fst snd] in *.
  - destruct (Hk a w1) as [HR Hφ]. split; [by etrans|exact Hφ].
  - split; [exact Hm|]. by intros a' [=].
Qed.

Lemma keeps_bind_returning {A B : Type} (φ : A → Prop) (m : Async A) (k : A → Async B) :
  keeps_returning R φ m → (∀ a, φ a → keeps R (k a)) → keeps R (m ≫= k).
Proof.
  intros Hm Hk w. rewrite bind_run. destruct (Hm w) as [HR Hφ].
  destruct (m w) as [[a|e] w1]; cbn [fst snd] in *; [|exact HR].
  etrans; [exact HR|]. by apply Hk, Hφ.
Qed.

End KeepsReturning.

Lemma try_catch_bind_run {A B : Type} (m : Async A) (k : A → Async B)
    (h : Err → Async B) (w : World) :
  try_catch (m ≫= k) h w =
  match m w with
  | (Return a, w1) => try_catch (k a) h w1
  | (Throw e, w1) => h e w1
  end.
Proof. unfold try_catch. rewrite bind_run. by destruct (m w) as [[a|e] w1]. Qed.

Lemma try_catch_bind_bind_run {A B C : Type} (m : Async A) (k1 : A → Async B)
    (k : B → Async C) (h : Err → Async C) (w : World) :
  try_catch ((m ≫= k1) ≫= k) h w =
  match m w with
  | (Return a, w1) => try_catch (k1 a ≫= k) h w1
  | (Throw e, w1) => h e w1
  end.
Proof.
  unfold try_catch. rewrite !bind_run. by destruct (m w) as [[a|e] w1].
Qed.

Section Files.

Variable appwriteConfig : Config.

(** What an upload does: nothing to the bucket, or one file more, under
    the id [ID.unique()] gave; documents, accounts and session stay. *)
Lemma uploadFile_cases (file : option File) (w : World) :
  ∃ r w1, uploadFile appwriteConfig file w = (Return r, w1)
    ∧ documents w1 = documents w
    ∧ accounts w1 = accounts w ∧ session w1 = session w
    ∧ ((r = None ∧ files w1 = files w)
       ∨ (∃ f, file = Some f
            ∧ r = Some (mkUploadedFile (fresh (ids_in_use w)))
            ∧ files w1 = <[(storageId appwriteConfig, fresh (ids_in_use w)) := f]>
                           (files w))).
Proof.
  destruct (coming w) eqn:Hf.
  - destruct file as [f|].
    + rewrite uploadFile_fulfilled by exact Hf.
      eexists _, _. split; [reflexivity|]. repeat split. right. by exists f.
    + unfold uploadFile, try_catch, ID_unique, storage.createFile.
      rewrite !bind_run, remote_refused by done.
      eexists _, _. split; [reflexivity|]. repeat split. by left.
  - rewrite uploadFile_falsy by exact Hf.
    eexists _, _. split; [reflexivity|]. repeat split. by left.
  - rewrite uploadFile_rejected by exact Hf.
    eexists _, _. split; [reflexivity|]. repeat split. by left.
Qed.

Lemma uploadFile_keeps_files (file : option File) (w : World)
    (k : string * string) (f : File) :
  files w !! k = Some f → files (uploadFile appwriteConfig file w).2 !! k = Some f.
Proof.
  intros Hk.
  destruct (uploadFile_cases file w)
    as (r & w1 & -> & _ & _ & _ & [[_ Hfiles]|(f' & _ & _ & Hfiles)]);
    cbn [snd]; rewrite Hfiles; [done|].
  rewrite lookup_insert_ne; [done|]. intros <-. by rewrite unique_no_file in Hk.
Qed.

Lemma createPost_keeps_files (post : INewPost.t) (w : World)
    (k : string * string) (f : File) :
  files w !! k = Some f → files (createPost appwriteConfig post w).2 !! k = Some f.
Proof.
  intros Hk. unfold createPost. rewrite try_catch_bind_run.
  destruct (uploadFile_cases (INewPost.file post !! 0%nat) w)
    as (r & w1 & -> & _ & _ & _ & [[-> Hfiles]|(f' & _ & -> & Hfiles)]).
  - async. cbn [files logged]. by rewrite Hfiles.
  - set (new := fresh (ids_in_use w)) in *.
    assert (Hne : k ≠ (storageId appwriteConfig, new)).
    { intros ->. unfold new in Hk. by rewrite unique_no_file in Hk. }
    match goal with
    | |- files (try_catch ?m ?h w1).2 !! k = _ =>
        assert (Hkeeps : keeps (same_files_but [(storageId appwriteConfig, new)])
                           (try_catch m h))
    end.
    { cbn [file_id]. keeps_steps;
        auto using getFilePreview_keeps_files, createDocument_keeps_files.
      all: apply deleteFile_keeps_other_files; constructor. }
    rewrite (Hkeeps w1 k) by (by rewrite list_elem_of_singleton).
    rewrite Hfiles. by rewrite lookup_insert_ne.
Qed.

Lemma deletePost_keeps_other_files (postId imageId : option string) :
  keeps (same_files_but [(storageId appwriteConfig, default "" imageId)])
        (deletePost appwriteConfig postId imageId).
Proof.
  unfold deletePost. keeps_steps; auto using deleteDocument_keeps_files.
  apply deleteFile_keeps_other_files. constructor.
Qed.

(** After the upload of an update: the rest of the workflow can remove the
    new file and the old one, and no other. *)
Lemma updatePost_keeps_files (post : IUpdatePost.t) (w : World)
    (k : string * string) (f : File) :
  files w !! k = Some f →
  k ≠ (storageId appwriteConfig, IUpdatePost.imageId post) →
  files (updatePost appwriteConfig post w).2 !! k = Some f.
Proof.
  intros Hk Hold.
  destruct (IUpdatePost.file post) as [|f0 fs] eqn:Hfile.
  { destruct (updatePost_without_image appwriteConfig post w Hfile) as [-> _]. done. }
  unfold updatePost. rewrite Hfile.
  change (Nat.ltb 0 (List.length (f0 :: fs))) with true. cbv beta iota zeta.
  rewrite try_catch_bind_bind_run.
  destruct (uploadFile_cases ((f0 :: fs) !! 0%nat) w)
    as (r & w1 & -> & _ & _ & _ & [[-> Hfiles]|(f' & _ & -> & Hfiles)]).
  - async. cbn [files logged]. by rewrite Hfiles.
  - set (new := fresh (ids_in_use w)) in *.
    assert (Hne : k ≠ (storageId appwriteConfig, new)).
    { intros ->. unfold new in Hk. by rewrite unique_no_file in Hk. }
    set (keys := [(storageId appwriteConfig, new);
                  (storageId appwriteConfig, IUpdatePost.imageId post)]).
    match goal with
    | |- files (try_catch ?m ?h w1).2 !! k = _ =>
        assert (Hkeeps : keeps (same_files_but keys) (try_catch m h))
    end.
    { cbn [file_id]. apply keeps_try_catch; [apply _| |keeps_steps].
      apply (keeps_bind_returning _ (λ image : URL * string, image.2 = new)).
      - apply keeps_returning_bind; [apply _|apply getFilePreview_keeps_files|].
        intros [url|].
        + apply keeps_returning_mret; [apply _|reflexivity].
        + apply keeps_returning_bind;
            [apply _| |intros; apply keeps_returning_throw; apply _].
          apply deleteFile_keeps_other_files. constructor.
      - intros [url i] Hi. cbn [snd] in Hi. subst i. cbn [fst snd].
        keeps_steps; auto using updateDocument_keeps_files.
        + apply deleteFile_keeps_other_files. right. constructor.
        + apply deleteFile_keeps_other_files. constructor. }
    rewrite (Hkeeps w1 k).
    + rewrite Hfiles. by rewrite lookup_insert_ne.
    + intros [->|[->|[]%elem_of_nil]%elem_of_cons]%elem_of_cons; done.
Qed.

Lemma updateUser_keeps_files (user : IUpdateUser.t) (w : World)
    (k : string * string) (f : File) :
  files w !! k = Some f →
  k ≠ (storageId appwriteConfig, IUpdateUser.imageId user) →
  files (updateUser appwriteConfig user w).2 !! k = Some f.
Proof.
  intros Hk Hold.
  destruct (IUpdateUser.file user) as [|f0 fs] eqn:Hfile.
  { destruct (updateUser_without_image appwriteConfig user w Hfile) as [-> _]. done. }
  unfold updateUser. rewrite Hfile.
  change (Nat.ltb 0 (List.length (f0 :: fs))) with true. cbv beta iota zeta.
  rewrite try_catch_bind_bind_run.
  destruct (uploadFile_cases ((f0 :: fs) !! 0%nat) w)
    as (r & w1 & -> & _ & _ & _ & [[-> Hfiles]|(f' & _ & -> & Hfiles)]).
  - async. cbn [files logged]. by rewrite Hfiles.
  - set (new := fresh (ids_in_use w)) in *.
    assert (Hne : k ≠ (storageId appwriteConfig, new)).
    { intros ->. unfold new in Hk. by rewrite unique_no_file in Hk. }
    set (keys := [(storageId appwriteConfig, new);
                  (storageId appwriteConfig, IUpdateUser.imageId user)]).
    match goal with
    | |- files (try_catch ?m ?h w1).2 !! k = _ =>
        assert (Hkeeps : keeps (same_files_but keys) (try_catch m h))
    end.
    { cbn [file_id]. apply keeps_try_catch; [apply _| |keeps_steps].
      apply (keeps_bind_returning _ (λ image : URL * string, image.2 = new)).
      - apply keeps_returning_bind; [apply _|apply getFilePreview_keeps_files|].
        intros [url|].
        + apply keeps_returning_mret; [apply _|reflexivity].
        + apply keeps_returning_bind;
            [apply _| |intros; apply keeps_returning_throw; apply _].
          apply deleteFile_keeps_other_files. constructor.
      - intros [url i] Hi. cbn [snd] in Hi. subst i. cbn [fst snd].
        keeps_steps; auto using updateDocument_keeps_files.
        + apply deleteFile_keeps_other_files. right. constructor.
        + apply deleteFile_keeps_other_files. constructor. }
    rewrite (Hkeeps w1 k).
    + rewrite Hfiles. by rewrite lookup_insert_ne.
    + intros [->|[->|[]%elem_of_nil]%elem_of_cons]%elem_of_cons; done.
Qed.

(** X5. A stored file leaves the bucket only when a workflow names it: an
    upload and the creation of a post never remove or overwrite a stored
    file, an update can remove none but the old image it is given, and
    [deletePost] and [deleteFile] none but the file they are given; on every
    input and whatever the service answers. *)
Theorem stored_files_leave_only_when_named (w : World) (k : string * string)
    (f : File) :
  files w !! k = Some f →
  (∀ file, files (uploadFile appwriteConfig file w).2 !! k = Some f)
  ∧ (∀ post, files (createPost appwriteConfig post w).2 !! k = Some f)
  ∧ (∀ post, k ≠ (storageId appwriteConfig, IUpdatePost.imageId post) →
             files (updatePost appwriteConfig post w).2 !! k = Some f)
  ∧ (∀ user, k ≠ (storageId appwriteConfig, IUpdateUser.imageId user) →
             files (updateUser appwriteConfig user w).2 !! k = Some f)
  ∧ (∀ postId imageId, k ≠ (storageId appwriteConfig, default "" imageId) →
             files (deletePost appwriteConfig postId imageId w).2 !! k = Some f)
  ∧ (∀ fileId, k ≠ (storageId appwriteConfig, fileId) →
             files (deleteFile appwriteConfig fileId w).2 !! k = Some f).
Proof.
  intros Hk. repeat apply conj; intros.
  - by apply uploadFile_keeps_files.
  - by apply createPost_keeps_files.
  - by apply updatePost_keeps_files.
  - by apply updateUser_keeps_files.
  - rewrite (deletePost_keeps_other_files _ _ w k); [done|].
    by rewrite list_elem_of_singleton.
  - rewrite (deleteFile_keeps_other_files appwriteConfig
               [(storageId appwriteConfig, fileId)] fileId ltac:(constructor) w k);
      [done|]. by rewrite list_elem_of_singleton.
Qed.

End Files.

(** ** The ids of [ID.unique()] are not empty *)

Lemma pretty_N_go_not_empty (x : N) (s : string) : s ≠ "" → pretty_N_go x s ≠ "".
Proof.
  revert s. induction (N.lt_wf_0 x) as [x _ IH]; intros s Hs.
  destruct (decide (x = 0)%N) as [->|Hx].
  - by rewrite pretty_N_go_0.
  - rewrite pretty_N_go_step by lia. apply IH; [|done].
    apply N.div_lt; lia.
Qed.

Lemma pretty_nat_not_empty (n : nat) : pretty n ≠ "".
Proof.
  unfold pretty, pretty_nat, pretty, pretty_N.
  destruct (decide (N.of_nat n = 0)%N) as [|Hn]; [done|].
  rewrite pretty_N_go_step by lia. by apply pretty_N_go_not_empty.
Qed.

Lemma search_from_is_number (xs : list string) (n : nat) acc :
  ∃ m : nat, Fix_F (λ _, string) (search_infinite_go pretty xs) (x := n) acc = pretty m.
Proof.
  revert n acc. fix FIX 2. intros n [?]; simpl.
  unfold search_infinite_go at 1; simpl.
  destruct (decide _); eauto.
Qed.

Lemma fresh_string_is_number (xs : list string) : ∃ n : nat, fresh xs = pretty n.
Proof. apply search_from_is_number. Qed.

Lemma unique_not_empty (w : World) : fresh (ids_in_use w) ≠ "".
Proof.
  unfold fresh, set_fresh. simpl.
  destruct (fresh_string_is_number (elements (ids_in_use w))) as [n ->].
  apply pretty_nat_not_empty.
Qed.

Lemma truthy_unique (w : World) : Js.truthy (Some (fresh (ids_in_use w))) = true.
Proof.
  pose proof (unique_not_empty w). by destruct (fresh (ids_in_use w)).
Qed.

(** ** Creating a post: the edge of the empty file list, and round trips *)

Section CreateRuns.

Variable appwriteConfig : Config.

Lemma uploadFile_no_file (w : World) :
  coming w = Fulfil →
  uploadFile appwriteConfig None w =
  (Return None,
   logged (AppwriteException
             (storage_createFile (storageId appwriteConfig) (fresh (ids_in_use w)) None))
     (called (storage_createFile (storageId appwriteConfig) (fresh (ids_in_use w)) None)
        w)).
Proof.
  intros Hf. unfold uploadFile, try_catch, ID_unique, storage.createFile.
  rewrite !bind_run. by rewrite remote_refused.
Qed.

(** X6. [createPost] with an empty list of files uploads [undefined]: the
    upload is the only call issued, the workflow returns [undefined], and
    accounts, session, documents and files are as before, whatever the
    service answers. *)
Theorem createPost_without_file_stores_nothing (post : INewPost.t) (w : World) :
  INewPost.file post = [] →
  let r := createPost appwriteConfig post w in
  r.1 = Return None
  ∧ same_service w r.2
  ∧ calls r.2 = calls w ++
      [storage_createFile (storageId appwriteConfig) (fresh (ids_in_use w)) None].
Proof.
  intros Hfile r. subst r. unfold createPost. rewrite Hfile.
  change ([] !! 0%nat) with (@None File). async.
  destruct (coming w) eqn:Hf.
  - rewrite uploadFile_no_file by exact Hf. async. by repeat split.
  - rewrite uploadFile_falsy by exact Hf. async. by repeat split.
  - rewrite uploadFile_rejected by exact Hf. async. by repeat split.
Qed.

(** The run of [createPost] when the three calls are fulfilled. *)
Lemma createPost_fulfilled (post : INewPost.t) (w : World) (f : File) (fs : list File) :
  INewPost.file post = f :: fs →
  fate 0 w = Fulfil → fate 1 w = Fulfil → fate 2 w = Fulfil →
  let new := fresh (ids_in_use w) in
  ∃ id d w1,
    createPost appwriteConfig post w = (Return (Some (mkDocument id d)), w1)
    ∧ id ≠ "" ∧ new ≠ ""
    ∧ documents w !! (databaseId appwriteConfig, postCollectionId appwriteConfig, id)
      = None
    ∧ documents w1 = <[(databaseId appwriteConfig, postCollectionId appwriteConfig, id)
                        := d]> (documents w)
    ∧ files w1 = <[(storageId appwriteConfig, new) := f]> (files w)
    ∧ accounts w1 = accounts w ∧ session w1 = session w
    ∧ fates w1 = tail (tail (tail (fates w)))
    ∧ calls w1 = calls w ++
        [storage_createFile (storageId appwriteConfig) new (Some f);
         storage_getFilePreview (storageId appwriteConfig) new 2000 2000 "top" 100;
         databases_createDocument (databaseId appwriteConfig)
           (postCollectionId appwriteConfig) id d]
    ∧ d = obj [("creator", Some (FStr (INewPost.userId post)));
               ("caption", Some (FStr (INewPost.caption post)));
               ("imageUrl",
                Some (FUrl (Preview (storageId appwriteConfig) new 2000 2000 "top" 100)));
               ("imageId", Some (FStr new));
               ("location", FStr <$> INewPost.location post);
               ("tags", Some (FList (normalizeTags (INewPost.tags post))))].
Proof.
  intros Hfile H0 H1 H2 new.
  unfold createPost, ID_unique. rewrite Hfile.
  change ((f :: fs) !! 0%nat) with (Some f). async.
  rewrite uploadFile_fulfilled by exact H0. async. fold new.
  rewrite getFilePreview_fulfilled by exact H1. async.
  match goal with
  | |- context [databases.createDocument ?db ?coll (fresh (ids_in_use ?w2)) ?data ?w2'] =>
      rewrite (createDocument_fulfilled db coll (fresh (ids_in_use w2)) data w2' H2
                 (unique_no_document w2 db coll));
      pose proof (unique_no_document w2 db coll) as Hnone;
      pose proof (unique_not_empty w2) as Hid
  end.
  async. eexists _, _, _. split; [reflexivity|].
  split; [exact Hid|]. split; [apply unique_not_empty|].
  split; [exact Hnone|].
  cbn [documents files accounts session fates calls set_documents set_files called].
  repeat split. by rewrite <- !app_assoc.
Qed.

(** X7. When the upload, the preview and the creation are fulfilled,
    [createPost] stores exactly one new document and one new file and
    changes nothing else: the document has the creator, the caption, the
    normalised tags and the preview URL, and its [imageId] is the id of the
    file, which holds the content uploaded. It returns that document. *)
Theorem createPost_stores_one_document_and_one_file (post : INewPost.t) (w : World)
    (f : File) (fs : list File) :
  INewPost.file post = f :: fs →
  fate 0 w = Fulfil → fate 1 w = Fulfil → fate 2 w = Fulfil →
  let r := createPost appwriteConfig post w in
  ∃ id d imageId,
    r.1 = Return (Some (mkDocument id d))
    ∧ documents w !! (databaseId appwriteConfig, postCollectionId appwriteConfig, id)
      = None
    ∧ documents r.2 = <[(databaseId appwriteConfig, postCollectionId appwriteConfig, id)
                         := d]> (documents w)
    ∧ files w !! (storageId appwriteConfig, imageId) = None
    ∧ files r.2 = <[(storageId appwriteConfig, imageId) := f]> (files w)
    ∧ d !! "imageId" = Some (FStr imageId)
    ∧ d !! "imageUrl"
      = Some (FUrl (Preview (storageId appwriteConfig) imageId 2000 2000 "top" 100))
    ∧ d !! "creator" = Some (FStr (INewPost.userId post))
    ∧ d !! "caption" = Some (FStr (INewPost.caption post))
    ∧ d !! "tags" = Some (FList (normalizeTags (INewPost.tags post)))
    ∧ d !! "location" = FStr <$> INewPost.location post
    ∧ d !! "likes" = None.
Proof.
  intros Hfile H0 H1 H2 r. subst r.
  destruct (createPost_fulfilled post w f fs Hfile H0 H1 H2)
    as (id & d & w1 & -> & _ & _ & Hnone & Hdocs & Hfiles & _ & _ & _ & _ & ->).
  eexists id, _, _. cbn [fst snd].
  split; [reflexivity|]. split; [exact Hnone|]. split; [exact Hdocs|].
  split; [apply unique_no_file|]. split; [exact Hfiles|].
  destruct (INewPost.location post); repeat split; reflexivity.
Qed.

(** X8. A post that [createPost] returned is the document that
    [getPostById], called next with its id and fulfilled, returns. *)
Theorem createPost_then_getPostById (post : INewPost.t) (w : World)
    (f : File) (fs : list File) :
  INewPost.file post = f :: fs →
  fate 0 w = Fulfil → fate 1 w = Fulfil → fate 2 w = Fulfil → fate 3 w = Fulfil →
  ∃ doc w1,
    createPost appwriteConfig post w = (Return (Some doc), w1)
    ∧ (getPostById appwriteConfig (Some (doc_id doc)) w1).1 = Return (Some doc).
Proof.
  intros Hfile H0 H1 H2 H3.
  destruct (createPost_fulfilled post w f fs Hfile H0 H1 H2)
    as (id & d & w1 & Hrun & Hid & _ & _ & Hdocs & _ & _ & _ & Hfates & _ & _).
  exists (mkDocument id d), w1. split; [exact Hrun|]. cbn [doc_id].
  destruct id as [|c id]; [done|].
  unfold getPostById. cbn [Js.truthy]. async.
  unfold databases.getDocument.
  erewrite remote_fulfilled; [reflexivity| |].
  - unfold coming, fate. cbn [Nat.iter]. rewrite Hfates. exact H3.
  - cbn [documents called]. rewrite Hdocs, lookup_insert_eq. reflexivity.
Qed.

(** X9. Deleting the post that [createPost] has just created, with the id
    and the image id of the document returned, puts documents and files
    back as they were before the creation (every call being fulfilled). *)
Theorem createPost_then_deletePost (post : INewPost.t) (w : World)
    (f : File) (fs : list File) :
  INewPost.file post = f :: fs →
  fate 0 w = Fulfil → fate 1 w = Fulfil → fate 2 w = Fulfil →
  fate 3 w = Fulfil → fate 4 w = Fulfil →
  ∃ doc imageId w1,
    createPost appwriteConfig post w = (Return (Some doc), w1)
    ∧ doc_fields doc !! "imageId" = Some (FStr imageId)
    ∧ let r := deletePost appwriteConfig (Some (doc_id doc)) (Some imageId) w1 in
      r.1 = Return (Some (mkStatus "Ok"))
      ∧ documents r.2 = documents w ∧ files r.2 = files w.
Proof.
  intros Hfile H0 H1 H2 H3 H4.
  destruct (createPost_fulfilled post w f fs Hfile H0 H1 H2)
    as (id & d & w1 & Hrun & Hid & Hnew & Hnone & Hdocs & Hfiles & _ & _ & Hfates & _ & Hd).
  exists (mkDocument id d), (fresh (ids_in_use w)), w1.
  split; [exact Hrun|]. split.
  { cbn [doc_fields]. rewrite Hd. destruct (INewPost.location post); reflexivity. }
  cbn [doc_id]. set (new := fresh (ids_in_use w)) in *.
  destruct id as [|c id]; [done|]. destruct new as [|c' new'] eqn:Enew; [done|].
  unfold deletePost. cbn [Js.truthy]. async.
  unfold databases.deleteDocument.
  erewrite remote_fulfilled; [| |cbn [documents called]; rewrite Hdocs, lookup_insert_eq;
                                  reflexivity].
  2:{ unfold coming, fate. cbn [Nat.iter]. rewrite Hfates. exact H3. }
  async.
  rewrite deleteFile_fulfilled.
  - async. cbn [documents files set_files set_documents called].
    split; [done|]. split.
    + rewrite ?Hdocs. by apply delete_insert_id.
    + rewrite Hfiles. apply delete_insert_id. rewrite <- Enew. apply unique_no_file.
  - unfold coming, fate. cbn [Nat.iter fates set_documents called].
    rewrite Hfates. exact H4.
  - cbn [files set_documents called]. rewrite Hfiles, lookup_insert_eq. eauto.
Qed.

(** X10. A file uploaded by [uploadFile] and then deleted by [deleteFile]
    under the id the upload returned leaves the bucket as it was (both
    calls being fulfilled). *)
Theorem uploadFile_then_deleteFile (f : File) (w : World) :
  fate 0 w = Fulfil → fate 1 w = Fulfil →
  ∃ uploaded w1,
    uploadFile appwriteConfig (Some f) w = (Return (Some uploaded), w1)
    ∧ files w1 !! (storageId appwriteConfig, file_id uploaded) = Some f
    ∧ let r := deleteFile appwriteConfig (file_id uploaded) w1 in
      r.1 = Return (Some (mkStatus "ok")) ∧ files r.2 = files w.
Proof.
  intros H0 H1. eexists _, _.
  split; [by apply uploadFile_fulfilled|]. cbn [file_id files set_files].
  split; [by rewrite lookup_insert_eq|].
  rewrite deleteFile_fulfilled.
  - cbn [fst snd files set_files called]. split; [done|].
    apply delete_insert_id, unique_no_file.
  - exact H1.
  - cbn [files set_files]. rewrite lookup_insert_eq. eauto.
Qed.

End CreateRuns.

(** ** Likes and saved posts *)

#[global] Instance field_kept_frame key field : Frame (field_kept key field).
Proof.
  split.
  - split.
    + intros w d Hd. eauto.
    + intros w1 w2 w3 H1 H2 d Hd.
      destruct (H1 d Hd) as (d2 & Hd2 & E2). destruct (H2 d2 Hd2) as (d3 & Hd3 & E3).
      exists d3. split; [done|]. congruence.
  - intros c w d Hd. eauto.
  - intros e w d Hd. eauto.
Qed.

(** A key that the object literal does not name is not in the object. *)
Lemma obj_lookup_None (props : list (string * option fval)) (field : string) :
  field ∉ props.*1 → obj props !! field = None.
Proof.
  intros Hf. unfold obj. apply not_elem_of_list_to_map_1.
  intros Hin. apply Hf. clear Hf.
  induction props as [|[k [v|]] props IH]; cbn in *.
  - done.
  - apply elem_of_cons in Hin as [->|Hin]; [left|right; auto].
  - right. auto.
Qed.

Lemma updateDocument_keeps_field key field db coll id data :
  data !! field = None →
  keeps (field_kept key field) (databases.updateDocument db coll id data).
Proof.
  intros Hdata. unfold databases.updateDocument.
  keeps_call ltac:(idtac).
  intros d Hd. cbn [documents set_documents called] in *.
  destruct (decide (key = (db, coll, id))) as [->|Hne].
  - rewrite lookup_insert_eq. eexists. split; [done|].
    rewrite lookup_union_r by done. congruence.
  - rewrite lookup_insert_ne by done. eauto.
Qed.

Section Likes.

Variable appwriteConfig : Config.

Lemma file_helpers_keep_fields key field :
  (∀ file, keeps (field_kept key field) (uploadFile appwriteConfig file))
  ∧ (∀ fileId, keeps (field_kept key field) (getFilePreview appwriteConfig fileId))
  ∧ (∀ fileId, keeps (field_kept key field) (deleteFile appwriteConfig fileId)).
Proof.
  assert (Hsame : ∀ w w', documents w' = documents w → field_kept key field w w').
  { intros w w' E d Hd. rewrite E. eauto. }
  repeat apply conj; intros x w; apply Hsame.
  - by destruct (uploadFile_cases appwriteConfig x w) as (r & w1 & -> & ? & _).
  - by destruct (getFilePreview_reads appwriteConfig x w) as (_ & _ & ? & _).
  - by destruct (deleteFile_frame appwriteConfig x w) as (r & w1 & -> & _ & _ & ? & _).
Qed.

(** X11. The fields an update does not send stay: after [updatePost] the
    post, if it existed, still exists, and each of its fields other than
    [caption], [imageUrl], [imageId], [location] and [tags] (its creator,
    its likes) is as before; after [likePost] each field other than [likes]
    is as before. On every input and whatever the service answers. *)
Theorem updates_keep_the_fields_not_sent (w : World) (field : string)
    (d : gmap string fval) :
  (∀ post,
     field ∉ ["caption"; "imageUrl"; "imageId"; "location"; "tags"] →
     documents w !! (databaseId appwriteConfig, postCollectionId appwriteConfig,
                     IUpdatePost.postId post) = Some d →
     ∃ d', documents (updatePost appwriteConfig post w).2
             !! (databaseId appwriteConfig, postCollectionId appwriteConfig,
                 IUpdatePost.postId post) = Some d'
           ∧ d' !! field = d !! field)
  ∧ (∀ postId likesArray,
       field ≠ "likes" →
       documents w !! (databaseId appwriteConfig, postCollectionId appwriteConfig,
                       postId) = Some d →
       ∃ d', documents (likePost appwriteConfig postId likesArray w).2
               !! (databaseId appwriteConfig, postCollectionId appwriteConfig,
                   postId) = Some d'
             ∧ d' !! field = d !! field).
Proof.
  split.
  - intros post Hfield Hd.
    set (key := (databaseId appwriteConfig, postCollectionId appwriteConfig,
                 IUpdatePost.postId post)) in *.
    destruct (file_helpers_keep_fields key field) as (Hup & Hprev & Hdel).
    assert (Hkeeps : keeps (field_kept key field) (updatePost appwriteConfig post)).
    { unfold updatePost. keeps_steps; auto.
      all: apply updateDocument_keeps_field, obj_lookup_None; exact Hfield. }
    exact (Hkeeps w d Hd).
  - intros postId likesArray Hfield Hd.
    set (key := (databaseId appwriteConfig, postCollectionId appwriteConfig, postId)) in *.
    assert (Hkeeps : keeps (field_kept key field)
                       (likePost appwriteConfig postId likesArray)).
    { unfold likePost. keeps_steps.
      apply updateDocument_keeps_field, obj_lookup_None.
      cbn. by rewrite list_elem_of_singleton. }
    exact (Hkeeps w d Hd).
Qed.

(** The run of [likePost] when the update is fulfilled. *)
Lemma likePost_fulfilled (postId : string) (likesArray : list string) (w : World)
    (d : gmap string fval) :
  coming w = Fulfil →
  documents w !! (databaseId appwriteConfig, postCollectionId appwriteConfig, postId)
  = Some d →
  likePost appwriteConfig postId likesArray w =
  (Return (Some (mkDocument postId (<["likes" := FList likesArray]> d))),
   set_documents
     (<[(databaseId appwriteConfig, postCollectionId appwriteConfig, postId)
        := <["likes" := FList likesArray]> d]> (documents w))
     (called (databases_updateDocument (databaseId appwriteConfig)
                (postCollectionId appwriteConfig) postId
                (obj [("likes", Some (FList likesArray))])) w)).
Proof.
  intros Hf Hd. unfold likePost. async.
  erewrite updateDocument_fulfilled by eassumption. async.
  assert (E : obj [("likes", Some (FList likesArray))] ∪ d
              = <["likes" := FList likesArray]> d).
  { change (obj [("likes", Some (FList likesArray))])
      with (<["likes" := FList likesArray]> (∅ : gmap string fval)).
    by rewrite <- insert_union_l, (left_id_L ∅ (∪)). }
  by rewrite E.
Qed.

(** X12. [likePost] replaces the set of likes by the list it is given:
    fulfilled on a post that exists, it stores and returns the post with
    [likes] set to that list; when the update fails or the post does not
    exist it returns [undefined] and leaves every document as it was. *)
Theorem likePost_replaces_the_likes (postId : string) (likesArray : list string)
    (w : World) :
  let key := (databaseId appwriteConfig, postCollectionId appwriteConfig, postId) in
  let r := likePost appwriteConfig postId likesArray w in
  (∀ d, coming w = Fulfil → documents w !! key = Some d →
        r.1 = Return (Some (mkDocument postId (<["likes" := FList likesArray]> d)))
        ∧ documents r.2 = <[key := <["likes" := FList likesArray]> d]> (documents w))
  ∧ (coming w ≠ Fulfil ∨ documents w !! key = None →
     r.1 = Return None ∧ documents r.2 = documents w).
Proof.
  intros key r. subst r. split.
  - intros d Hf Hd. by rewrite (likePost_fulfilled _ _ _ d Hf Hd).
  - intros Hfail. unfold likePost. async.
    destruct (coming w) eqn:Hf.
    + destruct Hfail as [|Hmiss]; [done|].
      rewrite updateDocument_missing by done. async. done.
    + rewrite updateDocument_falsy by done. async. done.
    + rewrite updateDocument_rejected by done. async. done.
Qed.

(** X13. Liking twice with the same list is liking once: the second call
    stores and returns the document the first one stored (both updates
    being fulfilled). *)
Theorem likePost_twice (postId : string) (likesArray : list string) (w : World)
    (d : gmap string fval) :
  fate 0 w = Fulfil → fate 1 w = Fulfil →
  documents w !! (databaseId appwriteConfig, postCollectionId appwriteConfig, postId)
  = Some d →
  let r1 := likePost appwriteConfig postId likesArray w in
  let r2 := likePost appwriteConfig postId likesArray r1.2 in
  r2.1 = r1.1 ∧ documents r2.2 = documents r1.2.
Proof.
  intros H0 H1 Hd r1 r2. subst r2 r1.
  rewrite (likePost_fulfilled _ _ _ d H0 Hd). cbn [fst snd].
  erewrite likePost_fulfilled; [|exact H1|].
  2:{ cbn [documents set_documents]. apply lookup_insert_eq. }
  cbn [fst snd documents set_documents called].
  by rewrite !insert_insert_eq.
Qed.

(** The run of [savePost] when the creation is fulfilled. *)
Lemma savePost_fulfilled (userId postId : string) (w : World) :
  coming w = Fulfil →
  let id := fresh (ids_in_use w) in
  let data := obj [("user", Some (FStr userId)); ("post", Some (FStr postId))] in
  savePost appwriteConfig userId postId w =
  (Return (Some (mkDocument id data)),
   set_documents
     (<[(databaseId appwriteConfig, savesCollectionId appwriteConfig, id) := data]>
        (documents w))
     (called (databases_createDocument (databaseId appwriteConfig)
                (savesCollectionId appwriteConfig) id data) w)).
Proof.
  intros Hf id data. unfold savePost, ID_unique. async.
  rewrite createDocument_fulfilled; [by async|exact Hf|apply unique_no_document].
Qed.

(** X14. Saving a post and then deleting the record under the id
    [savePost] returned puts the documents back as they were (both calls
    being fulfilled). *)
Theorem savePost_then_deleteSavedPost (userId postId : string) (w : World) :
  fate 0 w = Fulfil → fate 1 w = Fulfil →
  ∃ record w1,
    savePost appwriteConfig userId postId w = (Return (Some record), w1)
    ∧ documents w1 !! (databaseId appwriteConfig, savesCollectionId appwriteConfig,
                       doc_id record)
      = Some (obj [("user", Some (FStr userId)); ("post", Some (FStr postId))])
    ∧ let r := deleteSavedPost appwriteConfig (doc_id record) w1 in
      r.1 = Return (Some (mkStatus "Ok")) ∧ documents r.2 = documents w.
Proof.
  intros H0 H1. eexists _, _.
  split; [by apply savePost_fulfilled|]. cbn [doc_id documents set_documents].
  split; [by rewrite lookup_insert_eq|].
  unfold deleteSavedPost. async. unfold databases.deleteDocument.
  erewrite remote_fulfilled; [| exact H1 |].
  2:{ cbn [documents set_documents called]. rewrite lookup_insert_eq. reflexivity. }
  async. cbn [documents set_documents called]. split; [done|].
  apply delete_insert_id, unique_no_document.
Qed.

(** X15. [savePost] does not look for an existing record: saving the same
    post twice stores two records with different ids and the same fields
    (both creations being fulfilled). *)
Theorem savePost_twice_stores_two_records (userId postId : string) (w : World) :
  fate 0 w = Fulfil → fate 1 w = Fulfil →
  ∃ r1 r2 w1 w2,
    savePost appwriteConfig userId postId w = (Return (Some r1), w1)
    ∧ savePost appwriteConfig userId postId w1 = (Return (Some r2), w2)
    ∧ doc_id r1 ≠ doc_id r2
    ∧ doc_fields r1 = doc_fields r2
    ∧ documents w2 !! (databaseId appwriteConfig, savesCollectionId appwriteConfig,
                       doc_id r1) = Some (doc_fields r1)
    ∧ documents w2 !! (databaseId appwriteConfig, savesCollectionId appwriteConfig,
                       doc_id r2) = Some (doc_fields r2).
Proof.
  intros H0 H1. eexists _, _, _, _.
  split; [by apply savePost_fulfilled|].
  split; [by apply savePost_fulfilled|].
  cbn [doc_id doc_fields documents set_documents].
  match goal with
  | |- fresh (ids_in_use w) ≠ fresh (ids_in_use ?w1) ∧ _ =>
      assert (Hne : fresh (ids_in_use w) ≠ fresh (ids_in_use w1))
  end.
  { intros E.
    match type of E with
    | _ = fresh (ids_in_use ?w1) =>
        apply (unique_not_in_use w1); rewrite <- E;
        apply (document_in_use w1 (databaseId appwriteConfig)
                 (savesCollectionId appwriteConfig))
    end.
    cbn [documents set_documents]. rewrite lookup_insert_eq. eauto. }
  split; [exact Hne|]. split; [done|]. split.
  - rewrite lookup_insert_ne by congruence. by rewrite lookup_insert_eq.
  - by rewrite lookup_insert_eq.
Qed.

(** X16. Deleting what is not there changes nothing: [deleteSavedPost] on
    a record that does not exist returns [undefined], and [deleteFile] on a
    file that is not in the bucket does so when the call is fulfilled or
    rejected; in both, accounts, session, documents and files are as
    before. *)
Theorem deleting_what_is_missing_changes_nothing (w : World) :
  (∀ savedRecordId,
     documents w !! (databaseId appwriteConfig, savesCollectionId appwriteConfig,
                     savedRecordId) = None →
     let r := deleteSavedPost appwriteConfig savedRecordId w in
     r.1 = Return None ∧ same_service w r.2)
  ∧ (∀ fileId,
       files w !! (storageId appwriteConfig, fileId) = None →
       let r := deleteFile appwriteConfig fileId w in
       same_service w r.2 ∧ (coming w ≠ Falsy → r.1 = Return None)).
Proof.
  split.
  - intros id Hmiss r. subst r. unfold deleteSavedPost. async.
    unfold databases.deleteDocument, remote.
    destruct (coming w); cbn [documents called]; rewrite ?Hmiss; by repeat split.
  - intros id Hmiss r. subst r. unfold deleteFile. async.
    unfold storage.deleteFile, remote.
    destruct (coming w); cbn [files called]; rewrite ?Hmiss; by repeat split.
Qed.

End Likes.

(** ** Signing up *)

Section SignUp.

Variable appwriteConfig : Config.

(** X17. When the account, the avatar and the profile document are all
    fulfilled, [createUserAccount] stores one new account with the email,
    password and name given, and one new profile document that carries the
    id of that account, its email and name, the username given and the
    initials avatar; it returns that document and changes nothing else. *)
Theorem createUserAccount_creates_account_and_profile (user : INewUser.t) (w : World) :
  fate 0 w = Fulfil → fate 1 w = Fulfil → fate 2 w = Fulfil →
  let a := fresh (ids_in_use w) in
  let r := createUserAccount appwriteConfig user w in
  ∃ id d,
    r.1 = Return (NewUser (Some (mkDocument id d)))
    ∧ accounts w !! a = None
    ∧ accounts r.2 = <[a := mkAccount a (INewUser.email user) (INewUser.password user)
                              (INewUser.name user)]> (accounts w)
    ∧ documents w !! (databaseId appwriteConfig, userCollectionId appwriteConfig, id)
      = None
    ∧ documents r.2 = <[(databaseId appwriteConfig, userCollectionId appwriteConfig, id)
                         := d]> (documents w)
    ∧ d = obj [("accountId", Some (FStr a));
               ("email", Some (FStr (INewUser.email user)));
               ("name", Some (FStr (INewUser.name user)));
               ("imageUrl", Some (FUrl (Initials (INewUser.name user))));
               ("username", Some (FStr (INewUser.username user)))]
    ∧ files r.2 = files w ∧ session r.2 = session w.
Proof.
  intros H0 H1 H2 a r. subst r.
  unfold createUserAccount, ID_unique. async. fold a.
  unfold account.create. erewrite remote_fulfilled; [|exact H0|reflexivity]. async.
  unfold avatars.getInitials. erewrite remote_fulfilled; [|exact H1|reflexivity]. async.
  unfold saveUserToDB, ID_unique. async.
  match goal with
  | |- context [databases.createDocument ?db ?coll (fresh (ids_in_use ?w2)) ?data ?w2'] =>
      rewrite (createDocument_fulfilled db coll (fresh (ids_in_use w2)) data w2' H2
                 (unique_no_document w2 db coll));
      pose proof (unique_no_document w2 db coll) as Hnone
  end.
  async. eexists _, _. split; [reflexivity|].
  cbn [accounts documents files session set_documents set_accounts called] in *.
  split.
  { destruct (accounts w !! a) eqn:E; [|done]. exfalso.
    apply (unique_not_in_use w). unfold ids_in_use.
    do 3 apply elem_of_union_l. apply elem_of_dom. eexists. exact E. }
  repeat split. exact Hnone.
Qed.

(** X18. [createUserAccount] does not undo the account: when the account
    is created and a later step fails (the avatar call is rejected, or the
    profile document is not created), the account stays stored although no
    profile document exists for it and no document is returned. *)
Theorem createUserAccount_keeps_account_when_profile_fails (user : INewUser.t)
    (w : World) :
  fate 0 w = Fulfil → fate 1 w = Reject ∨ fate 2 w ≠ Fulfil →
  let a := fresh (ids_in_use w) in
  let r := createUserAccount appwriteConfig user w in
  (∃ o, r.1 = Return o ∧ signed_up o = false)
  ∧ accounts r.2 !! a
    = Some (mkAccount a (INewUser.email user) (INewUser.password user)
              (INewUser.name user))
  ∧ documents r.2 = documents w.
Proof.
  intros H0 Hfail a r. subst r.
  unfold createUserAccount, ID_unique. async. fold a.
  unfold account.create. erewrite remote_fulfilled; [|exact H0|reflexivity]. async.
  unfold avatars.getInitials, remote.
  match goal with
  | |- context [coming ?w1] => change (coming w1) with (fate 1 w)
  end.
  assert (Hsave : ∀ u w2, fate 2 w ≠ Fulfil → coming w2 = fate 2 w →
            ∃ w3, saveUserToDB appwriteConfig u w2 = (Return None, w3)
                  ∧ accounts w3 = accounts w2 ∧ documents w3 = documents w2).
  { intros u w2 Hne Hc. unfold saveUserToDB, ID_unique. async.
    unfold databases.createDocument, remote. rewrite Hc.
    destruct (fate 2 w); [done| |]; eexists; by repeat split. }
  destruct (fate 1 w) eqn:H1.
  - destruct Hfail as [|H2]; [done|]. cbv beta iota.
    match goal with
    | |- context [saveUserToDB _ ?u ?w2] =>
        destruct (Hsave u w2 H2 eq_refl) as (w3 & -> & Ha & Hd)
    end.
    cbn [fst snd]. split; [by eexists|]. rewrite Ha, Hd.
    cbn [accounts documents set_accounts called]. split; [|done].
    by rewrite lookup_insert_eq.
  - destruct Hfail as [|H2]; [done|]. cbv beta iota.
    match goal with
    | |- context [saveUserToDB _ ?u ?w2] =>
        destruct (Hsave u w2 H2 eq_refl) as (w3 & -> & Ha & Hd)
    end.
    cbn [fst snd]. split; [by eexists|]. rewrite Ha, Hd.
    cbn [accounts documents set_accounts called]. split; [|done].
    by rewrite lookup_insert_eq.
  - cbn [fst snd accounts documents logged set_accounts called].
    split; [by eexists|]. split; [|done]. by rewrite lookup_insert_eq.
Qed.

End SignUp.

(** ** Updates: the upload or the preview fails *)

Section UpdateStops.

Variable appwriteConfig : Config.

Lemma updatePost_upload_fails (post : IUpdatePost.t) (w : World) (f : File)
    (fs : list File) :
  IUpdatePost.file post = f :: fs → fate 0 w ≠ Fulfil →
  let r := updatePost appwriteConfig post w in
  r.1 = Return None ∧ same_service w r.2
  ∧ calls r.2 = calls w ++
      [storage_createFile (storageId appwriteConfig) (fresh (ids_in_use w)) (Some f)].
Proof.
  intros Hfile H0 r. subst r. unfold updatePost. rewrite Hfile.
  change ((f :: fs) !! 0%nat) with (Some f). async.
  destruct (fate 0 w) eqn:E; [done| |].
  - rewrite uploadFile_falsy by exact E. async. by repeat split.
  - rewrite uploadFile_rejected by exact E. async. by repeat split.
Qed.

Lemma updateUser_upload_fails (user : IUpdateUser.t) (w : World) (f : File)
    (fs : list File) :
  IUpdateUser.file user = f :: fs → fate 0 w ≠ Fulfil →
  let r := updateUser appwriteConfig user w in
  r.1 = Return None ∧ same_service w r.2
  ∧ calls r.2 = calls w ++
      [storage_createFile (storageId appwriteConfig) (fresh (ids_in_use w)) (Some f)].
Proof.
  intros Hfile H0 r. subst r. unfold updateUser. rewrite Hfile.
  change ((f :: fs) !! 0%nat) with (Some f). async.
  destruct (fate 0 w) eqn:E; [done| |].
  - rewrite uploadFile_falsy by exact E. async. by repeat split.
  - rewrite uploadFile_rejected by exact E. async. by repeat split.
Qed.

Lemma updatePost_preview_fails (post : IUpdatePost.t) (w : World) (f : File)
    (fs : list File) :
  IUpdatePost.file post = f :: fs → fate 0 w = Fulfil → fate 1 w ≠ Fulfil →
  let new := fresh (ids_in_use w) in
  let r := updatePost appwriteConfig post w in
  r.1 = Return None
  ∧ documents r.2 = documents w
  ∧ calls r.2 = calls w ++
      [storage_createFile (storageId appwriteConfig) new (Some f);
       storage_getFilePreview (storageId appwriteConfig) new 2000 2000 "top" 100;
       storage_deleteFile (storageId appwriteConfig) new]
  ∧ (fate 2 w = Fulfil → files r.2 = files w).
Proof.
  intros Hfile H0 H1 new r. subst r.
  unfold updatePost. rewrite Hfile. change ((f :: fs) !! 0%nat) with (Some f). async.
  rewrite uploadFile_fulfilled by exact H0. async. fold new.
  match goal with
  | |- context [getFilePreview ?c ?i ?w1] =>
      destruct (getFilePreview_failed c i w1 H1) as [e ->]
  end.
  async.
  match goal with
  | |- context [deleteFile ?c ?i ?w3] =>
      pose proof (deleteFile_frame c i w3) as (s & w' & Hrun & _ & _ & Hdocs & Hcalls & _ & Hfiles);
      pose proof (deleteFile_fulfilled c i w3) as Hdel;
      destruct (deleteFile c i w3) as [o w'']
  end.
  injection Hrun as -> ->. cbn [fst snd logged documents files calls].
  cbn [documents files calls called logged set_files] in Hdocs, Hcalls, Hfiles, Hdel.
  split; [done|]. split; [done|]. split.
  - rewrite Hcalls. by rewrite <- !app_assoc.
  - intros H2. specialize (Hdel H2). rewrite lookup_insert_eq in Hdel.
    specialize (Hdel (ltac:(eauto))). injection Hdel as _ ->.
    cbn [files set_files]. apply delete_insert_id, unique_no_file.
Qed.

Lemma updateUser_preview_fails (user : IUpdateUser.t) (w : World) (f : File)
    (fs : list File) :
  IUpdateUser.file user = f :: fs → fate 0 w = Fulfil → fate 1 w ≠ Fulfil →
  let new := fresh (ids_in_use w) in
  let r := updateUser appwriteConfig user w in
  r.1 = Return None
  ∧ documents r.2 = documents w
  ∧ calls r.2 = calls w ++
      [storage_createFile (storageId appwriteConfig) new (Some f);
       storage_getFilePreview (storageId appwriteConfig) new 2000 2000 "top" 100;
       storage_deleteFile (storageId appwriteConfig) new]
  ∧ (fate 2 w = Fulfil → files r.2 = files w).
Proof.
  intros Hfile H0 H1 new r. subst r.
  unfold updateUser. rewrite Hfile. change ((f :: fs) !! 0%nat) with (Some f). async.
  rewrite uploadFile_fulfilled by exact H0. async. fold new.
  match goal with
  | |- context [getFilePreview ?c ?i ?w1] =>
      destruct (getFilePreview_failed c i w1 H1) as [e ->]
  end.
  async.
  match goal with
  | |- context [deleteFile ?c ?i ?w3] =>
      pose proof (deleteFile_frame c i w3) as (s & w' & Hrun & _ & _ & Hdocs & Hcalls & _ & Hfiles);
      pose proof (deleteFile_fulfilled c i w3) as Hdel;
      destruct (deleteFile c i w3) as [o w'']
  end.
  injection Hrun as -> ->. cbn [fst snd logged documents files calls].
  cbn [documents files calls called logged set_files] in Hdocs, Hcalls, Hfiles, Hdel.
  split; [done|]. split; [done|]. split.
  - rewrite Hcalls. by rewrite <- !app_assoc.
  - intros H2. specialize (Hdel H2). rewrite lookup_insert_eq in Hdel.
    specialize (Hdel (ltac:(eauto))). injection Hdel as _ ->.
    cbn [files set_files]. apply delete_insert_id, unique_no_file.
Qed.

(** X19. An update with a new image never reaches the document when the
    upload or the preview fails. When the upload fails, the upload is the
    only call issued and the service is as before. When the preview fails,
    the calls are the upload, the preview and the deletion of the file just
    uploaded; no document changes, and once the deletion is fulfilled the
    bucket is as before. In both the workflow returns [undefined]. *)
Theorem update_stops_when_upload_or_preview_fails (w : World) (f : File)
    (fs : list File) :
  (∀ post, IUpdatePost.file post = f :: fs → fate 0 w ≠ Fulfil →
     let r := updatePost appwriteConfig post w in
     r.1 = Return None ∧ same_service w r.2
     ∧ calls r.2 = calls w ++
         [storage_createFile (storageId appwriteConfig) (fresh (ids_in_use w)) (Some f)])
  ∧ (∀ user, IUpdateUser.file user = f :: fs → fate 0 w ≠ Fulfil →
       let r := updateUser appwriteConfig user w in
       r.1 = Return None ∧ same_service w r.2
       ∧ calls r.2 = calls w ++
           [storage_createFile (storageId appwriteConfig) (fresh (ids_in_use w))
              (Some f)])
  ∧ (∀ post, IUpdatePost.file post = f :: fs → fate 0 w = Fulfil → fate 1 w ≠ Fulfil →
       let new := fresh (ids_in_use w) in
       let r := updatePost appwriteConfig post w in
       r.1 = Return None
       ∧ documents r.2 = documents w
       ∧ calls r.2 = calls w ++
           [storage_createFile (storageId appwriteConfig) new (Some f);
            storage_getFilePreview (storageId appwriteConfig) new 2000 2000 "top" 100;
            storage_deleteFile (storageId appwriteConfig) new]
       ∧ (fate 2 w = Fulfil → files r.2 = files w))
  ∧ (∀ user, IUpdateUser.file user = f :: fs → fate 0 w = Fulfil → fate 1 w ≠ Fulfil →
       let new := fresh (ids_in_use w) in
       let r := updateUser appwriteConfig user w in
       r.1 = Return None
       ∧ documents r.2 = documents w
       ∧ calls r.2 = calls w ++
           [storage_createFile (storageId appwriteConfig) new (Some f);
            storage_getFilePreview (storageId appwriteConfig) new 2000 2000 "top" 100;
            storage_deleteFile (storageId appwriteConfig) new]
       ∧ (fate 2 w = Fulfil → files r.2 = files w)).
Proof.
  repeat apply conj; intros.
  - by eapply updatePost_upload_fails.
  - by eapply updateUser_upload_fails.
  - by eapply updatePost_preview_fails.
  - by eapply updateUser_preview_fails.
Qed.

(** X20. The first image of a profile: [updateUser] with a new image and
    an empty old image id issues no deletion. When the upload, the preview
    and the update are fulfilled, the calls are these three, the new file
    joins the bucket, no file leaves it, and the profile refers to the new
    file. *)
Theorem updateUser_first_image_deletes_nothing (user : IUpdateUser.t) (w : World)
    (f : File) (fs : list File) (d : gmap string fval) :
  IUpdateUser.file user = f :: fs → IUpdateUser.imageId user = "" →
  fate 0 w = Fulfil → fate 1 w = Fulfil → fate 2 w = Fulfil →
  documents w !! (databaseId appwriteConfig, userCollectionId appwriteConfig,
                  IUpdateUser.userId user) = Some d →
  let new := fresh (ids_in_use w) in
  let r := updateUser appwriteConfig user w in
  (∃ d', r.1 = Return (Some (mkDocument (IUpdateUser.userId user) d'))
         ∧ documents r.2 !! (databaseId appwriteConfig, userCollectionId appwriteConfig,
                             IUpdateUser.userId user) = Some d'
         ∧ d' !! "imageId" = Some (FStr new))
  ∧ files r.2 = <[(storageId appwriteConfig, new) := f]> (files w)
  ∧ (∃ data,
       calls r.2 = calls w ++
         [storage_createFile (storageId appwriteConfig) new (Some f);
          storage_getFilePreview (storageId appwriteConfig) new 2000 2000 "top" 100;
          databases_updateDocument (databaseId appwriteConfig)
            (userCollectionId appwriteConfig) (IUpdateUser.userId user) data]).
Proof.
  intros Hfile Hid H0 H1 H2 Hd new r. subst r.
  unfold updateUser. rewrite Hfile, Hid.
  change ((f :: fs) !! 0%nat) with (Some f). cbn [Js.truthy]. async.
  rewrite uploadFile_fulfilled by exact H0. async.
  rewrite getFilePreview_fulfilled by exact H1. async. fold new.
  erewrite updateDocument_fulfilled by (exact H2 || exact Hd). async.
  cbn [documents files calls set_documents set_files called].
  split; [|split].
  - eexists. split; [reflexivity|]. split; [by rewrite lookup_insert_eq|].
    apply lookup_union_Some_l. reflexivity.
  - done.
  - eexists. by rewrite <- !app_assoc.
Qed.

End UpdateStops.

(** ** Listings *)

Section ListingResults.

Variable appwriteConfig : Config.
Variable select : list Query.t → list Document → list Document.

(** A listing wrapped as the workflows wrap it. *)
Lemma listing_run (db coll : string) (queries : list Query.t) (w : World) :
  try_catch
    (databases.listDocuments select db coll queries ≫= λ posts,
       match posts with
       | None => throw ErrorCtor
       | Some posts => mret (Some posts)
       end)
    log_and_return_undefined w
  = match coming w with
    | Fulfil => (Return (Some (select queries (collection w db coll))),
                 called (databases_listDocuments db coll queries) w)
    | Falsy => (Return None,
                logged ErrorCtor (called (databases_listDocuments db coll queries) w))
    | Reject => (Return None,
                 logged (AppwriteException (databases_listDocuments db coll queries))
                   (called (databases_listDocuments db coll queries) w))
    end.
Proof.
  async. unfold databases.listDocuments, remote. by destruct (coming w).
Qed.

(** X21. A listing returns the documents the service selected for its
    queries, also when there are none, and [undefined] only when the call
    is not fulfilled: the recent posts (newest first, 20 at most), the
    search on the caption, the posts of a creator (newest first). With the
    user id absent or empty [getUserPosts] returns [undefined] at once and
    issues no call. *)
Theorem listings_return_the_selection (w : World) :
  (getRecentPosts appwriteConfig select w).1
  = (match coming w with
     | Fulfil => Return (Some (select [Query.orderDesc "$createdAt"; Query.limit 20]
                          (collection w (databaseId appwriteConfig)
                             (postCollectionId appwriteConfig))))
     | _ => Return None
     end)
  ∧ (∀ searchTerm,
       (searchPosts appwriteConfig select searchTerm w).1
       = (match coming w with
          | Fulfil => Return (Some (select [Query.search "caption" searchTerm]
                               (collection w (databaseId appwriteConfig)
                                  (postCollectionId appwriteConfig))))
          | _ => Return None
          end))
  ∧ (∀ userId, userId ≠ "" →
       (getUserPosts appwriteConfig select (Some userId) w).1
       = (match coming w with
          | Fulfil => Return (Some (select [Query.equal "creator" userId;
                                     Query.orderDesc "$createdAt"]
                               (collection w (databaseId appwriteConfig)
                                  (postCollectionId appwriteConfig))))
          | _ => Return None
          end))
  ∧ getUserPosts appwriteConfig select None w = (Return None, w)
  ∧ getUserPosts appwriteConfig select (Some "") w = (Return None, w).
Proof.
  repeat apply conj.
  - unfold getRecentPosts. rewrite listing_run. by destruct (coming w).
  - intros t. unfold searchPosts. rewrite listing_run. by destruct (coming w).
  - intros u Hu. destruct u as [|c u]; [done|].
    unfold getUserPosts. cbn [Js.truthy negb default from_option id].
    rewrite listing_run. by destruct (coming w).
  - reflexivity.
  - reflexivity.
Qed.

(** X22. [getCurrentUser] returns the first profile the service selects
    for the account of the session, and [undefined] when it selects none.
    Without a session, or when the account call is not fulfilled, it returns
    [undefined] and issues no listing. *)
Theorem getCurrentUser_returns_first_profile (w : World) :
  let r := getCurrentUser appwriteConfig select w in
  (∀ id a, session w = Some id → accounts w !! id = Some a →
           fate 0 w = Fulfil → fate 1 w = Fulfil →
           r.1 = Return (select [Query.equal "accountId" (acc_id a)]
                           (collection w (databaseId appwriteConfig)
                              (userCollectionId appwriteConfig)) !! 0%nat))
  ∧ (session w = None ∨ fate 0 w ≠ Fulfil →
     r.1 = Return None ∧ calls r.2 = calls w ++ [account_get]).
Proof.
  intros r. subst r. split.
  - intros id a Hs Ha H0 H1. unfold getCurrentUser. async.
    unfold account.get. erewrite remote_fulfilled; [|exact H0|].
    2:{ cbn [session accounts called]. rewrite Hs, Ha. reflexivity. }
    async. unfold databases.listDocuments.
    erewrite remote_fulfilled; [|exact H1|reflexivity]. by async.
  - intros Hfail. unfold getCurrentUser. async. unfold account.get, remote.
    change (coming w) with (fate 0 w).
    destruct (fate 0 w) eqn:H0; [|done|done].
    destruct Hfail as [Hs|]; [|done].
    cbn [session accounts called]. by rewrite Hs.
Qed.

End ListingResults.

(** ** Tags: how many, and the round trip through the edit form *)

Lemma split_length (s : string) : List.length (Js.split "," s) = S (commas s).
Proof.
  induction s as [|c s IH]; [reflexivity|]. cbn [Js.split commas].
  destruct (Ascii.eqb c ","); cbn [List.length]; [by rewrite IH|].
  pose proof (split_not_nil "," s).
  destruct (Js.split "," s); [done|]. cbn [List.length] in *. exact IH.
Qed.

Lemma commas_replace_spaces (s : string) : commas (Js.replace_spaces s) = commas s.
Proof.
  induction s as [|c s IH]; [reflexivity|]. cbn [Js.replace_spaces commas].
  destruct (Ascii.eqb_spec c " ") as [->|Hc]; cbn [commas]; by rewrite IH.
Qed.

(** X23. A tags string gives one tag more than it has commas: whatever
    the string, the tag list is not empty. *)
Theorem normalizeTags_one_more_than_commas (s : string) :
  List.length (normalizeTags (Some s)) = S (commas s)
  ∧ normalizeTags (Some s) ≠ [].
Proof.
  unfold normalizeTags. split.
  - by rewrite split_length, commas_replace_spaces.
  - apply split_not_nil.
Qed.

Lemma split_app (sep : ascii) (t rest : string) :
  Js.occurs sep t = false →
  Js.split sep (t ++ String sep rest)%string = t :: Js.split sep rest.
Proof.
  induction t as [|c t IH]; simpl.
  - intros _. by rewrite Ascii.eqb_refl.
  - intros [Hc Ht]%orb_false_iff. rewrite Hc, (IH Ht). reflexivity.
Qed.

Lemma split_whole (sep : ascii) (t : string) :
  Js.occurs sep t = false → Js.split sep t = [t].
Proof.
  induction t as [|c t IH]; simpl; [done|].
  intros [Hc Ht]%orb_false_iff. by rewrite Hc, (IH Ht).
Qed.

(** Splitting what was joined gives the pieces back. *)
Lemma split_join (sep : ascii) (l : list string) :
  l ≠ [] → (∀ t, t ∈ l → Js.occurs sep t = false) →
  Js.split sep (Js.join (String sep EmptyString) l) = l.
Proof.
  induction l as [|t l IH]; [done|]. intros _ Hl.
  destruct l as [|t' l].
  - cbn [Js.join]. apply split_whole, Hl. left.
  - change (Js.join (String sep "") (t :: t' :: l))
      with (t ++ String sep (Js.join (String sep "") (t' :: l)))%string.
    rewrite split_app by (apply Hl; left).
    f_equal. apply IH; [done|]. intros u Hu. apply Hl. by right.
Qed.

Lemma occurs_app (c : ascii) (s t : string) :
  Js.occurs c (s ++ t)%string = Js.occurs c s || Js.occurs c t.
Proof.
  induction s as [|d s IH]; simpl; [done|].
  by rewrite IH, orb_assoc.
Qed.

Lemma occurs_join (c : ascii) (sep : string) (l : list string) :
  Js.occurs c sep = false → (∀ t, t ∈ l → Js.occurs c t = false) →
  Js.occurs c (Js.join sep l) = false.
Proof.
  intros Hsep. induction l as [|t l IH]; intros Hl; [done|].
  destruct l as [|t' l].
  - cbn [Js.join]. apply Hl. left.
  - change (Js.join sep (t :: t' :: l))
      with (t ++ sep ++ Js.join sep (t' :: l))%string.
    rewrite !occurs_app, Hsep, (Hl t) by left. cbn [orb].
    apply IH. intros u Hu. apply Hl. by right.
Qed.

(** X24. The tags survive the edit form: the form shows the tags of the
    post joined with commas, and normalising that string gives the tags
    back, provided the post has a tag and no tag contains a comma or a
    space. For a post without tags the form shows the empty string, which
    normalises to the list of one empty tag. *)
Theorem tags_survive_the_edit_form (tags : list string) :
  (tags ≠ [] →
   (∀ t, t ∈ tags → Js.occurs " " t = false ∧ Js.occurs "," t = false) →
   normalizeTags (Some (defaultTags (Some tags))) = tags)
  ∧ normalizeTags (Some (defaultTags (Some []))) = [""]
  ∧ normalizeTags (Some (defaultTags None)) = [""].
Proof.
  split; [|by split].
  intros Hne Hclean. unfold normalizeTags, defaultTags.
  rewrite replace_spaces_id.
  - apply split_join; [done|]. intros t Ht. by apply Hclean.
  - apply occurs_join; [done|]. intros t Ht. by apply Hclean.
Qed.

(** ** No call is issued twice: bounds on the calls of a workflow *)

Section Issues.

Lemma issues_mret {A : Type} (n : nat) (a : A) : issues_at_most n (mret a : Async A).
Proof. intros w. exists []. split; [by rewrite app_nil_r|cbn; lia]. Qed.

Lemma issues_throw {A : Type} (n : nat) (e : Err) : issues_at_most n (@throw A e).
Proof. intros w. exists []. split; [by rewrite app_nil_r|cbn; lia]. Qed.

Lemma issues_console_log (n : nat) (e : Err) : issues_at_most n (console_log e).
Proof. intros w. exists []. split; [by rewrite app_nil_r|cbn; lia]. Qed.

Lemma issues_log_and_return_undefined {A : Type} (n : nat) (e : Err) :
  issues_at_most n (@log_and_return_undefined A e).
Proof. intros w. exists []. split; [by rewrite app_nil_r|cbn; lia]. Qed.

Lemma issues_ID_unique (n : nat) : issues_at_most n ID_unique.
Proof. intros w. exists []. split; [by rewrite app_nil_r|cbn; lia]. Qed.

Lemma issues_bind {A B : Type} (n1 n2 : nat) (m : Async A) (k : A → Async B) :
  issues_at_most n1 m → (∀ a, issues_at_most n2 (k a)) →
  issues_at_most (n1 + n2) (m ≫= k).
Proof.
  intros Hm Hk w. rewrite bind_run. destruct (Hm w) as (l1 & E1 & L1).
  destruct (m w) as [[a|e] w1]; cbn [snd] in *.
  - destruct (Hk a w1) as (l2 & E2 & L2). exists (l1 ++ l2).
    rewrite E2, E1, app_assoc, length_app. split; [done|lia].
  - exists l1. split; [done|lia].
Qed.

Lemma issues_bind_S {A B : Type} (n : nat) (m : Async A) (k : A → Async B) :
  issues_at_most 1 m → (∀ a, issues_at_most n (k a)) →
  issues_at_most (S n) (m ≫= k).
Proof. apply (issues_bind 1 n). Qed.

Lemma issues_bind_0 {A B : Type} (n : nat) (m : Async A) (k : A → Async B) :
  issues_at_most 0 m → (∀ a, issues_at_most n (k a)) →
  issues_at_most n (m ≫= k).
Proof. apply (issues_bind 0 n). Qed.

Lemma issues_try_catch {A : Type} (n : nat) (body : Async A) (handler : Err → Async A) :
  issues_at_most n body → (∀ e, issues_at_most 0 (handler e)) →
  issues_at_most n (try_catch body handler).
Proof.
  intros Hb Hh w. unfold try_catch. destruct (Hb w) as (l1 & E1 & L1).
  destruct (body w) as [[a|e] w1]; cbn [snd] in *; [by exists l1|].
  destruct (Hh e w1) as (l2 & E2 & L2). exists l1.
  destruct l2; [|cbn in L2; lia]. rewrite app_nil_r in E2. by rewrite E2.
Qed.

(** A call is one call, when its effect leaves the trace alone. *)
Lemma issues_remote {A : Type} (n : nat) (c : Call) (effect : World → option (A * World)) :
  (∀ w a w2, effect w = Some (a, w2) → calls w2 = calls w) →
  issues_at_most (S n) (remote c effect).
Proof.
  intros He w. exists [c]. split; [|cbn; lia]. unfold remote.
  destruct (coming w); cbn [snd calls called]; try done.
  destruct (effect (called c w)) as [[a w2]|] eqn:E; cbn [snd]; [|done].
  by rewrite (He _ _ _ E).
Qed.

Lemma issues_split_mret {A : Type} (nr nt : nat) (a : A) :
  issues_split nr nt (mret a : Async A).
Proof. intros w. exists []. split; [by rewrite app_nil_r|cbn; lia]. Qed.

Lemma issues_split_throw {A : Type} (nr nt : nat) (e : Err) :
  issues_split nr nt (@throw A e).
Proof. intros w. exists []. split; [by rewrite app_nil_r|cbn; lia]. Qed.

(** One step, then the rest. *)
Lemma issues_split_bind {A B : Type} (nr nt : nat) (m : Async A) (k : A → Async B) :
  issues_at_most 1 m → (∀ a, issues_split nr nt (k a)) →
  issues_split (S nr) (S nt) (m ≫= k).
Proof.
  intros Hm Hk w. rewrite bind_run. destruct (Hm w) as (l1 & E1 & L1).
  destruct (m w) as [[a|e] w1]; cbn [fst snd] in *.
  - destruct (Hk a w1) as (l2 & E2 & L2). exists (l1 ++ l2).
    rewrite E2, E1, app_assoc, length_app. split; [done|].
    destruct ((k a w1).1); lia.
  - exists l1. split; [done|lia].
Qed.

(** One step, then a throw: the workflow does not return. *)
Lemma issues_split_bind_throw {A B : Type} (nr nt : nat) (m : Async A) (e : Err) :
  issues_at_most nt m → issues_split nr nt (m ≫= λ _, @throw B e).
Proof.
  intros Hm w. rewrite bind_run. destruct (Hm w) as (l1 & E1 & L1).
  destruct (m w) as [[a|e'] w1]; cbn [fst snd throw] in *; by exists l1.
Qed.

(** What returned cheaply goes on; what threw has stopped. *)
Lemma issues_bind_split {A B : Type} (n nr nt c : nat) (m : Async A) (k : A → Async B) :
  issues_split nr nt m → (∀ a, issues_at_most c (k a)) →
  (nr + c ≤ n)%nat → (nt ≤ n)%nat →
  issues_at_most n (m ≫= k).
Proof.
  intros Hm Hk Hr Ht w. rewrite bind_run. destruct (Hm w) as (l1 & E1 & L1).
  destruct (m w) as [[a|e] w1]; cbn [fst snd] in *.
  - destruct (Hk a w1) as (l2 & E2 & L2). exists (l1 ++ l2).
    rewrite E2, E1, app_assoc, length_app. split; [done|lia].
  - exists l1. split; [done|lia].
Qed.

End Issues.

(** Solves [issues_at_most (S n) call] for a call of the SDK. *)
Ltac issues_call :=
  apply issues_remote;
  let w := fresh "w" in let a := fresh "a" in let w2 := fresh "w2" in
  intros w a w2;
  repeat match goal with
         | |- context [match ?x with _ => _ end] => destruct x eqn:?
         end;
  intros [= <- <-] || intros [=]; reflexivity.

Lemma sdk_calls_are_one_call (n : nat) :
  (∀ i e p m, issues_at_most (S n) (account.create i e p m))
  ∧ (∀ e p, issues_at_most (S n) (account.createEmailPasswordSession e p))
  ∧ issues_at_most (S n) account.get
  ∧ (∀ s, issues_at_most (S n) (account.deleteSession s))
  ∧ (∀ m, issues_at_most (S n) (avatars.getInitials m))
  ∧ (∀ db coll id data, issues_at_most (S n) (databases.createDocument db coll id data))
  ∧ (∀ db coll id, issues_at_most (S n) (databases.getDocument db coll id))
  ∧ (∀ select db coll q, issues_at_most (S n) (databases.listDocuments select db coll q))
  ∧ (∀ db coll id data, issues_at_most (S n) (databases.updateDocument db coll id data))
  ∧ (∀ db coll id, issues_at_most (S n) (databases.deleteDocument db coll id))
  ∧ (∀ b i f, issues_at_most (S n) (storage.createFile b i f))
  ∧ (∀ b i wd h g q, issues_at_most (S n) (storage.getFilePreview b i wd h g q))
  ∧ (∀ b i, issues_at_most (S n) (storage.deleteFile b i)).
Proof.
  repeat apply conj; intros.
  - unfold account.create. issues_call.
  - unfold account.createEmailPasswordSession. issues_call.
  - unfold account.get. issues_call.
  - unfold account.deleteSession. issues_call.
  - unfold avatars.getInitials. issues_call.
  - unfold databases.createDocument. issues_call.
  - unfold databases.getDocument. issues_call.
  - unfold databases.listDocuments. issues_call.
  - unfold databases.updateDocument. issues_call.
  - unfold databases.deleteDocument. issues_call.
  - unfold storage.createFile. issues_call.
  - unfold storage.getFilePreview. issues_call.
  - unfold storage.deleteFile. issues_call.
Qed.

(** Splits a workflow into its steps and counts the calls. *)
Ltac issues_leaf :=
  first
    [ apply issues_mret | apply issues_throw | apply issues_console_log
    | apply issues_log_and_return_undefined | apply issues_ID_unique
    | apply sdk_calls_are_one_call ].

Ltac issues_steps helper :=
  repeat first
    [ match goal with |- ∀ _, _ => intro end
    | progress cbv beta iota zeta
    | match goal with
      | |- issues_at_most _ (try_catch _ _) => apply issues_try_catch
      | |- issues_at_most _ (mret _) => apply issues_mret
      | |- issues_at_most _ (throw _) => apply issues_throw
      | |- issues_at_most _ (console_log _) => apply issues_console_log
      | |- issues_at_most _ (log_and_return_undefined _) =>
          apply issues_log_and_return_undefined
      | |- issues_at_most _ ID_unique => apply issues_ID_unique
      | |- issues_at_most _ (mbind _ ID_unique) => apply issues_bind_0
      | |- issues_at_most _ (mbind _ (console_log _)) => apply issues_bind_0
      | |- issues_at_most _ (mbind _ (mret _)) => apply issues_bind_0
      | |- issues_at_most _ (mbind _ (match ?x with _ => _ end)) => destruct x
      | |- issues_at_most (S _) (mbind _ _) => apply issues_bind_S
      | |- issues_at_most _ (match ?x with _ => _ end) => destruct x
      | |- issues_at_most (S _) _ => first [apply sdk_calls_are_one_call | helper]
      end ].

Section Bounds.

Variable appwriteConfig : Config.
Variable select : list Query.t → list Document → list Document.

Lemma uploadFile_one_call n file : issues_at_most (S n) (uploadFile appwriteConfig file).
Proof. unfold uploadFile. issues_steps idtac. Qed.

Lemma getFilePreview_one_call n fileId :
  issues_at_most (S n) (getFilePreview appwriteConfig fileId).
Proof. unfold getFilePreview. issues_steps idtac. Qed.

Lemma deleteFile_one_call n fileId :
  issues_at_most (S n) (deleteFile appwriteConfig fileId).
Proof. unfold deleteFile. issues_steps idtac. Qed.

Lemma saveUserToDB_one_call n user :
  issues_at_most (S n) (saveUserToDB appwriteConfig user).
Proof. unfold saveUserToDB. issues_steps idtac. Qed.

Ltac helper_call :=
  first [ apply uploadFile_one_call | apply getFilePreview_one_call
        | apply deleteFile_one_call | apply saveUserToDB_one_call ].

(** X25. The calls to the service are bounded: [createPost], [updatePost] and
    [updateUser] issue four calls at most (upload, preview, document, one
    deletion), [createUserAccount] three, [deletePost] and [getCurrentUser]
    two, every other workflow one; on every input and whatever the service
    answers. *)
Theorem workflows_issue_few_calls :
  (∀ post, issues_at_most 4 (createPost appwriteConfig post))
  ∧ (∀ post, issues_at_most 4 (updatePost appwriteConfig post))
  ∧ (∀ user, issues_at_most 4 (updateUser appwriteConfig user))
  ∧ (∀ user, issues_at_most 3 (createUserAccount appwriteConfig user))
  ∧ (∀ postId imageId, issues_at_most 2 (deletePost appwriteConfig postId imageId))
  ∧ issues_at_most 2 (getCurrentUser appwriteConfig select)
  ∧ (∀ email password, issues_at_most 1 (signInAccount email password))
  ∧ issues_at_most 1 signOutAccount
  ∧ issues_at_most 1 getAccount
  ∧ (∀ postId likesArray, issues_at_most 1 (likePost appwriteConfig postId likesArray))
  ∧ (∀ userId postId, issues_at_most 1 (savePost appwriteConfig userId postId))
  ∧ (∀ savedRecordId, issues_at_most 1 (deleteSavedPost appwriteConfig savedRecordId))
  ∧ (∀ postId, issues_at_most 1 (getPostById appwriteConfig postId))
  ∧ (∀ userId, issues_at_most 1 (getUserById appwriteConfig userId))
  ∧ (∀ pageParam, issues_at_most 1 (getInfinitePosts appwriteConfig select pageParam))
  ∧ (∀ searchTerm, issues_at_most 1 (searchPosts appwriteConfig select searchTerm))
  ∧ (∀ limit, issues_at_most 1 (getUsers appwriteConfig select limit))
  ∧ issues_at_most 1 (getRecentPosts appwriteConfig select)
  ∧ (∀ userId, issues_at_most 1 (getUserPosts appwriteConfig select userId)).
Proof.
  repeat apply conj; intros.
  - unfold createPost. issues_steps helper_call.
  - unfold updatePost. cbv zeta. apply issues_try_catch; [|issues_steps helper_call].
    destruct (Nat.ltb 0 (List.length (IUpdatePost.file post)));
      [|issues_steps helper_call].
    apply (issues_bind_split 4 2 3 2); [|issues_steps helper_call|lia|lia].
    apply issues_split_bind; [apply uploadFile_one_call|]. intros [u|].
    + apply issues_split_bind; [apply getFilePreview_one_call|]. intros [url|].
      * apply issues_split_mret.
      * apply issues_split_bind_throw, deleteFile_one_call.
    + apply issues_split_throw.
  - unfold updateUser. cbv zeta. apply issues_try_catch; [|issues_steps helper_call].
    destruct (Nat.ltb 0 (List.length (IUpdateUser.file user)));
      [|issues_steps helper_call].
    apply (issues_bind_split 4 2 3 2); [|issues_steps helper_call|lia|lia].
    apply issues_split_bind; [apply uploadFile_one_call|]. intros [u|].
    + apply issues_split_bind; [apply getFilePreview_one_call|]. intros [url|].
      * apply issues_split_mret.
      * apply issues_split_bind_throw, deleteFile_one_call.
    + apply issues_split_throw.
  - unfold createUserAccount. issues_steps helper_call.
  - unfold deletePost. issues_steps helper_call.
  - unfold getCurrentUser. issues_steps helper_call.
  - unfold signInAccount. issues_steps helper_call.
  - unfold signOutAccount. issues_steps helper_call.
  - unfold getAccount. issues_steps helper_call.
  - unfold likePost. issues_steps helper_call.
  - unfold savePost. issues_steps helper_call.
  - unfold deleteSavedPost. issues_steps helper_call.
  - unfold getPostById. issues_steps helper_call.
  - unfold getUserById. issues_steps helper_call.
  - unfold getInfinitePosts. issues_steps helper_call.
  - unfold searchPosts. issues_steps helper_call.
  - unfold getUsers. issues_steps helper_call.
  - unfold getRecentPosts. issues_steps helper_call.
  - unfold getUserPosts. issues_steps helper_call.
Qed.

End Bounds.

(** ** The further properties at the sample data *)

Lemma writes_touch_one_document_sample :
  documents (updatePost Sample.config Sample.postWithImage (Sample.world [])).2
    !! ("db", "users", "u1")
  = Sample.docs !! ("db", "users", "u1").
Proof.
  apply (proj1 (writes_touch_one_document Sample.config (Sample.world [])
                  ("db", "users", "u1")) Sample.postWithImage).
  discriminate.
Defined.

Lemma creating_keeps_existing_documents_sample :
  documents (createPost Sample.config Sample.newPost (Sample.world [])).2
    !! ("db", "posts", "p1")
  = Some Demo.samplePost.
Proof.
  apply (proj1 (creating_keeps_existing_documents Sample.config (Sample.world [])
                  ("db", "posts", "p1") Demo.samplePost eq_refl)).
Defined.

Lemma stored_files_leave_only_when_named_sample :
  files (updatePost Sample.config Sample.postWithImage (Sample.world [])).2
    !! ("bucket", "face")
  = Some "FACE-IMAGE".
Proof.
  destruct (stored_files_leave_only_when_named Sample.config (Sample.world [])
              ("bucket", "face") "FACE-IMAGE" eq_refl) as (_ & _ & H & _).
  apply H. discriminate.
Defined.

Lemma createPost_without_file_sample :
  (createPost Sample.config Demo.postWithoutFile (Sample.world [])).1 = Return None.
Proof.
  apply (createPost_without_file_stores_nothing Sample.config Demo.postWithoutFile
           (Sample.world []) eq_refl).
Defined.

Lemma createPost_stores_one_document_and_one_file_sample :
  ∃ id d imageId,
    (createPost Sample.config Sample.newPost (Sample.world [])).1
    = Return (Some (mkDocument id d))
    ∧ d !! "imageId" = Some (FStr imageId)
    ∧ files (createPost Sample.config Sample.newPost (Sample.world [])).2
      = <[("bucket", imageId) := "NEW-IMAGE"]> Sample.bucket.
Proof.
  destruct (createPost_stores_one_document_and_one_file Sample.config Sample.newPost
              (Sample.world []) "NEW-IMAGE" [] eq_refl eq_refl eq_refl eq_refl)
    as (id & d & i & H1 & _ & _ & _ & H5 & H6 & _).
  exact (ex_intro _ id (ex_intro _ d (ex_intro _ i (conj H1 (conj H6 H5))))).
Defined.

Lemma createPost_then_getPostById_sample :
  ∃ doc w1,
    createPost Sample.config Sample.newPost (Sample.world []) = (Return (Some doc), w1)
    ∧ (getPostById Sample.config (Some (doc_id doc)) w1).1 = Return (Some doc).
Proof.
  exact (createPost_then_getPostById Sample.config Sample.newPost (Sample.world [])
           "NEW-IMAGE" [] eq_refl eq_refl eq_refl eq_refl eq_refl).
Defined.

Lemma createPost_then_deletePost_sample :
  ∃ doc imageId w1,
    createPost Sample.config Sample.newPost (Sample.world []) = (Return (Some doc), w1)
    ∧ doc_fields doc !! "imageId" = Some (FStr imageId)
    ∧ let r := deletePost Sample.config (Some (doc_id doc)) (Some imageId) w1 in
      r.1 = Return (Some (mkStatus "Ok"))
      ∧ documents r.2 = Sample.docs ∧ files r.2 = Sample.bucket.
Proof.
  exact (createPost_then_deletePost Sample.config Sample.newPost (Sample.world [])
           "NEW-IMAGE" [] eq_refl eq_refl eq_refl eq_refl eq_refl eq_refl).
Defined.

Lemma uploadFile_then_deleteFile_sample :
  ∃ uploaded w1,
    uploadFile Sample.config (Some "NEW-IMAGE") (Sample.world [])
    = (Return (Some uploaded), w1)
    ∧ files w1 !! ("bucket", file_id uploaded) = Some "NEW-IMAGE"
    ∧ let r := deleteFile Sample.config (file_id uploaded) w1 in
      r.1 = Return (Some (mkStatus "ok")) ∧ files r.2 = Sample.bucket.
Proof.
  exact (uploadFile_then_deleteFile Sample.config "NEW-IMAGE" (Sample.world [])
           eq_refl eq_refl).
Defined.

Lemma updates_keep_the_fields_not_sent_sample :
  ∃ d', documents (updatePost Sample.config Sample.postWithoutImage (Sample.world [])).2
          !! ("db", "posts", "p1") = Some d'
        ∧ d' !! "creator" = Some (FStr "u1").
Proof.
  apply (proj1 (updates_keep_the_fields_not_sent Sample.config (Sample.world [])
                  "creator" Demo.samplePost) Sample.postWithoutImage).
  - intros H. repeat (apply elem_of_cons in H as [H|H]; [discriminate H|]).
    by apply elem_of_nil in H.
  - reflexivity.
Defined.

Lemma likePost_replaces_the_likes_sample :
  (likePost Sample.config "p1" ["u1"; "u2"] (Sample.world [])).1
  = Return (Some (mkDocument "p1" (<["likes" := FList ["u1"; "u2"]]> Demo.samplePost)))
  ∧ (likePost Sample.config "nope" ["u1"] (Sample.world [])).1 = Return None.
Proof.
  split.
  - apply (proj1 (likePost_replaces_the_likes Sample.config "p1" ["u1"; "u2"]
                    (Sample.world [])) Demo.samplePost eq_refl eq_refl).
  - apply (proj2 (likePost_replaces_the_likes Sample.config "nope" ["u1"]
                    (Sample.world []))).
    right. reflexivity.
Defined.

Lemma likePost_twice_sample :
  let r1 := likePost Sample.config "p1" ["u1"] (Sample.world []) in
  let r2 := likePost Sample.config "p1" ["u1"] r1.2 in
  r2.1 = r1.1 ∧ documents r2.2 = documents r1.2.
Proof.
  exact (likePost_twice Sample.config "p1" ["u1"] (Sample.world []) Demo.samplePost
           eq_refl eq_refl eq_refl).
Defined.

Lemma savePost_then_deleteSavedPost_sample :
  ∃ record w1,
    savePost Sample.config "u1" "p1" (Sample.world []) = (Return (Some record), w1)
    ∧ documents w1 !! ("db", "saves", doc_id record)
      = Some (obj [("user", Some (FStr "u1")); ("post", Some (FStr "p1"))])
    ∧ let r := deleteSavedPost Sample.config (doc_id record) w1 in
      r.1 = Return (Some (mkStatus "Ok")) ∧ documents r.2 = Sample.docs.
Proof.
  exact (savePost_then_deleteSavedPost Sample.config "u1" "p1" (Sample.world [])
           eq_refl eq_refl).
Defined.

Lemma savePost_twice_sample :
  ∃ r1 r2 w1 w2,
    savePost Sample.config "u1" "p1" (Sample.world []) = (Return (Some r1), w1)
    ∧ savePost Sample.config "u1" "p1" w1 = (Return (Some r2), w2)
    ∧ doc_id r1 ≠ doc_id r2.
Proof.
  destruct (savePost_twice_stores_two_records Sample.config "u1" "p1" (Sample.world [])
              eq_refl eq_refl) as (r1 & r2 & w1 & w2 & H1 & H2 & H3 & _).
  exact (ex_intro _ r1 (ex_intro _ r2 (ex_intro _ w1 (ex_intro _ w2
           (conj H1 (conj H2 H3)))))).
Defined.

Lemma deleting_what_is_missing_sample :
  (deleteSavedPost Sample.config "nope" (Sample.world [])).1 = Return None
  ∧ (deleteFile Sample.config "nope" (Sample.world [])).1 = Return None.
Proof.
  destruct (deleting_what_is_missing_changes_nothing Sample.config (Sample.world []))
    as [Hs Hf].
  split.
  - exact (proj1 (Hs "nope" eq_refl)).
  - apply (proj2 (Hf "nope" eq_refl)). discriminate.
Defined.

Lemma createUserAccount_sample :
  ∃ id d,
    (createUserAccount Sample.config Sample.newUser (Sample.world [])).1
    = Return (NewUser (Some (mkDocument id d)))
    ∧ d !! "username" = Some (FStr "ada").
Proof.
  destruct (createUserAccount_creates_account_and_profile Sample.config Sample.newUser
              (Sample.world []) eq_refl eq_refl eq_refl)
    as (id & d & H1 & _ & _ & _ & _ & H6 & _).
  exists id, d. split; [exact H1|]. rewrite H6. reflexivity.
Defined.

Lemma createUserAccount_keeps_account_sample :
  documents (createUserAccount Sample.config Sample.newUser
               (Sample.world [Fulfil; Fulfil; Reject])).2 = Sample.docs
  ∧ is_Some (accounts (createUserAccount Sample.config Sample.newUser
                         (Sample.world [Fulfil; Fulfil; Reject])).2 !! "0").
Proof.
  destruct (createUserAccount_keeps_account_when_profile_fails Sample.config
              Sample.newUser (Sample.world [Fulfil; Fulfil; Reject]) eq_refl)
    as (_ & Ha & Hd).
  - right. discriminate.
  - split; [exact Hd|]. eexists. exact Ha.
Defined.

Lemma update_stops_sample :
  (updatePost Sample.config Sample.postWithImage (Sample.world [Reject])).1 = Return None
  ∧ files (updateUser Sample.config Sample.userWithImage
             (Sample.world [Fulfil; Falsy])).2 = Sample.bucket.
Proof.
  destruct (update_stops_when_upload_or_preview_fails Sample.config) with
    (w := Sample.world [Reject]) (f := "NEW-IMAGE") (fs := @nil File)
    as (Hp & _ & _ & _).
  destruct (update_stops_when_upload_or_preview_fails Sample.config) with
    (w := Sample.world [Fulfil; Falsy]) (f := "NEW-FACE") (fs := @nil File)
    as (_ & _ & _ & Hu).
  split.
  - apply (Hp Sample.postWithImage eq_refl). discriminate.
  - destruct (Hu Sample.userWithImage eq_refl eq_refl) as (_ & _ & _ & H);
      [discriminate|]. exact (H eq_refl).
Defined.

Lemma updateUser_first_image_sample :
  files (updateUser Sample.config Demo.userFirstImage (Sample.world [])).2
  = <[("bucket", "0") := "FIRST-FACE"]> Sample.bucket.
Proof.
  destruct (updateUser_first_image_deletes_nothing Sample.config Demo.userFirstImage
              (Sample.world []) "FIRST-FACE" [] Demo.sampleUser
              eq_refl eq_refl eq_refl eq_refl eq_refl eq_refl) as (_ & H & _).
  exact H.
Defined.

Lemma listings_sample :
  (getUserPosts Sample.config Sample.select (Some "u1") (Sample.world [])).1
  = Return (Some [mkDocument "p1" Demo.samplePost]).
Proof.
  destruct (listings_return_the_selection Sample.config Sample.select (Sample.world []))
    as (_ & _ & H & _).
  rewrite (H "u1") by discriminate. vm_compute. reflexivity.
Defined.

Lemma getCurrentUser_sample :
  (getCurrentUser Sample.config Sample.select (Demo.signedIn [])).1
  = Return (Some (mkDocument "u1" Demo.sampleUser))
  ∧ (getCurrentUser Sample.config Sample.select (Sample.world [])).1 = Return None.
Proof.
  split.
  - rewrite (proj1 (getCurrentUser_returns_first_profile Sample.config Sample.select
                      (Demo.signedIn [])) "a1" Demo.ada eq_refl eq_refl eq_refl eq_refl).
    vm_compute. reflexivity.
  - apply (proj2 (getCurrentUser_returns_first_profile Sample.config Sample.select
                    (Sample.world []))).
    left. reflexivity.
Defined.

Lemma tags_survive_the_edit_form_sample :
  normalizeTags (Some (defaultTags (Some ["sky"; "sea"]))) = ["sky"; "sea"].
Proof.
  apply (proj1 (tags_survive_the_edit_form ["sky"; "sea"])); [discriminate|].
  intros t Ht.
  repeat (apply elem_of_cons in Ht as [->|Ht]; [split; reflexivity|]).
  by apply elem_of_nil in Ht.
Defined.
